(** * Natlink back-end of Dragonfly: grammar lifecycle adapter

    Shallow embedding of [dragonfly/engines/backend_natlink/engine.py]
    ([NatlinkEngine], [GrammarWrapper], [TimerThread], [map_word]) and the
    properties of its specification.

    The Python methods are state transformers over the fields of [self]
    and over a [world] that records every call made into a collaborator
    (the natlink module, grammar objects, timers, windows, files) together
    with the way the call ended.  How a collaborator answers is not part of
    the adapter: it is an oracle [env] that sees the calls made so far. *)

From Stdlib Require Import ZArith List Bool Ascii String Lia.
From stdpp Require Import base option list gmap sets strings.

Local Open Scope Z_scope.
Local Open Scope string_scope.

(** ** Python values and exceptions *)

(** The values that reach the adapter from natlink or from a caller:
    text ([six.text_type]), byte strings ([six.binary_type]), integers or
    [None].  Characters are code points below 256. *)
Inductive pyval : Type :=
| PText (s : string)
| PBytes (s : string)
| PInt (z : Z)
| PNone.

(** The exception classes the file raises, catches or lets through.
    [NatError] stands for [natlink.NatError] and [MimicFailed] for
    [natlink.MimicFailed]; [str(e)] of a [NatError] is its message.
    [AttributeError] is what the look-up of an attribute that an object
    does not have raises. *)
Inductive exn : Type :=
| NatError (msg : string)
| MimicFailed (msg : string)
| EngineError (msg : string)
| MimicFailure (msg : string)
| KeyError (key : string)
| TypeError (msg : string)
| PyWinError (msg : string)
| OtherError (msg : string)
| AttributeError (msg : string).

Definition is_NatError (e : exn) : bool :=
  match e with NatError _ => true | _ => false end.

Definition is_MimicFailed (e : exn) : bool :=
  match e with MimicFailed _ => true | _ => false end.

Definition is_PyWinError (e : exn) : bool :=
  match e with PyWinError _ => true | _ => false end.

Definition str_exn (e : exn) : string :=
  match e with
  | NatError m | MimicFailed m | EngineError m | MimicFailure m
  | KeyError m | TypeError m | PyWinError m | OtherError m
  | AttributeError m => m
  end.

Inductive result (A : Type) : Type :=
| Return (a : A)
| Raise (e : exn).
Arguments Return {A} a.
Arguments Raise {A} e.

Definition is_Return {A} (r : result A) : bool :=
  match r with Return _ => true | Raise _ => false end.

(** ** Calls into collaborators *)

Record Window : Type := mkWindow {
  win_handle : Z;
  win_title : string;
  is_visible : bool;
  win_pid : Z
}.

Inductive open_mode : Type := mode_wb | mode_a.

(** [go] is the identity of a [natlink.GramObj]; a callback argument is
    [true] for a bound method of the wrapper and [false] for [None]. *)
Inductive call : Type :=
| natConnect (bThreads : bool)
| natDisconnect
| recognitionMimic (words : list pyval)
| waitForSpeech
| GramObj (go : nat)
| setBeginCallback (go : nat) (cb : bool)
| setResultsCallback (go : nat) (cb : bool)
| setHypothesisCallback (go : nat) (cb : bool)
| load (go : nat) (data : string) (allResults hypothesis : bool)
| activate (go : nat) (rule : string) (window : Z)
| deactivate (go : nat) (rule : string)
| emptyList (go : nat) (name : string)
| appendList (go : nat) (name word : string)
| create_timer
| Thread_start
| Timer_stop
| Window_close (w : Window)
| getWave
| file_open (path : string) (mode : open_mode)
| file_write (path : string) (data : list Byte.byte).

(** A call and how it ended: [None] when it returned, [Some e] when it
    raised [e]. *)
Definition event : Type := call * option exn.

Inductive level : Type := DEBUG | WARNING | ERROR | EXCEPTION.

(** What the adapter can observe or change outside its own objects:
    the calls made so far, the log records, the word lists held by the
    native grammar objects, the directories and files of the file system,
    the windows on the desktop, the process id and the current time as
    [strftime("%Y-%m-%d_%H-%M-%S_%f")] prints it. *)
Record world : Type := mkWorld {
  trace : list event;
  logs : list (level * string);
  next_object : nat;
  native_lists : gmap (nat * string) (list string);
  dirs : gset string;
  files : gmap string (list Byte.byte);
  desktop : list Window;
  getpid : Z;
  now : string
}.

Definition set_trace (t : list event) (w : world) : world :=
  mkWorld t (logs w) (next_object w) (native_lists w) (dirs w) (files w) (desktop w)
          (getpid w) (now w).

Definition set_logs (l : list (level * string)) (w : world) : world :=
  mkWorld (trace w) l (next_object w) (native_lists w) (dirs w) (files w) (desktop w)
          (getpid w) (now w).

Definition set_next_object (n : nat) (w : world) : world :=
  mkWorld (trace w) (logs w) n (native_lists w) (dirs w) (files w) (desktop w)
          (getpid w) (now w).

Definition set_files (f : gmap string (list Byte.byte)) (w : world) : world :=
  mkWorld (trace w) (logs w) (next_object w) (native_lists w) (dirs w) f (desktop w)
          (getpid w) (now w).

Definition set_native_lists (l : gmap (nat * string) (list string))
    (w : world) : world :=
  mkWorld (trace w) (logs w) (next_object w) l (dirs w) (files w)
          (desktop w) (getpid w) (now w).

(** ** Methods as state transformers that may raise *)

Definition M (St A : Type) : Type := St -> world -> result A * St * world.

Definition ret {St A} (a : A) : M St A := fun s w => (Return a, s, w).

Definition raise {St A} (e : exn) : M St A := fun s w => (Raise e, s, w).

Definition bind {St A B} (m : M St A) (k : A -> M St B) : M St B :=
  fun s w =>
    match m s w with
    | (Return a, s', w') => k a s' w'
    | (Raise e, s', w') => (Raise e, s', w')
    end.

Declare Scope py_scope.
Delimit Scope py_scope with py.
Notation "x <- m ;; k" := (bind m (fun x => k))
  (at level 100, m at next level, right associativity) : py_scope.
Notation "m ;; k" := (bind m (fun _ => k))
  (at level 100, right associativity) : py_scope.
Local Open Scope py_scope.

Definition get {St} : M St St := fun s w => (Return s, s, w).

Definition put {St} (s : St) : M St unit := fun _ w => (Return tt, s, w).

Definition modify {St} (f : St -> St) : M St unit :=
  fun s w => (Return tt, f s, w).

Definition get_world {St} : M St world := fun s w => (Return w, s, w).

(** [try: body except <classes>: handler]: [handler e] is [None] when no
    clause matches [e]. *)
Definition try_except {St A} (body : M St A)
    (handler : exn -> option (M St A)) : M St A :=
  fun s w =>
    match body s w with
    | (Return a, s', w') => (Return a, s', w')
    | (Raise e, s', w') =>
        match handler e with
        | Some h => h s' w'
        | None => (Raise e, s', w')
        end
    end.

(** [for x in xs: body x] *)
Fixpoint for_each {St X} (xs : list X) (body : X -> M St unit) : M St unit :=
  match xs with
  | [] => ret tt
  | x :: xs' => body x ;; for_each xs' body
  end.

Definition log {St} (l : level) (msg : string) : M St unit :=
  fun s w => (Return tt, s, set_logs (logs w ++ [(l, msg)])%list w).

(** Run a method of an object held in a field of [self]. *)
Definition zoom {St Sub A} (proj : St -> Sub) (upd : Sub -> St -> St)
    (m : M Sub A) : M St A :=
  fun s w =>
    match m (proj s) w with
    | (r, sub', w') => (r, upd sub' s, w')
    end.

(** ** The objects of the adapter *)

(** What [Grammar.process_begin] may ask of the wrapper it belongs to
    while it runs: the (de)activation of a rule, which reaches the wrapper
    through [NatlinkEngine.activate_rule] and [deactivate_rule], or an
    exception of its own. *)
Inductive request : Type :=
| req_activate (rule : string)
| req_deactivate (rule : string)
| req_raise (e : exn).

(** The engine-agnostic grammar, as far as this file looks into it. *)
Record Grammar : Type := mkGrammar {
  grammar_id : nat;
  grammar_name : string;
  process_begin : pyval -> pyval -> Z -> list request;
  has_process_recognition_other : bool;
  has_process_recognition_failure : bool
}.

Record GrammarWrapper : Type := mkGrammarWrapper {
  grammar : Grammar;
  grammar_object : nat;
  rule_names : option (gmap string nat);
  active_rules_set : gset string;
  hwnd : Z;
  beginning : bool
}.

Definition set_rule_names (r : option (gmap string nat))
    (self : GrammarWrapper) : GrammarWrapper :=
  mkGrammarWrapper (grammar self) (grammar_object self) r
    (active_rules_set self) (hwnd self) (beginning self).

Definition set_active_rules_set (a : gset string)
    (self : GrammarWrapper) : GrammarWrapper :=
  mkGrammarWrapper (grammar self) (grammar_object self) (rule_names self)
    a (hwnd self) (beginning self).

Definition set_hwnd (h : Z) (self : GrammarWrapper) : GrammarWrapper :=
  mkGrammarWrapper (grammar self) (grammar_object self) (rule_names self)
    (active_rules_set self) h (beginning self).

Definition set_beginning (b : bool) (self : GrammarWrapper) : GrammarWrapper :=
  mkGrammarWrapper (grammar self) (grammar_object self) (rule_names self)
    (active_rules_set self) (hwnd self) b.

(** [GrammarWrapper.__init__] *)
Definition GrammarWrapper_init (grammar : Grammar) (grammar_object : nat)
    : GrammarWrapper :=
  mkGrammarWrapper grammar grammar_object None ∅ 0 false.

Record TimerThread : Type := mkTimerThread {
  _stop_event : bool;
  _timer : option nat
}.

(** [TimerThread.__init__] *)
Definition TimerThread_init : TimerThread := mkTimerThread false None.

Record NatlinkEngine : Type := mkNatlinkEngine {
  _timer_thread : option TimerThread;
  _retain_dir : option string;
  _grammar_wrappers : gmap nat GrammarWrapper
}.

Definition set_timer_thread (t : option TimerThread)
    (self : NatlinkEngine) : NatlinkEngine :=
  mkNatlinkEngine t (_retain_dir self) (_grammar_wrappers self).

Definition set_retain_dir (d : option string)
    (self : NatlinkEngine) : NatlinkEngine :=
  mkNatlinkEngine (_timer_thread self) d (_grammar_wrappers self).

Definition set_grammar_wrappers (m : gmap nat GrammarWrapper)
    (self : NatlinkEngine) : NatlinkEngine :=
  mkNatlinkEngine (_timer_thread self) (_retain_dir self) m.

(** A dragonfly word list: its name and [get_list_items()]. *)
Record ListBase : Type := mkListBase {
  list_name : string;
  get_list_items : list string
}.

(** The natlink results object: the wave data [getWave()] returns when it
    does not raise. *)
Record Results : Type := mkResults {
  wave : list Byte.byte
}.

(** The argument of [mimic]: one value, or a sequence of word tokens. *)
Inductive words_arg : Type :=
| words_value (v : pyval)
| words_seq (ws : list pyval).

(** ** Strings *)

Definition tab : string := String (ascii_of_nat 9) "".
Definition newline : string := String (ascii_of_nat 10) "".

(** [sep.join(parts)] *)
Definition join (sep : string) (parts : list string) : string :=
  String.concat sep parts.

(** Whitespace for [str.split()] on text, among the code points below 256,
    and on Python 2 byte strings. *)
Definition text_isspace (c : ascii) : bool :=
  let n := nat_of_ascii c in
  ((9 <=? n) && (n <=? 13) || (28 <=? n) && (n <=? 32)
   || (n =? 133) || (n =? 160))%nat.

Definition bytes_isspace (c : ascii) : bool :=
  let n := nat_of_ascii c in
  ((9 <=? n) && (n <=? 13) || (n =? 32))%nat.

(** [s.split()]: the maximal runs of non-whitespace characters of [s], in
    order; [cur] is the run being read. *)
Fixpoint split_from (isspace : ascii -> bool) (cur s : string) : list string :=
  match s with
  | EmptyString => if String.eqb cur "" then [] else [cur]
  | String c s' =>
      if isspace c
      then (if String.eqb cur "" then split_from isspace "" s'
            else cur :: split_from isspace "" s')
      else split_from isspace (cur +:+ String c "") s'
  end.

Definition split (isspace : ascii -> bool) (s : string) : list string :=
  split_from isspace "" s.

(** A value counts as true in a condition ([if retain_dir ...]). *)
Definition truthy (d : option string) : bool :=
  match d with
  | Some s => negb (String.eqb s "")
  | None => false
  end.

Section Adapter.

#[local] Set Default Proof Using "Type".

(** ** What the file takes from elsewhere *)

(** The collaborators: [env history c] tells how call [c] ends after the
    calls of [history] ([None]: it returns, [Some e]: it raises [e]). *)
Variable env : list event -> call -> option exn.

(** [bytes.decode(encoding)] and [text.encode(encoding)] for the preferred
    encoding of the locale, [six.PY2], and [repr] of the values [mimic]
    prints. *)
Variable decode : string -> result string.
Variable encode : string -> result string.
Variable PY2 : bool.
Variable repr_arg : words_arg -> string.
Variable repr_words : list pyval -> string.

(** [NatlinkCompiler().compile_grammar]: the compiled grammar and the
    mapping of its rule names, [str(grammar)] and [str(engine)]. *)
Variable compile_grammar : Grammar -> result (string * gmap string nat).
Variable str_grammar : Grammar -> string.
Variable str_engine : string.

(** [os.path.join], [text_type(float(len(audio) / 2) / 11025)] as a
    function of [len(audio)], and the title test of
    [Window.get_matching_windows]. *)
Variable path_join : string -> string -> string.
Variable audio_length_text : nat -> string.
Variable title_matches : string -> Window -> bool.

(** [GrammarWrapperBase._process_final_rule] *)
Variable base_process_final_rule :
  pyval -> list string -> Results -> bool -> string -> M GrammarWrapper unit.

(** A call into a collaborator: it is recorded with its outcome, and
    [effect] happens when it returns. *)
Definition extern {St} (c : call) (effect : world -> world) : M St unit :=
  fun s w =>
    let o := env (trace w) c in
    let w1 := set_trace (trace w ++ [(c, o)])%list w in
    match o with
    | None => (Return tt, s, effect w1)
    | Some e => (Raise e, s, w1)
    end.

Definition native {St} (c : call) : M St unit := extern c (fun w => w).

Definition lift_result {St A} (r : result A) : M St A :=
  match r with
  | Return a => ret a
  | Raise e => raise e
  end.

(** ** [map_word] *)

Definition map_word {St} (word : pyval) : M St pyval :=
  match word with
  | PText _ => ret word
  | PBytes b => s <- lift_result (decode b) ;; ret (PText s)
  | _ => ret word
  end.

(** ** [GrammarWrapper] *)

(** [self.natlink] on a wrapper.  [GrammarWrapper.__init__] sets
    [grammar_object], [rule_names], [active_rules_set], [hwnd] and
    [beginning], and the file reads [grammar], [engine] and [_log] from the
    base class; nothing gives a wrapper an attribute [natlink], which only
    the engine has.  The look-up raises. *)
Definition no_natlink_attribute : exn :=
  AttributeError "'GrammarWrapper' object has no attribute 'natlink'".

Definition wrapper_natlink : M GrammarWrapper unit :=
  raise no_natlink_attribute.

(** The class of [except self.natlink.NatError] is looked up when the
    [try] block has raised, whatever it raised, and before the exception
    is compared with it: the look-up fails, so that the exception of
    [activate] is replaced by [AttributeError] and the two calls of the
    handler are never reached. *)
Definition activate_rule (rule_name : string) : M GrammarWrapper unit :=
  modify (fun self =>
    set_active_rules_set ({[rule_name]} ∪ active_rules_set self) self) ;;
  self <- get ;;
  (* Rule activation is delayed. *)
  if beginning self then ret tt else
  (* Activate the rule for the current window. *)
  let grammar_object := grammar_object self in
  try_except (native (activate grammar_object rule_name (hwnd self)))
    (fun e =>
       Some (wrapper_natlink ;;
             if is_NatError e
             then native (deactivate grammar_object rule_name) ;;
                  native (activate grammar_object rule_name (hwnd self))
             else raise e)).

Definition deactivate_rule (rule_name : string) : M GrammarWrapper unit :=
  self <- get ;;
  (* set.remove raises KeyError for a missing element *)
  (if bool_decide (rule_name ∈ active_rules_set self)
   then put (set_active_rules_set
               (active_rules_set self ∖ {[rule_name]}) self)
   else raise (KeyError rule_name)) ;;
  let grammar_object := grammar_object self in
  native (deactivate grammar_object rule_name).

Definition do_request (r : request) : M GrammarWrapper unit :=
  match r with
  | req_activate rule => activate_rule rule
  | req_deactivate rule => deactivate_rule rule
  | req_raise e => raise e
  end.

(** [self.grammar.process_begin(executable, title, handle)] *)
Definition grammar_process_begin (executable title : pyval) (handle : Z)
    : M GrammarWrapper unit :=
  self <- get ;;
  for_each (process_begin (grammar self) executable title handle) do_request.

(** The order in which Python goes through a set of strings: it depends on
    the hashes of the strings, which change from one interpreter run to the
    next, and the adapter has no say in it. *)
Variable iter_set : gset string -> list string.

(** [module_info] is the tuple natlink passes: the executable, the window
    title and the window handle, an integer, which [map_word] leaves as it
    is.  The last loop goes through the active set, in the order of
    [iter_set], while [activate_rule] adds to it names that are already
    there, so the set keeps its size and the loop sees each of its elements
    once. *)
Definition begin_callback (module_info : pyval * pyval * Z)
    : M GrammarWrapper unit :=
  modify (set_beginning true) ;;
  let '(word0, word1, word2) := module_info in
  executable <- map_word word0 ;;
  title <- map_word word1 ;;
  let handle := word2 in
  modify (set_hwnd handle) ;;
  (* Run the grammar's process_begin() method. *)
  try_except (grammar_process_begin executable title handle)
    (fun _ =>
       Some (log EXCEPTION "Exception occurred during process_begin() call.")) ;;
  (* Ensure that active rules are active for the current window. *)
  modify (set_beginning false) ;;
  self <- get ;;
  for_each (iter_set (active_rules_set self)) activate_rule.

(** [with open(path, mode) as f: f.write(data)]: opening and writing are
    the two calls that can fail; "wb" empties the file, "a" keeps it. *)
Definition open_file {St} (path : string) (mode : open_mode) : M St unit :=
  extern (file_open path mode)
    (fun w =>
       match mode with
       | mode_wb => set_files (<[path := []]> (files w)) w
       | mode_a => set_files (<[path := default [] (files w !! path)]> (files w)) w
       end).

Definition write_file {St} (path : string) (data : list Byte.byte) : M St unit :=
  extern (file_write path data)
    (fun w =>
       set_files (<[path := (default [] (files w !! path) ++ data)%list]>
                    (files w)) w).

Definition results_getWave {St} (results : Results) : M St (list Byte.byte) :=
  native getWave ;; ret (wave results).

Definition _retain_audio (engine : NatlinkEngine) (words : list string)
    (results : Results) (rule_name : string) : M GrammarWrapper unit :=
  (* Only write audio data and metadata if the directory exists. *)
  let retain_dir := _retain_dir engine in
  let dir := default "" retain_dir in
  w <- get_world ;;
  if truthy retain_dir && negb (bool_decide (dir ∈ dirs w)) then
    log WARNING ("Audio was not retained because '" +:+ dir
                 +:+ "' was not a directory")
  else if truthy retain_dir then
    try_except
      (audio <- results_getWave results ;;
       (* Make sure we have audio data *)
       if (0 <? length audio)%nat then
         (* Write audio data. *)
         w <- get_world ;;
         let filename := "retain_" +:+ now w +:+ ".wav" in
         let wav_path := path_join dir filename in
         open_file wav_path mode_wb ;;
         write_file wav_path audio ;;
         (* Write metadata, assuming 11025Hz 16bit mono audio *)
         let text := join " " words in
         let audio_length := audio_length_text (length audio) in
         let tsv_path := path_join dir "retain.tsv" in
         self <- get ;;
         open_file tsv_path mode_a ;;
         write_file tsv_path
           (list_byte_of_string
              (join tab [filename; audio_length; grammar_name (grammar self);
                         rule_name; text] +:+ newline))
       else ret tt)
      (fun _ => Some (log EXCEPTION "Exception retaining audio"))
  else ret tt.

Definition _process_final_rule (engine : NatlinkEngine) (state : pyval)
    (words : list string) (results : Results) (dispatch_other : bool)
    (rule : string) : M GrammarWrapper unit :=
  (* Retain audio, if appropriate. *)
  _retain_audio engine words results rule ;;
  (* Call the base class method. *)
  base_process_final_rule state words results dispatch_other rule.

(** ** [TimerThread]

    [start] and [stop] as the engine calls them; what [run] does on the
    thread itself is outside this sequential model. *)

Definition set_timer (t : option nat) (self : TimerThread) : TimerThread :=
  mkTimerThread (_stop_event self) t.

Definition set_stop_event (b : bool) (self : TimerThread) : TimerThread :=
  mkTimerThread b (_timer self).

(** [self._engine.create_timer(timer_function, 0.025)] *)
Definition engine_create_timer {St} : M St nat :=
  w <- get_world ;;
  let t := next_object w in
  extern create_timer (set_next_object (S t)) ;;
  ret t.

Definition TimerThread_start : M TimerThread unit :=
  self <- get ;;
  (match _timer self with
   | None => t <- engine_create_timer ;; modify (set_timer (Some t))
   | Some _ => ret tt
   end) ;;
  native Thread_start.

Definition _stop_timer : M TimerThread unit :=
  self <- get ;;
  match _timer self with
  | Some _ => native Timer_stop ;; modify (set_timer None)
  | None => ret tt
  end.

Definition TimerThread_stop : M TimerThread unit :=
  modify (set_stop_event true) ;;
  _stop_timer.

(** ** [NatlinkEngine] *)

Definition apply_threading_fix : M NatlinkEngine unit :=
  self <- get ;;
  (* Only start the thread if one isn't already active. *)
  match _timer_thread self with
  | None =>
      zoom (fun _ => TimerThread_init)
           (fun t => set_timer_thread (Some t)) TimerThread_start
  | Some _ => ret tt
  end.

Definition connect : M NatlinkEngine unit :=
  native (natConnect true) ;;
  apply_threading_fix.

Definition _unload_grammar (grammar : Grammar) (wrapper : GrammarWrapper)
    : M NatlinkEngine unit :=
  try_except
    (let grammar_object := grammar_object wrapper in
     native (setBeginCallback grammar_object false) ;;
     native (setResultsCallback grammar_object false) ;;
     native (setHypothesisCallback grammar_object false))
    (fun e =>
       if is_NatError e
       then Some (log EXCEPTION ("Failed to unload grammar "
                    +:+ str_grammar grammar +:+ ": " +:+ str_exn e +:+ "."))
       else None).

(** Modelled from the spec: [EngineBase.grammars], [Grammar.unload] and
    [EngineBase.unload_grammar] are not in this file.  The engine keeps one
    session per loaded grammar; unloading a grammar clears the native
    callback registrations of its session ([_unload_grammar]) and destroys
    the session. *)
Definition grammars (self : NatlinkEngine) : list Grammar :=
  grammar <$> (map_to_list (_grammar_wrappers self)).*2.

(** Modelled from the spec: [Grammar.unload] is not in this file.  A loaded
    grammar hands its session to [_unload_grammar] and the engine forgets
    the session; a grammar that is not loaded is left alone. *)
Definition Grammar_unload (grammar : Grammar) : M NatlinkEngine unit :=
  self <- get ;;
  match _grammar_wrappers self !! grammar_id grammar with
  | Some wrapper =>
      _unload_grammar grammar wrapper ;;
      modify (fun self =>
        set_grammar_wrappers
          (delete (grammar_id grammar) (_grammar_wrappers self)) self)
  | None => ret tt
  end.

(** Modelled from the spec: [EngineBase._get_grammar_wrapper] is not in this
    file; it finds the session of a loaded grammar, and the callers test
    its result with [if not wrapper]. *)
Definition _get_grammar_wrapper (grammar : Grammar)
    : M NatlinkEngine (option GrammarWrapper) :=
  self <- get ;;
  ret (_grammar_wrappers self !! grammar_id grammar).

(** [Window.get_matching_windows(title=target_title)] *)
Definition get_matching_windows (target_title : string) (w : world)
    : list Window :=
  filter (fun win => title_matches target_title win = true) (desktop w).

(** The loop over the matching windows of [disconnect]: the first window
    that is visible and belongs to this process is closed, and the loop
    is left. *)
Fixpoint close_dialog (windows : list Window) : M NatlinkEngine unit :=
  match windows with
  | [] => ret tt
  | window :: rest =>
      w <- get_world ;;
      if is_visible window && (win_pid window =? getpid w)%Z then
        try_except (native (Window_close window))
          (fun e => if is_PyWinError e then Some (ret tt) else None)
      else close_dialog rest
  end.

(** [disconnect], without the import of [Window]. *)
Definition disconnect : M NatlinkEngine unit :=
  (* Unload all grammars from the engine so that Dragon doesn't keep
     recognizing them. *)
  self <- get ;;
  for_each (grammars self) Grammar_unload ;;
  (* Close the the waitForSpeech() dialog box if it is active for this
     process. *)
  let target_title := "Natlink / Python Subsystem" in
  w <- get_world ;;
  close_dialog (get_matching_windows target_title w) ;;
  (* Stop the special timer thread if it is running. *)
  self <- get ;;
  (match _timer_thread self with
   | Some thread =>
       zoom (fun _ => thread) (fun t => set_timer_thread (Some t))
            TimerThread_stop ;;
       modify (set_timer_thread None)
   | None => ret tt
   end) ;;
  (* Finally disconnect from natlink. *)
  native natDisconnect.

(** [natlink.GramObj()] *)
Definition natlink_GramObj {St} : M St nat :=
  w <- get_world ;;
  let go := next_object w in
  extern (GramObj go) (set_next_object (S go)) ;;
  ret go.

Definition not_connected_message : string :=
  "Calling GramObj.load is not allowed before calling natConnect".

Definition load_failure_message (grammar : Grammar) (e : exn) : string :=
  "Failed to load grammar " +:+ str_grammar grammar +:+ ": "
  +:+ str_exn e +:+ ".".

Definition _load_grammar (grammar : Grammar)
    : M NatlinkEngine GrammarWrapper :=
  log DEBUG ("Engine " +:+ str_engine +:+ ": loading grammar "
             +:+ grammar_name grammar +:+ ".") ;;
  grammar_object <- natlink_GramObj ;;
  let wrapper := GrammarWrapper_init grammar grammar_object in
  native (setBeginCallback grammar_object true) ;;
  native (setResultsCallback grammar_object true) ;;
  native (setHypothesisCallback grammar_object false) ;;
  c <- lift_result (compile_grammar grammar) ;;
  let '(compiled_grammar, rule_names) := c in
  let wrapper := set_rule_names (Some rule_names) wrapper in
  let all_results := has_process_recognition_other grammar
                     || has_process_recognition_failure grammar in
  let hypothesis := false in
  (* Return early if the grammar has no rules. *)
  if bool_decide (rule_names = ∅) then ret wrapper else
  attempt_connect <-
    try_except
      (native (load grammar_object compiled_grammar all_results hypothesis) ;;
       ret false)
      (fun e =>
         if is_NatError e then
           (* If loading failed because we're not connected yet,
              attempt to connect to natlink and reload the grammar. *)
           Some (if String.eqb (str_exn e) not_connected_message
                 then ret true
                 else log EXCEPTION (load_failure_message grammar e) ;;
                      raise (EngineError (load_failure_message grammar e)))
         else None) ;;
  (if attempt_connect : bool then
     connect ;;
     try_except
       (native (load grammar_object compiled_grammar all_results hypothesis))
       (fun e =>
          if is_NatError e
          then Some (log EXCEPTION (load_failure_message grammar e) ;;
                     raise (EngineError (load_failure_message grammar e)))
          else None)
   else ret tt) ;;
  (* Apply the threading fix if it hasn't been applied yet. *)
  apply_threading_fix ;;
  (* Return the grammar wrapper. *)
  ret wrapper.

(** What natlink does to the word lists of a grammar object when it
    accepts [emptyList] and [appendList]. *)
Definition empty_list (go : nat) (n : string) (w : world) : world :=
  set_native_lists (<[(go, n) := []]> (native_lists w)) w.

Definition append_word (go : nat) (n word : string) (w : world) : world :=
  set_native_lists
    (<[(go, n) := (default [] (native_lists w !! (go, n)) ++ [word])%list]>
       (native_lists w)) w.

Definition update_list (lst : ListBase) (grammar : Grammar)
    : M NatlinkEngine unit :=
  wrapper <- _get_grammar_wrapper grammar ;;
  match wrapper with
  | None => ret tt
  | Some wrapper =>
      let grammar_object := grammar_object wrapper in
      (* First empty then populate the list.  Use the local variables
         n and f as an optimization. *)
      let n := list_name lst in
      let f := fun n word =>
        extern (appendList grammar_object n word)
               (append_word grammar_object n word) in
      extern (emptyList grammar_object n) (empty_list grammar_object n) ;;
      for_each (get_list_items lst) (fun word => f n word)
  end.

(** [isinstance(words, string_types)] *)
Definition is_string (words : words_arg) : bool :=
  match words with
  | words_value (PText _) => true
  | words_value (PBytes _) => PY2
  | _ => false
  end.

(** [words.split()] of a string *)
Definition split_words (words : words_arg) : words_arg :=
  match words with
  | words_value (PText s) => words_seq (PText <$> split text_isspace s)
  | words_value (PBytes s) => words_seq (PBytes <$> split bytes_isspace s)
  | _ => words
  end.

(** [for word in words]: the items, or [TypeError] for a value that cannot
    be iterated. *)
Definition iterate (words : words_arg) : result (list pyval) :=
  match words with
  | words_seq ws => Return ws
  | words_value (PText s) =>
      Return ((fun c => PText (String c "")) <$> list_ascii_of_string s)
  | words_value (PBytes s) =>
      Return (if PY2
              then (fun c => PBytes (String c "")) <$> list_ascii_of_string s
              else (fun c => PInt (Z.of_nat (nat_of_ascii c)))
                     <$> list_ascii_of_string s)
  | words_value (PInt _) => Raise (TypeError "'int' object is not iterable")
  | words_value PNone =>
      Raise (TypeError "'NoneType' object is not iterable")
  end.

(** The loop that fills [prepared_words]. *)
Fixpoint prepare (words : list pyval) : result (list pyval) :=
  match words with
  | [] => Return []
  | word :: rest =>
      let r := if PY2 then
                 match word with
                 | PText s =>
                     match encode s with
                     | Return b => Return (PBytes b)
                     | Raise e => Raise e
                     end
                 | _ => Return word
                 end
               else Return word in
      match r with
      | Return word' =>
          match prepare rest with
          | Return rest' => Return (word' :: rest')
          | Raise e => Raise e
          end
      | Raise e => Raise e
      end
  end.

Definition mimic (words : words_arg) : M NatlinkEngine unit :=
  let words := if is_string words then split_words words else words in
  prepared_words <-
    try_except
      (ws <- lift_result (iterate words) ;;
       prepared_words <- lift_result (prepare ws) ;;
       if (length prepared_words =? 0)%nat
       then raise (TypeError "empty list or string")
       else ret prepared_words)
      (fun e =>
         Some (raise (MimicFailure ("Invalid mimic input " +:+ repr_arg words
                                    +:+ ": " +:+ str_exn e +:+ ".")))) ;;
  try_except (native (recognitionMimic prepared_words))
    (fun e =>
       if is_MimicFailed e
       then Some (raise (MimicFailure ("No matching rule found for words "
                                       +:+ repr_words prepared_words +:+ ".")))
       else None).

(** ** Reading the outcome of a run *)

Definition result_of {St A} (x : result A * St * world) : result A := x.1.1.
Definition state_of {St A} (x : result A * St * world) : St := x.1.2.
Definition world_of {St A} (x : result A * St * world) : world := x.2.

(** The calls made between world [w] and a later world [w']. *)
Definition new_events (w w' : world) : list event :=
  drop (length (trace w)) (trace w').

Definition new_logs (w w' : world) : list (level * string) :=
  drop (length (logs w)) (logs w').

Definition accepted (ev : event) : bool :=
  match ev.2 with None => true | Some _ => false end.

Definition is_activate (c : call) : bool :=
  match c with activate _ _ _ => true | _ => false end.

Definition is_load (c : call) : bool :=
  match c with load _ _ _ _ => true | _ => false end.

Definition is_file_call (c : call) : bool :=
  match c with file_open _ _ | file_write _ _ => true | _ => false end.

(** [ev] is a call that asks natlink to activate [rule] of grammar object
    [go] for [window]. *)
Definition activation_of (go : nat) (rule : string) (window : Z)
    (ev : event) : bool :=
  match ev.1 with
  | activate go' rule' window' =>
      Nat.eqb go' go && String.eqb rule' rule && Z.eqb window' window
  | _ => false
  end.

Definition count (p : event -> bool) (evs : list event) : nat :=
  length (List.filter p evs).

Definition activation_calls (go : nat) (rule : string) (window : Z)
    (evs : list event) : nat :=
  count (activation_of go rule window) evs.

Definition accepted_activations (go : nat) (rule : string) (window : Z)
    (evs : list event) : nat :=
  count (fun ev => activation_of go rule window ev && accepted ev) evs.

(** The two phases of [begin_callback]: up to the point where the
    beginning flag is cleared, and the loop over the active rules. *)
Definition begin_phase (module_info : pyval * pyval * Z)
    : M GrammarWrapper unit :=
  modify (set_beginning true) ;;
  let '(word0, word1, word2) := module_info in
  executable <- map_word word0 ;;
  title <- map_word word1 ;;
  let handle := word2 in
  modify (set_hwnd handle) ;;
  try_except (grammar_process_begin executable title handle)
    (fun _ =>
       Some (log EXCEPTION "Exception occurred during process_begin() call.")) ;;
  modify (set_beginning false).

Definition replay_active_rules : M GrammarWrapper unit :=
  self <- get ;;
  for_each (iter_set (active_rules_set self)) activate_rule.

(** What is known of the order of [iter_set]: it goes through the
    elements of the set, each once. *)
Definition iterates_elements : Prop :=
  forall S : gset string, iter_set S ≡ₚ elements S.

Definition is_natConnect (c : call) : bool :=
  match c with natConnect _ => true | _ => false end.

(** The [load] calls among [evs], with their outcomes. *)
Definition loads (evs : list event) : list event :=
  List.filter (fun ev => is_load ev.1) evs.

(** Calls that are neither a [load] nor a [natConnect]. *)
Definition quiet (evs : list event) : Prop :=
  Forall (fun ev => is_load ev.1 = false /\ is_natConnect ev.1 = false) evs.

Definition all_accepted (evs : list event) : Prop :=
  Forall (fun ev => accepted ev = true) evs.

(** The calls with which [_load_grammar] creates the grammar object [go]
    and registers the callbacks of the wrapper, when natlink accepts them. *)
Definition registration (go : nat) : list event :=
  [(GramObj go, None); (setBeginCallback go true, None);
   (setResultsCallback go true, None); (setHypothesisCallback go false, None)].

(** The wrapper [_load_grammar] returns. *)
Definition loaded_wrapper (grammar : Grammar) (go : nat)
    (rule_names : gmap string nat) : GrammarWrapper :=
  set_rule_names (Some rule_names) (GrammarWrapper_init grammar go).

Definition all_results_of (grammar : Grammar) : bool :=
  has_process_recognition_other grammar
  || has_process_recognition_failure grammar.

(** The runs of [_load_grammar grammar] with grammar object [go]: the calls
    it makes and its result. *)
Inductive load_run (grammar : Grammar) (go : nat)
    : list event -> result GrammarWrapper -> Prop :=
| run_registration_raises evs e :
    quiet evs -> ~ all_accepted evs ->
    load_run grammar go evs (Raise e)
| run_compiler_raises e :
    compile_grammar grammar = Raise e ->
    load_run grammar go (registration go) (Raise e)
| run_no_rules compiled :
    compile_grammar grammar = Return (compiled, ∅) ->
    load_run grammar go (registration go)
      (Return (loaded_wrapper grammar go ∅))
| run_loaded compiled rule_names q r :
    compile_grammar grammar = Return (compiled, rule_names) ->
    rule_names <> ∅ ->
    quiet q ->
    (all_accepted q -> r = Return (loaded_wrapper grammar go rule_names)) ->
    load_run grammar go
      (registration go
       ++ (load go compiled (all_results_of grammar) false, None) :: q) r
| run_load_refused compiled rule_names m :
    compile_grammar grammar = Return (compiled, rule_names) ->
    rule_names <> ∅ ->
    m <> not_connected_message ->
    load_run grammar go
      (registration go
       ++ [(load go compiled (all_results_of grammar) false,
            Some (NatError m))])
      (Raise (EngineError (load_failure_message grammar (NatError m))))
| run_load_raises compiled rule_names e :
    compile_grammar grammar = Return (compiled, rule_names) ->
    rule_names <> ∅ ->
    is_NatError e = false ->
    load_run grammar go
      (registration go
       ++ [(load go compiled (all_results_of grammar) false, Some e)])
      (Raise e)
| run_connect_raises compiled rule_names o q e :
    compile_grammar grammar = Return (compiled, rule_names) ->
    rule_names <> ∅ ->
    quiet q -> ~ all_accepted ((natConnect true, o) :: q) ->
    load_run grammar go
      (registration go
       ++ (load go compiled (all_results_of grammar) false,
           Some (NatError not_connected_message))
       :: (natConnect true, o) :: q)
      (Raise e)
| run_retry_loaded compiled rule_names q1 q2 r :
    compile_grammar grammar = Return (compiled, rule_names) ->
    rule_names <> ∅ ->
    quiet q1 -> quiet q2 ->
    (all_accepted q2 -> r = Return (loaded_wrapper grammar go rule_names)) ->
    load_run grammar go
      (registration go
       ++ (load go compiled (all_results_of grammar) false,
           Some (NatError not_connected_message))
       :: (natConnect true, None) :: q1
       ++ (load go compiled (all_results_of grammar) false, None) :: q2)
      r
| run_retry_refused compiled rule_names q1 e :
    compile_grammar grammar = Return (compiled, rule_names) ->
    rule_names <> ∅ ->
    quiet q1 ->
    load_run grammar go
      (registration go
       ++ (load go compiled (all_results_of grammar) false,
           Some (NatError not_connected_message))
       :: (natConnect true, None) :: q1
       ++ [(load go compiled (all_results_of grammar) false, Some e)])
      (Raise (if is_NatError e
              then EngineError (load_failure_message grammar e)
              else e)).

(** A string made of whitespace only (the empty string is one). *)
Definition whitespace_only (isspace : ascii -> bool) (s : string) : bool :=
  forallb isspace (list_ascii_of_string s).

(** The messages of the two [MimicFailure]s. *)
Definition invalid_input_message (words : words_arg) (e : exn) : string :=
  "Invalid mimic input " +:+ repr_arg words +:+ ": " +:+ str_exn e +:+ ".".

Definition no_match_message (prepared_words : list pyval) : string :=
  "No matching rule found for words " +:+ repr_words prepared_words +:+ ".".

(** What the first [try] block of [mimic] computes from [words] (after a
    string has been split): the prepared words, or the exception that the
    block turns into [MimicFailure]. *)
Definition prepared_words_of (words : words_arg) : result (list pyval) :=
  match iterate words with
  | Return ws =>
      match prepare ws with
      | Return prepared_words =>
          if (length prepared_words =? 0)%nat
          then Raise (TypeError "empty list or string")
          else Return prepared_words
      | Raise e => Raise e
      end
  | Raise e => Raise e
  end.

(** The calls of [update_list] for the list [n] of grammar object [go]
    with [items]. *)
Definition list_calls (go : nat) (n : string) (items : list string)
    : list call :=
  emptyList go n :: (appendList go n <$> items).

(** The directory [_retain_audio] works with, and the two records it can
    log. *)
Definition retain_dir_of (engine : NatlinkEngine) : string :=
  default "" (_retain_dir engine).

Definition not_a_directory_warning (dir : string) : level * string :=
  (WARNING, "Audio was not retained because '" +:+ dir
            +:+ "' was not a directory").

Definition retain_exception : level * string :=
  (EXCEPTION, "Exception retaining audio").

(** An outcome that [disconnect] can take: the call returned, or it raised
    the exception that the code around it catches ([NatError] from the
    callback setters of [_unload_grammar], [pywintypes.error] from
    [window.close()]). *)
Definition tolerated (ev : event) : bool :=
  match ev with
  | (_, None) => true
  | (setBeginCallback _ _, Some e)
  | (setResultsCallback _ _, Some e)
  | (setHypothesisCallback _ _, Some e) => is_NatError e
  | (Window_close _, Some e) => is_PyWinError e
  | (_, Some _) => false
  end.

(** The four steps of [disconnect] a call belongs to. *)
Inductive step : Type :=
| unload_grammars | close_window | stop_thread | release_connection.

Definition step_of (c : call) : option step :=
  match c with
  | setBeginCallback _ false | setResultsCallback _ false
  | setHypothesisCallback _ false => Some unload_grammars
  | Window_close _ => Some close_window
  | Timer_stop => Some stop_thread
  | natDisconnect => Some release_connection
  | _ => None
  end.

Definition in_step (s : step) (evs : list event) : Prop :=
  Forall (fun ev => step_of ev.1 = Some s) evs.



(** ** The other methods of [NatlinkEngine] *)

(** A dragonfly rule, as far as this file looks into it: [rule.name]. *)
Record Rule : Type := mkRule {
  Rule_name : string
}.

Definition activate_grammar (grammar : Grammar) : M NatlinkEngine unit :=
  log DEBUG ("Activating grammar " +:+ grammar_name grammar +:+ ".").

Definition deactivate_grammar (grammar : Grammar) : M NatlinkEngine unit :=
  log DEBUG ("Deactivating grammar " +:+ grammar_name grammar +:+ ".").

(** A method of the session of [grammar] called through the engine.  The
    session is one object, held in [_grammar_wrappers] under the identity
    of the grammar: what the method does to it is what the engine holds
    afterwards. *)
Definition on_wrapper {A} (grammar : Grammar) (wrapper : GrammarWrapper)
    (method : M GrammarWrapper A) : M NatlinkEngine A :=
  zoom (fun _ => wrapper)
       (fun wrapper' self =>
          set_grammar_wrappers
            (<[grammar_id grammar := wrapper']> (_grammar_wrappers self)) self)
       method.

(** [NatlinkEngine.activate_rule] and [NatlinkEngine.deactivate_rule] *)
Definition NatlinkEngine_activate_rule (rule : Rule) (grammar : Grammar)
    : M NatlinkEngine unit :=
  log DEBUG ("Activating rule " +:+ Rule_name rule +:+ " in grammar "
             +:+ grammar_name grammar +:+ ".") ;;
  wrapper <- _get_grammar_wrapper grammar ;;
  match wrapper with
  | None => ret tt
  | Some wrapper => on_wrapper grammar wrapper (activate_rule (Rule_name rule))
  end.

Definition NatlinkEngine_deactivate_rule (rule : Rule) (grammar : Grammar)
    : M NatlinkEngine unit :=
  log DEBUG ("Deactivating rule " +:+ Rule_name rule +:+ " in grammar "
             +:+ grammar_name grammar +:+ ".") ;;
  wrapper <- _get_grammar_wrapper grammar ;;
  match wrapper with
  | None => ret tt
  | Some wrapper =>
      on_wrapper grammar wrapper (deactivate_rule (Rule_name rule))
  end.

Definition _do_recognition : M NatlinkEngine unit :=
  native waitForSpeech.

(** What [set_retain_directory] asks of the interpreter and of natlink's
    status module: whether [import natlinkstatus] or [from natlinkcore
    import natlinkstatus] succeeds, [sys.executable], [os.path.isabs],
    [natlinkstatus.NatlinkStatus().getUserDirectory()] ([None] or a path)
    and [status.BaseDirectory]. *)
Variable natlinkstatus_importable : bool.
Variable sys_executable : string.
Variable isabs : string -> bool.
Variable getUserDirectory : result (option string).
Variable BaseDirectory : result string.

(** [s.endswith(suffix)] *)
Definition endswith (s suffix : string) : bool :=
  (String.length suffix <=? String.length s)%nat
  && String.eqb (substring (String.length s - String.length suffix)
                           (String.length suffix) s) suffix.


(** The characters of a Python string. *)
Definition path_of (retain_dir : pyval) : string :=
  match retain_dir with
  | PText s | PBytes s => s
  | _ => ""
  end.

Definition set_retain_directory (retain_dir : pyval)
    : M NatlinkEngine unit :=
  let is_string := is_string (words_value retain_dir) in
  let is_None := match retain_dir with PNone => true | _ => false end in
  if negb (is_None || is_string) then
    raise (EngineError ("Invalid retain_dir: "
                        +:+ repr_arg (words_value retain_dir)))
  else
  retain_dir <-
    (if is_string then
       (* Handle relative paths by using the Natlink user directory or
          base directory. Only do this if running via natspeak.exe. *)
       let retain_dir := path_of retain_dir in
       let running_via_natspeak :=
         endswith sys_executable "natspeak.exe" && natlinkstatus_importable in
       if negb (isabs retain_dir) && running_via_natspeak then
         user_dir <- lift_result getUserDirectory ;;
         (* Use the base dir if user dir isn't set. *)
         dir <- (if truthy user_dir then ret (default "" user_dir)
                 else lift_result BaseDirectory) ;;
         ret (Some (path_join dir retain_dir))
       else ret (Some retain_dir)
     else ret None) ;;
  (* Set the retain directory. *)
  modify (set_retain_dir retain_dir).

(** [NatlinkEngine.__init__] after [EngineBase.__init__], which is not in
    this file, has run on [self]; [natlink_importable] tells whether
    [import natlink] succeeds.  The observer manager, the timer manager and
    the speaker it creates are objects of other files and have no field
    here. *)
Variable natlink_importable : bool.


(** ** Reading more of a run *)

(** What [map_word] makes of a word. *)
Definition decoded (word : pyval) : result pyval :=
  match word with
  | PBytes b =>
      match decode b with
      | Return s => Return (PText s)
      | Raise e => Raise e
      end
  | _ => Return word
  end.

Definition is_text (v : pyval) : bool :=
  match v with PText _ => true | _ => false end.

Definition is_bytes (v : pyval) : bool :=
  match v with PBytes _ => true | _ => false end.

Definition process_begin_exception : level * string :=
  (EXCEPTION, "Exception occurred during process_begin() call.").

(** The calls that clear the callbacks of grammar object [go]. *)
Definition unregistration (go : nat) : list call :=
  [setBeginCallback go false; setResultsCallback go false;
   setHypothesisCallback go false].

Definition unload_failure (grammar : Grammar) (e : exn) : level * string :=
  (EXCEPTION, "Failed to unload grammar " +:+ str_grammar grammar +:+ ": "
              +:+ str_exn e +:+ ".").

(** The words natlink has accepted for a list, in the order of the calls. *)
Definition appended (evs : list event) : list string :=
  omap (fun ev : event =>
          match ev with
          | (appendList _ _ word, None) => Some word
          | _ => None
          end) evs.

(** A word of a sentence: not empty and without whitespace. *)
Definition is_token (t : string) : Prop :=
  t <> "" /\ whitespace_only (fun c => negb (text_isspace c)) t = true.

(** The file names of [_retain_audio] and the record of an utterance. *)
Definition wav_name (w : world) : string :=
  "retain_" +:+ now w +:+ ".wav".

Definition wav_path_of (engine : NatlinkEngine) (w : world) : string :=
  path_join (retain_dir_of engine) (wav_name w).

Definition tsv_path_of (engine : NatlinkEngine) : string :=
  path_join (retain_dir_of engine) "retain.tsv".

Definition retain_record (self : GrammarWrapper) (words : list string)
    (results : Results) (rule_name : string) (w : world)
    : list Byte.byte :=
  list_byte_of_string
    (join tab [wav_name w; audio_length_text (length (wave results));
               grammar_name (grammar self); rule_name; join " " words]
     +:+ newline).

Definition dialog_title : string := "Natlink / Python Subsystem".




Definition invalid_retain_dir (retain_dir : pyval) : string :=
  "Invalid retain_dir: " +:+ repr_arg (words_value retain_dir).

(** Whether [set_retain_directory] takes the code for natspeak.exe. *)
Definition running_via_natspeak : bool :=
  endswith sys_executable "natspeak.exe" && natlinkstatus_importable.

(** What [set_retain_directory] stores for a value, or the exception it
    raises. *)
Definition resolved_retain_dir (retain_dir : pyval)
    : result (option string) :=
  match retain_dir with
  | PNone => Return None
  | _ =>
      if is_string (words_value retain_dir) then
        let path := path_of retain_dir in
        if negb (isabs path) && running_via_natspeak then
          match getUserDirectory with
          | Raise e => Raise e
          | Return user_dir =>
              if truthy user_dir
              then Return (Some (path_join (default "" user_dir) path))
              else match BaseDirectory with
                   | Return base => Return (Some (path_join base path))
                   | Raise e => Raise e
                   end
          end
        else Return (Some path)
      else Raise (EngineError (invalid_retain_dir retain_dir))
  end.


(** ** Concrete collaborators and objects *)

(** natlink and the other collaborators accept every call. *)
Definition env_accept : list event -> call -> option exn :=
  fun _ _ => None.

(** natlink refuses every activation, as it does for a window handle that
    is no longer valid. *)
Definition env_reject_activation : list event -> call -> option exn :=
  fun _ c =>
    match c with
    | activate _ _ _ => Some (NatError "invalid window handle")
    | _ => None
    end.

(** natlink refuses to activate a rule that is active, as long as the rule
    has not been deactivated since. *)
Fixpoint is_active (go : nat) (rule : string) (history : list event) : bool :=
  match history with
  | [] => false
  | ev :: rest =>
      let before := is_active go rule rest in
      match ev with
      | (activate go' rule' _, None) =>
          if Nat.eqb go' go && String.eqb rule' rule then true else before
      | (deactivate go' rule', None) =>
          if Nat.eqb go' go && String.eqb rule' rule then false else before
      | _ => before
      end
  end.

Definition env_natlink : list event -> call -> option exn :=
  fun history c =>
    match c with
    | activate go rule _ =>
        if is_active go rule (rev history)
        then Some (NatError "rule is already active")
        else None
    | _ => None
    end.

Definition decode_latin1 (b : string) : result string := Return b.

Definition world0 : world :=
  mkWorld [] [] 0 ∅ ∅ ∅ [] 4242 "2024-01-01_12-00-00_000000".

(** A grammar whose [process_begin] asks for rule "b" and drops rule "a". *)
Definition grammar_ab : Grammar :=
  mkGrammar 1 "demo"
    (fun _ _ _ => [req_activate "b"; req_deactivate "a"]) false false.

Definition grammar_quiet : Grammar :=
  mkGrammar 2 "quiet" (fun _ _ _ => []) false false.

Definition wrapper_a (g : Grammar) : GrammarWrapper :=
  mkGrammarWrapper g 7 (Some {["a" := 1%nat]}) {["a"]} 0 false.

Definition module_info0 : pyval * pyval * Z :=
  (PBytes "notepad.exe", PText "Untitled", 1234).

(** An engine that has never been connected, and one with a loaded
    grammar and the keep-alive thread running. *)
Definition engine_new : NatlinkEngine := mkNatlinkEngine None None ∅.

Definition engine_loaded : NatlinkEngine :=
  mkNatlinkEngine (Some (mkTimerThread false (Some 3%nat))) (Some "retained")
    {[2%nat := wrapper_a grammar_quiet]}.

Definition compile_nothing (g : Grammar) : result (string * gmap string nat) :=
  Return ("", ∅).

Definition compile_hello (g : Grammar) : result (string * gmap string nat) :=
  Return ("hello-grammar", {["hello" := 1%nat]}).

Definition str_grammar_demo (g : Grammar) : string :=
  "Grammar(" +:+ grammar_name g +:+ ")".

(** natlink is not connected and cannot be: every [load] fails. *)
Definition env_never_connected : list event -> call -> option exn :=
  fun _ c =>
    match c with
    | load _ _ _ _ =>
        Some (NatError
                "Calling GramObj.load is not allowed before calling natConnect")
    | _ => None
    end.

(** natlink refuses the grammar. *)
Definition env_bad_grammar : list event -> call -> option exn :=
  fun _ c =>
    match c with
    | load _ _ _ _ => Some (NatError "bad grammar format")
    | _ => None
    end.

(** natlink finds no rule for the words. *)
Definition env_no_match : list event -> call -> option exn :=
  fun _ c =>
    match c with
    | recognitionMimic _ => Some (MimicFailed "mimic failed")
    | _ => None
    end.

(** The disk is full: writing a file fails. *)
Definition env_disk_full : list event -> call -> option exn :=
  fun _ c =>
    match c with
    | file_write _ _ => Some (OtherError "No space left on device")
    | _ => None
    end.

Definition colours : ListBase := mkListBase "colours" ["red"; "green"].

(** The native list "colours" holds an old word, the directory "retained"
    exists and the dialog of natlink is on the desktop. *)
Definition world1 : world :=
  mkWorld [] [] 10 {[(7%nat, "colours") := ["mauve"]]} {["retained"]} ∅
    [mkWindow 99 "Natlink / Python Subsystem" true 4242] 4242
    "2024-01-01_12-00-00_000000".

Definition results_empty : Results := mkResults [].

Definition results_audio : Results := mkResults [Byte.x01; Byte.x02].

Definition path_join_demo (dir file : string) : string :=
  dir +:+ "/" +:+ file.

Definition audio_length_demo (n : nat) : string := "0.0".

Definition title_is (title : string) (win : Window) : bool :=
  String.eqb (win_title win) title.

Definition base_returns (state : pyval) (words : list string)
    (results : Results) (dispatch_other : bool) (rule : string)
    : M GrammarWrapper unit :=
  ret tt.

Definition repr_arg_demo (words : words_arg) : string := "<words>".
Definition repr_words_demo (words : list pyval) : string := "<words>".
Definition encode_latin1 (s : string) : result string := Return s.


(** A codec that refuses the bytes that are not ASCII. *)
Definition decode_ascii (b : string) : result string :=
  if forallb (fun c => (nat_of_ascii c <? 128)%nat) (list_ascii_of_string b)
  then Return b
  else Raise (OtherError "'ascii' codec can't decode byte").

(** A grammar whose [process_begin] drops a rule that is not active. *)
Definition grammar_drops : Grammar :=
  mkGrammar 3 "drops" (fun _ _ _ => [req_deactivate "z"; req_activate "b"])
    false false.

Definition rule_b : Rule := mkRule "b".

(** natlink refuses the word "green". *)
Definition env_no_green : list event -> call -> option exn :=
  fun _ c =>
    match c with
    | appendList _ _ "green" => Some (NatError "unknown word")
    | _ => None
    end.

(** [os.path.isabs] for paths that start with a slash. *)
Definition isabs_posix (path : string) : bool :=
  match path with
  | String "/" _ => true
  | _ => false
  end.

(** The directory "/audio" exists and holds a [retain.tsv]. *)
Definition world2 : world :=
  mkWorld [] [] 10 ∅ {["/audio"]} {["/audio/retain.tsv" := [Byte.x61]]}
    [] 4242 "2024-01-01_12-00-00_000000".

(** A grammar whose [process_begin] asks for rule "b" and keeps rule "a". *)
Definition grammar_adds_b : Grammar :=
  mkGrammar 4 "adds" (fun _ _ _ => [req_activate "b"]) false false.

(** Two orders in which a set of names can be gone through. *)
Definition iter_sorted (S : gset string) : list string := elements S.

Definition iter_reversed (S : gset string) : list string :=
  reverse (elements S).

(** Rule "a" is active in natlink for the previous window. *)
Definition world_a_active : world :=
  set_trace [(activate 7 "a" 0, None)] world0.

(** * Properties *)

(** ** The active set *)

Lemma add_member (x : string) (S : gset string) : x ∈ {[x]} ∪ S.
Proof. apply elem_of_union_l. now apply elem_of_singleton_2. Qed.

Lemma add_present (x : string) (S : gset string) : x ∈ S -> {[x]} ∪ S = S.
Proof. intros H. apply subseteq_union_1_L. now apply singleton_subseteq_l. Qed.

Lemma add_twice (x : string) (S : gset string) :
  {[x]} ∪ ({[x]} ∪ S) = {[x]} ∪ S.
Proof. apply add_present, add_member. Qed.

Lemma remove_absent (x : string) (S : gset string) : x ∉ S ∖ {[x]}.
Proof.
  rewrite elem_of_difference. intros [_ H]. apply H.
  now apply elem_of_singleton_2.
Qed.

Lemma in_head {A} (x : A) (l : list A) : x ∈ x :: l.
Proof. apply elem_of_cons. now left. Qed.

Lemma in_tail {A} (x y : A) (l : list A) : x ∈ l -> x ∈ y :: l.
Proof. intros H. apply elem_of_cons. now right. Qed.

(** ** Runs only add to the record of calls *)

Lemma new_events_app (w w' : world) (evs : list event) :
  trace w' = (trace w ++ evs)%list -> new_events w w' = evs.
Proof.
  intros H. unfold new_events. rewrite H. apply drop_app_length.
Qed.

Lemma new_events_same (w : world) : new_events w w = [].
Proof. apply new_events_app. symmetry. apply app_nil_r. Qed.

Lemma bind_run {St A B} (m : M St A) (k : A -> M St B) (s : St) (w : world) :
  bind m k s w =
    match m s w with
    | (Return a, s', w') => k a s' w'
    | (Raise e, s', w') => (Raise e, s', w')
    end.
Proof. reflexivity. Qed.

Lemma for_each_cons {St X} (x : X) (xs : list X) (body : X -> M St unit)
    (s : St) (w : world) :
  for_each (x :: xs) body s w =
    match body x s w with
    | (Return _, s', w') => for_each xs body s' w'
    | (Raise e, s', w') => (Raise e, s', w')
    end.
Proof. reflexivity. Qed.

Lemma extern_run {St} (c : call) (effect : world -> world) (s : St) (w : world) :
  extern (St:=St) c effect s w =
    match env (trace w) c with
    | None => (Return tt, s, effect (set_trace (trace w ++ [(c, None)])%list w))
    | Some e => (Raise e, s, set_trace (trace w ++ [(c, Some e)])%list w)
    end.
Proof. unfold extern. destruct (env (trace w) c); reflexivity. Qed.

Lemma native_run {St} (c : call) (s : St) (w : world) :
  native (St:=St) c s w =
    (match env (trace w) c with None => Return tt | Some e => Raise e end,
     s, set_trace (trace w ++ [(c, env (trace w) c)])%list w).
Proof. unfold native. rewrite extern_run. destruct (env (trace w) c); reflexivity. Qed.

(** ** Stepping through a method *)

Lemma bind_native {St B} (c : call) (k : unit -> M St B) (s : St) (w : world) :
  bind (native c) k s w =
    match env (trace w) c with
    | None => k tt s (set_trace (trace w ++ [(c, None)])%list w)
    | Some e => (Raise e, s, set_trace (trace w ++ [(c, Some e)])%list w)
    end.
Proof. rewrite bind_run, native_run. now destruct (env (trace w) c). Qed.

Lemma bind_extern {St B} (c : call) (effect : world -> world)
    (k : unit -> M St B) (s : St) (w : world) :
  bind (extern c effect) k s w =
    match env (trace w) c with
    | None => k tt s (effect (set_trace (trace w ++ [(c, None)])%list w))
    | Some e => (Raise e, s, set_trace (trace w ++ [(c, Some e)])%list w)
    end.
Proof. rewrite bind_run, extern_run. now destruct (env (trace w) c). Qed.

Lemma bind_log {St B} (l : level) (msg : string) (k : unit -> M St B)
    (s : St) (w : world) :
  bind (log l msg) k s w = k tt s (set_logs (logs w ++ [(l, msg)])%list w).
Proof. reflexivity. Qed.

Lemma bind_get {St B} (k : St -> M St B) (s : St) (w : world) :
  bind get k s w = k s s w.
Proof. reflexivity. Qed.

Lemma bind_get_world {St B} (k : world -> M St B) (s : St) (w : world) :
  bind get_world k s w = k w s w.
Proof. reflexivity. Qed.

Lemma bind_modify {St B} (f : St -> St) (k : unit -> M St B)
    (s : St) (w : world) :
  bind (modify f) k s w = k tt (f s) w.
Proof. reflexivity. Qed.

Lemma bind_ret {St A B} (a : A) (k : A -> M St B) (s : St) (w : world) :
  bind (ret a) k s w = k a s w.
Proof. reflexivity. Qed.

Lemma bind_raise {St A B} (e : exn) (k : A -> M St B) (s : St) (w : world) :
  bind (raise e) k s w = (Raise e, s, w).
Proof. reflexivity. Qed.

Lemma ret_run {St A} (a : A) (s : St) (w : world) :
  ret a s w = (Return a, s, w).
Proof. reflexivity. Qed.

Lemma raise_run {St A} (e : exn) (s : St) (w : world) :
  raise (A:=A) e s w = (Raise e, s, w).
Proof. reflexivity. Qed.

Lemma bind_bind {St A B C} (m : M St A) (k : A -> M St B) (k' : B -> M St C)
    (s : St) (w : world) :
  bind (bind m k) k' s w = bind m (fun a => bind (k a) k') s w.
Proof. unfold bind. now destruct (m s w) as [[[a|e] s'] w']. Qed.

Lemma try_except_run {St A} (body : M St A) (handler : exn -> option (M St A))
    (s : St) (w : world) :
  try_except body handler s w =
    match body s w with
    | (Return a, s', w') => (Return a, s', w')
    | (Raise e, s', w') =>
        match handler e with
        | Some h => h s' w'
        | None => (Raise e, s', w')
        end
    end.
Proof. reflexivity. Qed.

(** ** [deactivate_rule] *)

Lemma deactivate_rule_run (rule_name : string) (self : GrammarWrapper)
    (w : world) :
  let c := deactivate (grammar_object self) rule_name in
  deactivate_rule rule_name self w =
    if bool_decide (rule_name ∈ active_rules_set self)
    then (match env (trace w) c with None => Return tt | Some e => Raise e end,
          set_active_rules_set (active_rules_set self ∖ {[rule_name]}) self,
          set_trace (trace w ++ [(c, env (trace w) c)])%list w)
    else (Raise (KeyError rule_name), self, w).
Proof.
  cbv zeta. unfold deactivate_rule, bind, get, put, raise.
  case_bool_decide; [rewrite native_run|]; reflexivity.
Qed.

(** C8.  [deactivate_rule] on a name of the active set removes the name
    and then makes one [deactivate] call on the grammar object, whose
    outcome is the outcome of the method; on a name that is not in the
    active set it raises [KeyError], makes no call and leaves the wrapper
    and the world as they were. *)
Theorem deactivate_rule_removes_then_deactivates
    (rule_name : string) (self : GrammarWrapper) (w : world) :
  let run := deactivate_rule rule_name self w in
  let c := deactivate (grammar_object self) rule_name in
  (rule_name ∈ active_rules_set self ->
     state_of run =
       set_active_rules_set (active_rules_set self ∖ {[rule_name]}) self
     /\ (rule_name ∉ active_rules_set (state_of run))
     /\ new_events w (world_of run) = [(c, env (trace w) c)]
     /\ world_of run = set_trace (trace w ++ [(c, env (trace w) c)])%list w
     /\ result_of run =
          match env (trace w) c with None => Return tt | Some e => Raise e end)
  /\ (rule_name ∉ active_rules_set self ->
        run = (Raise (KeyError rule_name), self, w)).
Proof.
  cbv zeta. rewrite deactivate_rule_run. split; intros Hin.
  - rewrite (bool_decide_eq_true_2 _ Hin). cbn.
    repeat split; try reflexivity.
    + apply remove_absent.
    + now apply new_events_app.
  - now rewrite (bool_decide_eq_false_2 _ Hin).
Qed.

(** ** [activate_rule] *)

Lemma activate_rule_beginning (rule_name : string) (self : GrammarWrapper)
    (w : world) :
  beginning self = true ->
  activate_rule rule_name self w =
    (Return tt,
     set_active_rules_set ({[rule_name]} ∪ active_rules_set self) self, w).
Proof.
  intros Hb. unfold activate_rule, bind, modify, get, ret. cbn.
  now rewrite Hb.
Qed.

Lemma activate_rule_state (rule_name : string) (self : GrammarWrapper)
    (w : world) :
  state_of (activate_rule rule_name self w) =
    set_active_rules_set ({[rule_name]} ∪ active_rules_set self) self.
Proof.
  unfold activate_rule, bind, modify, get, ret, try_except. cbn.
  destruct (beginning self); [reflexivity|].
  rewrite native_run. cbn.
  destruct (env (trace w) _) as [e|]; reflexivity.
Qed.

(** Outside the begin phase: one [activate] call; when it raises, the
    method raises [AttributeError]. *)
Lemma activate_rule_run (rule_name : string) (self : GrammarWrapper)
    (w : world) :
  beginning self = false ->
  let c := activate (grammar_object self) rule_name (hwnd self) in
  activate_rule rule_name self w =
    (match env (trace w) c with
     | None => Return tt
     | Some _ => Raise no_natlink_attribute
     end,
     set_active_rules_set ({[rule_name]} ∪ active_rules_set self) self,
     set_trace (trace w ++ [(c, env (trace w) c)])%list w).
Proof.
  intros Hb. cbv zeta.
  unfold activate_rule, bind, modify, get, ret, try_except.
  cbn [beginning set_active_rules_set grammar_object hwnd].
  rewrite Hb, native_run.
  destruct (env (trace w) _) as [e|]; reflexivity.
Qed.

(** C9.  Whatever natlink answers and however the method ends, also when
    the activation raises and the recovery is not reached, the name is in
    the active set after [activate_rule], which has grown by exactly that
    name; calling [activate_rule] again with the same name leaves the set
    as it is. *)
Theorem activate_rule_records_name
    (rule_name : string) (self : GrammarWrapper) (w : world) :
  let run := activate_rule rule_name self w in
  let again := activate_rule rule_name (state_of run) (world_of run) in
  rule_name ∈ active_rules_set (state_of run)
  /\ active_rules_set (state_of run) = {[rule_name]} ∪ active_rules_set self
  /\ active_rules_set (state_of again) = active_rules_set (state_of run).
Proof.
  cbv zeta. rewrite !activate_rule_state. cbn.
  split; [apply add_member|]. split; [reflexivity | apply add_twice].
Qed.

(** ** Counting calls *)

Lemma count_app (p : event -> bool) (a b : list event) :
  count p (a ++ b) = (count p a + count p b)%nat.
Proof. unfold count. now rewrite List.filter_app, length_app. Qed.

Lemma count_cons (p : event -> bool) (ev : event) (evs : list event) :
  count p (ev :: evs) = ((if p ev then 1 else 0) + count p evs)%nat.
Proof. unfold count. cbn. now destruct (p ev). Qed.

Lemma set_active_rules_set_same (self : GrammarWrapper) (S : gset string) :
  S = active_rules_set self -> set_active_rules_set S self = self.
Proof. intros ->. now destruct self. Qed.

Lemma activation_of_call (go : nat) (rule rule' : string) (h : Z)
    (o : option exn) :
  activation_of go rule h (activate go rule' h, o) = bool_decide (rule' = rule).
Proof.
  unfold activation_of. cbn [fst]. rewrite Nat.eqb_refl, Z.eqb_refl.
  cbn [andb]. rewrite andb_true_r.
  destruct (String.eqb_spec rule' rule) as [->|Hne].
  - now rewrite bool_decide_eq_true_2.
  - now rewrite bool_decide_eq_false_2.
Qed.

(** The [activate] calls for names without repetition: one call for each
    of the names, none for another name. *)
Lemma calls_of_names (go : nat) (h : Z) (rule : string) (names : list string)
    (evs : list event) :
  evs.*1 = (fun r => activate go r h) <$> names ->
  NoDup names ->
  activation_calls go rule h evs =
    (if bool_decide (rule ∈ names) then 1 else 0)%nat.
Proof.
  unfold activation_calls. revert evs.
  induction names as [|x names IH]; intros evs Hevs Hnd.
  { destruct evs; [reflexivity | discriminate]. }
  destruct evs as [|[c o] evs]; [discriminate|].
  injection Hevs as -> Hevs. apply NoDup_cons in Hnd as [Hx Hnd].
  rewrite count_cons, activation_of_call, (IH evs Hevs Hnd).
  destruct (decide (x = rule)) as [->|Hne].
  - rewrite (bool_decide_eq_true_2 (rule = rule)) by reflexivity.
    rewrite (bool_decide_eq_false_2 _ Hx).
    now rewrite (bool_decide_eq_true_2 _ (in_head rule names)).
  - rewrite (bool_decide_eq_false_2 (x = rule)) by exact Hne.
    cbn [Nat.add]. do 2 case_bool_decide; try reflexivity.
    + exfalso. match goal with H : ¬ _ |- _ => apply H end. now apply in_tail.
    + exfalso. match goal with H : _ ∈ x :: _ |- _ =>
        apply elem_of_cons in H as [H|H] end; [now apply Hne | contradiction].
Qed.

Lemma calls_of_asked (go : nat) (h : Z) (rule : string)
    (names : list string) :
  NoDup names ->
  activation_calls go rule h
    ((fun r => (activate go r h, @None exn)) <$> names) =
    (if bool_decide (rule ∈ names) then 1 else 0)%nat.
Proof.
  apply calls_of_names. now rewrite <- list_fmap_compose.
Qed.

Lemma accepted_among_calls (go : nat) (h : Z) (rule : string)
    (evs : list event) :
  (accepted_activations go rule h evs <= activation_calls go rule h evs)%nat.
Proof.
  unfold accepted_activations, activation_calls.
  induction evs as [|ev evs IH]; [reflexivity|].
  rewrite !count_cons. destruct (activation_of go rule h ev); cbn [andb].
  - destruct (accepted ev); lia.
  - lia.
Qed.

Lemma accepted_calls (go : nat) (h : Z) (rule : string)
    (names : list string) :
  accepted_activations go rule h
    ((fun r => (activate go r h, None)) <$> names) =
  activation_calls go rule h ((fun r => (activate go r h, None)) <$> names).
Proof.
  unfold accepted_activations, activation_calls.
  induction names as [|x names IH]; [reflexivity|].
  rewrite fmap_cons, !count_cons, IH.
  now destruct (activation_of go rule h _).
Qed.

(** The loop of [begin_callback], outside the begin phase, over names that
    are all in the active set: either every [activate] call is accepted,
    or the loop ends with [AttributeError] at the first call that natlink
    refuses, and the names after it are not asked. *)
Lemma replay_loop_trace (l : list string) (self : GrammarWrapper) (w : world) :
  beginning self = false ->
  (forall rule, rule ∈ l -> rule ∈ active_rules_set self) ->
  let run := for_each l activate_rule self w in
  let call := fun rule => activate (grammar_object self) rule (hwnd self) in
  let asks := fun rule => (call rule, @None exn) in
  state_of run = self
  /\ exists evs,
       world_of run = set_trace (trace w ++ evs)%list w
       /\ ((result_of run = Return tt /\ evs = asks <$> l)
           \/ (exists asked rule e rest,
                 l = (asked ++ rule :: rest)%list
                 /\ evs = ((asks <$> asked) ++ [(call rule, Some e)])%list
                 /\ env (trace w ++ (asks <$> asked))%list (call rule) = Some e
                 /\ result_of run = Raise no_natlink_attribute)).
Proof.
  intros Hb. revert w. induction l as [|x l IH]; intros w Hsub; cbv zeta.
  { cbn. split; [reflexivity|]. exists []. split.
    - rewrite app_nil_r. now destruct w.
    - left. now split. }
  assert (Hxin : x ∈ active_rules_set self) by (apply Hsub; apply in_head).
  assert (Hsub' : forall rule, rule ∈ l -> rule ∈ active_rules_set self)
    by (intros; apply Hsub; now apply in_tail).
  rewrite for_each_cons, (activate_rule_run x self w Hb). cbv zeta.
  rewrite (set_active_rules_set_same self) by now apply add_present.
  destruct (env (trace w) _) as [e|] eqn:Henv.
  { unfold state_of, world_of, result_of. cbn [fst snd].
    split; [reflexivity|]. eexists [_]. split; [reflexivity|].
    right. exists [], x, e, l. cbn [fmap list_fmap app].
    rewrite app_nil_r. now repeat split. }
  destruct (IH (set_trace (trace w ++ [(activate (grammar_object self) x
                                          (hwnd self), None)])%list w) Hsub')
    as (Hs & evs & Hw & Hcases).
  cbv zeta in Hs, Hw, Hcases. split; [exact Hs|].
  exists ((activate (grammar_object self) x (hwnd self), None) :: evs).
  split.
  { rewrite Hw. cbn [trace set_trace]. now rewrite <- app_assoc. }
  destruct Hcases as [[Hr ->]|(asked & rule & e & rest & -> & -> & He & Hr)].
  - left. split; [exact Hr | reflexivity].
  - right. exists (x :: asked), rule, e, rest.
    split; [reflexivity|]. split; [reflexivity|]. split; [|exact Hr].
    cbn [trace set_trace] in He. rewrite <- app_assoc in He. exact He.
Qed.

(** ** [begin_callback] *)

(** While the beginning flag is set, a request of the handler keeps the
    flag, the window handle and the grammar object, and makes no
    [activate] call. *)
Lemma do_request_beginning (r : request) (self : GrammarWrapper) (w : world) :
  beginning self = true ->
  let run := do_request r self w in
  beginning (state_of run) = true
  /\ hwnd (state_of run) = hwnd self
  /\ grammar_object (state_of run) = grammar_object self
  /\ grammar (state_of run) = grammar self
  /\ exists evs,
       world_of run = set_trace (trace w ++ evs)%list w
       /\ Forall (fun ev => is_activate ev.1 = false) evs.
Proof.
  intros Hb. cbv zeta. destruct r as [rule|rule|e]; cbn [do_request].
  - rewrite activate_rule_beginning by exact Hb. cbn.
    repeat split; try assumption. exists []. split; [|constructor].
    rewrite app_nil_r. now destruct w.
  - rewrite deactivate_rule_run. case_bool_decide; cbn.
    + repeat split; try assumption. eexists [_]. split; [reflexivity|].
      constructor; [reflexivity | constructor].
    + repeat split; try assumption.
      exists []. split; [|constructor]. rewrite app_nil_r. now destruct w.
  - unfold raise. cbn. repeat split; try assumption.
    exists []. split; [|constructor]. rewrite app_nil_r. now destruct w.
Qed.

Lemma requests_beginning (rs : list request) (self : GrammarWrapper)
    (w : world) :
  beginning self = true ->
  let run := for_each rs do_request self w in
  beginning (state_of run) = true
  /\ hwnd (state_of run) = hwnd self
  /\ grammar_object (state_of run) = grammar_object self
  /\ grammar (state_of run) = grammar self
  /\ exists evs,
       world_of run = set_trace (trace w ++ evs)%list w
       /\ Forall (fun ev => is_activate ev.1 = false) evs.
Proof.
  revert self w. induction rs as [|r rs IH]; intros self w Hb; cbv zeta.
  { cbn. repeat split; try assumption. exists []. split; [|constructor].
    rewrite app_nil_r. now destruct w. }
  rewrite for_each_cons.
  destruct (do_request_beginning r self w Hb)
    as (Hb1 & Hh1 & Hg1 & Hgr1 & evs1 & Hw1 & Hno1).
  destruct (do_request r self w) as [[r1 s1] w1].
  unfold state_of, world_of in Hb1, Hh1, Hg1, Hgr1, Hw1.
  cbn in Hb1, Hh1, Hg1, Hgr1, Hw1.
  destruct r1 as [[]|e].
  2:{ cbn. repeat split; try assumption. now exists evs1. }
  destruct (IH s1 w1 Hb1) as (Hb2 & Hh2 & Hg2 & Hgr2 & evs2 & Hw2 & Hno2).
  repeat split; try congruence.
  exists (evs1 ++ evs2)%list. split.
  - rewrite Hw2, Hw1. cbn. now rewrite app_assoc.
  - apply Forall_app. now split.
Qed.

(** [begin_callback] is its begin phase followed by the loop over the
    active rules. *)
Lemma begin_callback_phases (module_info : pyval * pyval * Z)
    (self : GrammarWrapper) (w : world) :
  begin_callback module_info self w =
    match begin_phase module_info self w with
    | (Return _, self1, w1) => replay_active_rules self1 w1
    | (Raise e, self1, w1) => (Raise e, self1, w1)
    end.
Proof.
  destruct module_info as [[word0 word1] handle].
  unfold begin_callback, begin_phase, replay_active_rules, bind, modify.
  repeat match goal with
         | |- context [match ?x with _ => _ end] => destruct x
         end; reflexivity.
Qed.

Lemma map_word_run {St} (word : pyval) (s : St) (w : world) :
  exists r, map_word word s w = (r, s, w).
Proof.
  destruct word as [t|b|z|]; cbn; try (eexists; reflexivity).
  unfold bind, lift_result. destruct (decode b); eexists; reflexivity.
Qed.

(** The begin phase: the handler has run with the flag set, without any
    [activate] call, and when the phase ends normally the flag is cleared
    and the window handle is the one of [module_info]. *)
Lemma begin_phase_spec (module_info : pyval * pyval * Z)
    (self : GrammarWrapper) (w : world) :
  let run := begin_phase module_info self w in
  grammar_object (state_of run) = grammar_object self
  /\ (exists evs,
        trace (world_of run) = (trace w ++ evs)%list
        /\ Forall (fun ev => is_activate ev.1 = false) evs)
  /\ (result_of run = Return tt ->
      beginning (state_of run) = false
      /\ hwnd (state_of run) = module_info.2).
Proof.
  destruct module_info as [[word0 word1] handle]. cbv zeta.
  remember (begin_phase (word0, word1, handle) self w) as run eqn:Hrun.
  unfold begin_phase in Hrun. rewrite bind_run in Hrun.
  unfold modify at 1 in Hrun. cbv beta iota in Hrun.
  destruct (map_word_run word0 (set_beginning true self) w) as [r0 H0].
  rewrite bind_run, H0 in Hrun.
  destruct r0 as [executable|e]; cbv beta iota in Hrun.
  2:{ subst run. unfold result_of, state_of, world_of. cbn.
      split; [reflexivity|]. split; [|discriminate].
      exists []. split; [now rewrite app_nil_r | constructor]. }
  destruct (map_word_run word1 (set_beginning true self) w) as [r1 H1].
  rewrite bind_run, H1 in Hrun.
  destruct r1 as [title|e]; cbv beta iota in Hrun.
  2:{ subst run. unfold result_of, state_of, world_of. cbn.
      split; [reflexivity|]. split; [|discriminate].
      exists []. split; [now rewrite app_nil_r | constructor]. }
  rewrite bind_run in Hrun. unfold modify at 1 in Hrun.
  cbv beta iota in Hrun. rewrite bind_run in Hrun.
  unfold try_except, grammar_process_begin in Hrun. rewrite bind_run in Hrun.
  unfold get at 1 in Hrun. cbv beta iota in Hrun.
  set (self0 := set_hwnd handle (set_beginning true self)) in Hrun.
  destruct (requests_beginning
              (process_begin (grammar self0) executable title handle)
              self0 w eq_refl)
    as (Hb & Hh & Hg & Hgr & evs & Hw & Hno).
  destruct (for_each _ do_request self0 w) as [[r s1] w1].
  unfold state_of, world_of in Hb, Hh, Hg, Hgr, Hw. cbn in Hb, Hh, Hg, Hgr, Hw.
  unfold result_of, state_of, world_of.
  destruct r as [[]|e]; cbn in Hrun; subst run; cbn.
  - split; [exact Hg|]. split; [|intros _; split; [reflexivity | exact Hh]].
    exists evs. split; [now rewrite Hw | exact Hno].
  - split; [exact Hg|]. split; [|intros _; split; [reflexivity | exact Hh]].
    exists evs. split; [now rewrite Hw | exact Hno].
Qed.

(** C1.  A call to [activate_rule] made while the beginning flag is set
    only records the name in the active set and makes no call into
    natlink; the begin phase of [begin_callback] makes no [activate] call.
    After the handler has completed and the flag is cleared,
    [begin_callback] goes through the names then in the active set, in
    the order [order] of Python's iteration, whatever that order is: the
    calls of this replay are [activate] calls for the new window handle
    and for names of the set, at most one for each name, and there is
    never a [deactivate].  When [begin_callback] returns, these are the
    accepted calls for all the names in that order, one accepted
    activation for each name of the set; it returns when natlink accepts
    every [activate].  When natlink refuses one, [begin_callback] ends
    there with [AttributeError], from the [except self.natlink.NatError]
    clause of [activate_rule]: the refused rule has no accepted
    activation, and the names after it in the order are not asked at
    all. *)
Theorem begin_callback_defers_then_replays
    (module_info : pyval * pyval * Z) (self : GrammarWrapper) (w : world) :
  iterates_elements ->
  let handle := module_info.2 in
  let go := grammar_object self in
  let phase := begin_phase module_info self w in
  let run := begin_callback module_info self w in
  let active := active_rules_set (state_of phase) in
  let order := iter_set active in
  let replay := new_events (world_of phase) (world_of run) in
  let asks := fun rule : string => (activate go rule handle, @None exn) in
  (forall rule_name self' w',
     beginning self' = true ->
     activate_rule rule_name self' w' =
       (Return tt,
        set_active_rules_set ({[rule_name]} ∪ active_rules_set self') self',
        w'))
  /\ (forall ev, ev ∈ new_events w (world_of phase) -> is_activate ev.1 = false)
  /\ (result_of phase = Return tt ->
      trace (world_of run) = (trace (world_of phase) ++ replay)%list
      /\ state_of run = state_of phase
      /\ (forall ev, ev ∈ replay ->
            exists rule, rule ∈ active /\ ev.1 = activate go rule handle)
      /\ (forall rule,
            (accepted_activations go rule handle replay
             <= activation_calls go rule handle replay <= 1)%nat)
      /\ (result_of run = Return tt ->
          replay = asks <$> order
          /\ forall rule, rule ∈ active ->
               accepted_activations go rule handle replay = 1%nat)
      /\ (forall e, result_of run = Raise e ->
          e = no_natlink_attribute
          /\ exists asked rule refusal rest,
               order = (asked ++ rule :: rest)%list
               /\ replay = ((asks <$> asked)
                            ++ [(activate go rule handle, Some refusal)])%list
               /\ env (trace (world_of phase) ++ (asks <$> asked))%list
                      (activate go rule handle) = Some refusal
               /\ accepted_activations go rule handle replay = 0%nat
               /\ forall rule', rule' ∈ rest ->
                    activation_calls go rule' handle replay = 0%nat)
      /\ ((forall h c, is_activate c = true -> env h c = None) ->
          result_of run = Return tt)).
Proof.
  intros Hiter. cbv zeta. split; [exact activate_rule_beginning|].
  destruct (begin_phase_spec module_info self w)
    as (Hgo & (evs0 & Ht0 & Hno0) & Hret).
  cbv zeta in Hgo, Ht0, Hret. split.
  { intros ev Hev. rewrite (new_events_app _ _ _ Ht0) in Hev.
    rewrite Forall_forall in Hno0. now apply Hno0. }
  intros Hphase. rewrite begin_callback_phases.
  destruct (begin_phase module_info self w) as [[r1 self1] w1].
  unfold result_of, state_of, world_of in Hgo, Ht0, Hret, Hphase.
  cbn in Hgo, Ht0, Hret, Hphase. subst r1.
  destruct (Hret eq_refl) as [Hb Hh].
  change (replay_active_rules self1 w1)
    with (for_each (iter_set (active_rules_set self1)) activate_rule self1 w1).
  assert (Hin : forall rule,
            rule ∈ iter_set (active_rules_set self1)
            <-> rule ∈ active_rules_set self1).
  { intros rule. rewrite (Hiter (active_rules_set self1)).
    apply elem_of_elements. }
  assert (Hnd : NoDup (iter_set (active_rules_set self1))).
  { rewrite (Hiter (active_rules_set self1)). apply NoDup_elements. }
  destruct (replay_loop_trace (iter_set (active_rules_set self1)) self1 w1 Hb)
    as (Hs & evs & Hw & Hcases).
  { intros rule Hrule. now apply Hin. }
  cbv zeta in Hs, Hw, Hcases.
  destruct (for_each _ activate_rule self1 w1) as [[r2 self2] w2].
  unfold result_of, state_of, world_of in Hs, Hw, Hcases |- *.
  cbn [fst snd] in Hs, Hw, Hcases |- *. subst self2 w2.
  rewrite (new_events_app w1 (set_trace (trace w1 ++ evs) w1) evs eq_refl).
  rewrite Hgo, Hh in *.
  set (order := iter_set (active_rules_set self1)) in *.
  set (asks := fun rule : string =>
                 (activate (grammar_object self) rule module_info.2,
                  @None exn)) in *.
  assert (Hnames : exists names,
            names `prefix_of` order
            /\ evs.*1 = (fun r => activate (grammar_object self) r
                                    module_info.2) <$> names).
  { destruct Hcases as [[_ ->]|(asked & rule & e & rest & Ho & -> & _ & _)].
    - exists order. split; [reflexivity|].
      unfold asks. rewrite <- list_fmap_compose. reflexivity.
    - exists (asked ++ [rule])%list. split.
      + rewrite Ho. exists rest. now rewrite <- app_assoc.
      + unfold asks. rewrite fmap_app, !fmap_app, <- !list_fmap_compose.
        reflexivity. }
  destruct Hnames as (names & [rest0 Hpre] & Hcalls).
  assert (Hnd' : NoDup names).
  { rewrite Hpre in Hnd. now apply NoDup_app in Hnd as (Hnd & _). }
  split; [reflexivity|]. split; [reflexivity|].
  split; [|split; [|split; [|split]]].
  - intros ev Hev.
    assert (Hc : ev.1 ∈ evs.*1) by (apply list_elem_of_fmap; now exists ev).
    rewrite Hcalls in Hc. apply list_elem_of_fmap in Hc as (rule & -> & Hrule).
    exists rule. split; [|reflexivity]. apply Hin. rewrite Hpre.
    apply elem_of_app. now left.
  - intros rule. split; [apply accepted_among_calls|].
    rewrite (calls_of_names _ _ rule names evs Hcalls Hnd').
    case_bool_decide; lia.
  - intros Hr.
    destruct Hcases as [[_ Hevs]|(asked & rule & e & rest & _ & _ & _ & Hr')];
      [|congruence].
    split; [exact Hevs|]. intros rule Hrule. rewrite Hevs. unfold asks.
    rewrite accepted_calls.
    rewrite (calls_of_asked _ _ rule order Hnd).
    rewrite bool_decide_eq_true_2; [reflexivity | now apply Hin].
  - intros e Hr.
    destruct Hcases as [[Hr' _]|(asked & rule & e0 & rest & Ho & Hevs & Henv & Hr')];
      [congruence|].
    split; [congruence|]. exists asked, rule, e0, rest.
    split; [exact Ho|]. split; [exact Hevs|]. split; [exact Henv|].
    rewrite Ho in Hnd. apply NoDup_app in Hnd as (Hnda & Hdisj & Hndr).
    apply NoDup_cons in Hndr as [Hrule Hndr]. split.
    + rewrite Hevs. unfold accepted_activations. rewrite count_app.
      fold (accepted_activations (grammar_object self) rule module_info.2
              (asks <$> asked)).
      unfold asks. rewrite accepted_calls.
      rewrite (calls_of_asked _ _ rule asked Hnda).
      rewrite bool_decide_eq_false_2.
      * unfold count. cbn. now rewrite andb_false_r.
      * intros Hx. apply (Hdisj rule Hx). apply in_head.
    + intros rule' Hrule'.
      rewrite (calls_of_names _ _ rule' (asked ++ [rule]) evs).
      * rewrite bool_decide_eq_false_2; [reflexivity|].
        intros Hx. apply elem_of_app in Hx as [Hx|Hx].
        -- apply (Hdisj rule' Hx). now apply in_tail.
        -- apply list_elem_of_singleton in Hx. subst rule'. contradiction.
      * rewrite Hevs. unfold asks.
        rewrite !fmap_app, <- !list_fmap_compose. reflexivity.
      * apply NoDup_app. split; [exact Hnda|]. split; [|apply NoDup_singleton].
        intros x Hxa Hx. apply list_elem_of_singleton in Hx. subst x.
        apply (Hdisj rule Hxa). apply in_head.
  - intros Henv.
    destruct Hcases as [[Hr' _]|(asked & rule & e0 & rest & _ & _ & Hrefused & _)];
      [exact Hr'|].
    rewrite Henv in Hrefused by reflexivity. discriminate.
Qed.

Lemma loads_app (a b : list event) : loads (a ++ b) = (loads a ++ loads b)%list.
Proof. apply List.filter_app. Qed.

Lemma loads_quiet (evs : list event) : quiet evs -> loads evs = [].
Proof.
  induction 1 as [|ev evs [Hev _] _ IH]; [reflexivity|].
  unfold loads in *. cbn. now rewrite Hev.
Qed.

(** ** The threading fix and [connect] *)

Lemma apply_threading_fix_events (self : NatlinkEngine) (w : world) :
  let run := apply_threading_fix self w in
  exists evs,
    trace (world_of run) = (trace w ++ evs)%list
    /\ quiet evs
    /\ (Forall (fun ev => accepted ev = true) evs -> result_of run = Return tt).
Proof.
  cbv zeta. unfold apply_threading_fix. rewrite bind_get.
  destruct (_timer_thread self) as [t|].
  { exists []. cbn. split; [now rewrite app_nil_r|]. split; [constructor|].
    reflexivity. }
  unfold zoom, TimerThread_start. rewrite bind_get. cbn [_timer TimerThread_init].
  rewrite bind_bind. unfold engine_create_timer.
  rewrite bind_bind, bind_get_world, bind_bind, bind_extern.
  destruct (env (trace w) create_timer) as [e|] eqn:E1.
  { eexists [_]. unfold world_of, result_of. cbn. split; [reflexivity|].
    split; [repeat constructor|]. intros H. inversion H as [|? ? Hacc _].
    discriminate Hacc. }
  rewrite bind_ret, bind_modify, native_run.
  eexists [_; _]. unfold world_of, result_of. cbn.
  split; [rewrite <- app_assoc; reflexivity|].
  split; [repeat constructor|].
  intros H. inversion H as [|? ? _ H']. inversion H' as [|? ? Hacc _].
  unfold accepted in Hacc. cbn in Hacc.
  now destruct (env _ Thread_start).
Qed.

Lemma connect_events (self : NatlinkEngine) (w : world) :
  let run := connect self w in
  exists o q,
    trace (world_of run) = (trace w ++ (natConnect true, o) :: q)%list
    /\ quiet q
    /\ (all_accepted q -> o = None -> result_of run = Return tt)
    /\ (result_of run = Return tt -> o = None).
Proof.
  cbv zeta. unfold connect. rewrite bind_native.
  destruct (env (trace w) (natConnect true)) as [e|] eqn:E.
  { exists (Some e), []. unfold world_of, result_of. cbn.
    split; [reflexivity|]. split; [constructor|].
    split; discriminate. }
  destruct (apply_threading_fix_events self
              (set_trace (trace w ++ [(natConnect true, None)]) w))
    as (q & Ht & Hq & Hret).
  exists None, q. cbv zeta in Ht, Hret. rewrite Ht. cbn [trace set_trace].
  split; [now rewrite <- app_assoc|]. split; [exact Hq|].
  split; [intros Hall _; now apply Hret | reflexivity].
Qed.

(** ** [_load_grammar] *)

Local Ltac events_simpl :=
  unfold new_events, world_of, result_of;
  cbn [fst snd trace logs next_object set_trace set_logs set_next_object];
  rewrite <- ?app_assoc; rewrite ?drop_app_length; cbn [app].

Local Ltac quiet_events :=
  repeat (constructor; [split; reflexivity|]); constructor.

Lemma not_all_accepted_raised (evs : list event) (c : call) (e : exn) :
  ~ all_accepted (evs ++ [(c, Some e)]).
Proof.
  intros H. apply Forall_app in H as [_ H]. inversion H as [|? ? Hacc _].
  discriminate Hacc.
Qed.

(** Every run of [_load_grammar] has one of the shapes of [load_run]. *)
Lemma load_grammar_run (grammar : Grammar) (self : NatlinkEngine) (w : world) :
  let run := _load_grammar grammar self w in
  load_run grammar (next_object w) (new_events w (world_of run)) (result_of run).
Proof.
  cbv zeta. unfold _load_grammar. rewrite bind_log.
  unfold natlink_GramObj.
  rewrite bind_bind, bind_get_world, bind_bind, bind_extern.
  cbn [next_object set_logs].
  set (go := next_object w).
  destruct (env _ (GramObj go)) as [e|] .
  { events_simpl. apply run_registration_raises; [quiet_events|].
    apply (not_all_accepted_raised []). }
  rewrite bind_ret, bind_native.
  destruct (env _ (setBeginCallback go true)) as [e|] .
  { events_simpl. apply run_registration_raises; [quiet_events|].
    apply (not_all_accepted_raised [_]). }
  rewrite bind_native.
  destruct (env _ (setResultsCallback go true)) as [e|] .
  { events_simpl. apply run_registration_raises; [quiet_events|].
    apply (not_all_accepted_raised [_; _]). }
  rewrite bind_native.
  destruct (env _ (setHypothesisCallback go false)) as [e|] .
  { events_simpl. apply run_registration_raises; [quiet_events|].
    apply (not_all_accepted_raised [_; _; _]). }
  destruct (compile_grammar grammar) as [[compiled rule_names]|e] eqn:Hc;
    cbn [lift_result].
  2:{ rewrite bind_raise. events_simpl. now apply run_compiler_raises. }
  rewrite bind_ret.
  fold (all_results_of grammar).
  case_bool_decide as Hempty.
  { subst rule_names. unfold ret. events_simpl.
    now apply (run_no_rules grammar go compiled). }
  rewrite bind_run, try_except_run, bind_native.
  match goal with
  | |- context [env ?h (load go compiled ?a ?b)] =>
      destruct (env h (load go compiled a b)) as [e|]
  end.
  2:{ (* the first load is accepted *)
      rewrite ret_run. cbv beta iota. rewrite bind_ret, bind_run.
      match goal with
      | |- context [apply_threading_fix ?s ?w1] =>
          destruct (apply_threading_fix_events s w1) as (q & Ht & Hq & Hret);
          destruct (apply_threading_fix s w1) as [[r1 s1] w1']
      end.
      unfold world_of, result_of in Ht, Hret.
      cbn [fst snd trace set_trace set_logs set_next_object] in Ht, Hret.
      destruct r1 as [[]|e]; unfold ret; unfold new_events, world_of, result_of;
        cbn [fst snd]; rewrite Ht; rewrite <- ?app_assoc;
        rewrite drop_app_length; cbn [app];
        (apply (run_loaded grammar go compiled rule_names q);
          [exact Hc | exact Hempty | exact Hq
          | intros Hall; first [reflexivity | discriminate (Hret Hall)]]). }
  destruct (is_NatError e) eqn:Hnat.
  2:{ events_simpl. now apply (run_load_raises grammar go compiled rule_names). }
  destruct e as [m| | | | | | | |]; try discriminate Hnat. cbn [str_exn].
  destruct (String.eqb m not_connected_message) eqn:Hm.
  2:{ rewrite bind_log. unfold raise. events_simpl.
      apply (run_load_refused grammar go compiled rule_names); auto.
      now apply String.eqb_neq. }
  apply String.eqb_eq in Hm. subst m.
  rewrite ret_run. cbv beta iota. rewrite bind_bind, bind_run.
  match goal with
  | |- context [connect ?s ?w1] =>
      destruct (connect_events s w1) as (o & q1 & Ht & Hq1 & Hok & Hnone);
      destruct (connect s w1) as [[r1 s1] w1']
  end.
  unfold world_of, result_of in Ht, Hok, Hnone.
  cbn [fst snd trace set_trace set_logs set_next_object] in Ht, Hok, Hnone.
  destruct r1 as [[]|e].
  2:{ unfold new_events, world_of, result_of. cbn [fst snd]. rewrite Ht.
      rewrite <- ?app_assoc. rewrite drop_app_length. cbn [app].
      apply (run_connect_raises grammar go compiled rule_names); auto.
      intros Hall. inversion Hall as [|? ? Hacc Hall'].
      unfold accepted in Hacc. cbn in Hacc.
      destruct o; [discriminate|]. now specialize (Hok Hall' eq_refl). }
  rewrite (Hnone eq_refl) in Ht.
  rewrite bind_run, try_except_run, native_run.
  match goal with
  | |- context [env ?h (load go compiled ?a ?b)] =>
      destruct (env h (load go compiled a b)) as [e|]
  end.
  { (* the retry is refused *)
    pose proof (run_retry_refused grammar go compiled rule_names q1 e) as H.
    destruct (is_NatError e) eqn:Hnat2.
    - rewrite bind_log. unfold raise.
      unfold new_events, world_of, result_of.
      cbn [fst snd trace set_trace set_logs]. rewrite Ht.
      rewrite <- ?app_assoc. rewrite drop_app_length. cbn [app].
      apply H; auto.
    - unfold new_events, world_of, result_of.
      cbn [fst snd trace set_trace set_logs]. rewrite Ht.
      rewrite <- ?app_assoc. rewrite drop_app_length. cbn [app].
      apply H; auto. }
  rewrite bind_run.
  match goal with
  | |- context [apply_threading_fix ?s ?w2] =>
      destruct (apply_threading_fix_events s w2) as (q2 & Ht2 & Hq2 & Hret2);
      destruct (apply_threading_fix s w2) as [[r2 s2] w2']
  end.
  unfold world_of, result_of in Ht2, Hret2.
  cbn [fst snd trace set_trace set_logs] in Ht2, Hret2.
  rewrite Ht in Ht2.
  destruct r2 as [[]|e]; unfold ret; unfold new_events, world_of, result_of;
    cbn [fst snd]; rewrite Ht2; rewrite <- ?app_assoc;
    rewrite drop_app_length; cbn [app]; rewrite <- ?app_assoc; cbn [app];
    (apply (run_retry_loaded grammar go compiled rule_names q1 q2);
      [exact Hc | exact Hempty | exact Hq1 | exact Hq2
      | intros Hall; first [reflexivity | discriminate (Hret2 Hall)]]).
Qed.

Lemma loads_registration (go : nat) (evs : list event) :
  loads (registration go ++ evs) = loads evs.
Proof. reflexivity. Qed.

Lemma loads_registration_only (go : nat) : loads (registration go) = [].
Proof. reflexivity. Qed.

Lemma loads_cons_load (go : nat) (data : string) (a h : bool)
    (o : option exn) (evs : list event) :
  loads ((load go data a h, o) :: evs) = (load go data a h, o) :: loads evs.
Proof. reflexivity. Qed.

Lemma loads_cons_connect (b : bool) (o : option exn) (evs : list event) :
  loads ((natConnect b, o) :: evs) = loads evs.
Proof. reflexivity. Qed.

Lemma quiet_accepted (evs : list event) :
  quiet evs ->
  (forall ev, ev ∈ evs -> is_load ev.1 = false -> accepted ev = true) ->
  all_accepted evs.
Proof.
  unfold quiet, all_accepted. rewrite !Forall_forall.
  intros Hq H ev Hin. apply H; [exact Hin|]. now apply Hq.
Qed.

Lemma registration_no_connect (go : nat) (ev : event) :
  ev ∈ registration go -> is_natConnect ev.1 = false.
Proof.
  unfold registration. rewrite !elem_of_cons, elem_of_nil.
  intros [->|[->|[->|[->|[]]]]]; reflexivity.
Qed.

(** C2.  When the compiler yields no rule names, [_load_grammar] never
    calls [load]; it can only return the wrapper of the grammar, bound to
    the grammar object it has created, with the empty mapping, after the
    four calls that create the object and register the callbacks; and it
    does return it when natlink accepts these calls. *)
Theorem load_grammar_without_rules
    (grammar : Grammar) (compiled : string) (self : NatlinkEngine) (w : world) :
  compile_grammar grammar = Return (compiled, ∅) ->
  let run := _load_grammar grammar self w in
  let evs := new_events w (world_of run) in
  let go := next_object w in
  loads evs = []
  /\ (forall ev, ev ∈ evs -> is_load ev.1 = false)
  /\ (forall wrapper, result_of run = Return wrapper ->
        wrapper = loaded_wrapper grammar go ∅ /\ evs = registration go)
  /\ (all_accepted evs ->
        result_of run = Return (loaded_wrapper grammar go ∅)).
Proof.
  intros Hc. cbv zeta.
  pose proof (load_grammar_run grammar self w) as Hrun. cbv zeta in Hrun.
  remember (new_events w (world_of (_load_grammar grammar self w))) as evs.
  remember (result_of (_load_grammar grammar self w)) as r.
  assert (Hshape : (quiet evs /\ ~ all_accepted evs /\ exists e, r = Raise e)
                   \/ (evs = registration (next_object w)
                       /\ r = Return (loaded_wrapper grammar (next_object w) ∅))).
  { inversion Hrun; subst; try congruence.
    - left. eauto.
    - right. split; reflexivity. }
  clear Hrun Heqevs Heqr.
  assert (Hloads : loads evs = []).
  { destruct Hshape as [(Hq & _)|(-> & _)]; [now apply loads_quiet | reflexivity]. }
  split; [exact Hloads|]. split.
  { intros ev Hin. destruct (is_load ev.1) eqn:Hl; [|reflexivity].
    assert (Hin' : ev ∈ loads evs).
    { unfold loads. apply list_elem_of_In, List.filter_In.
      split; [now apply list_elem_of_In | exact Hl]. }
    rewrite Hloads in Hin'. now apply elem_of_nil in Hin'. }
  split.
  - intros wrapper Hr.
    destruct Hshape as [(_ & _ & e & He)|(-> & Hr')]; [congruence|].
    split; [congruence | reflexivity].
  - intros Hall.
    destruct Hshape as [(_ & Hn & _)|(_ & Hr')]; [contradiction | exact Hr'].
Qed.

(** C3.  [_load_grammar] calls [load] at most twice.  When the first
    [load] fails with a [NatError] other than the one that tells natlink is
    not connected, there is no second [load] and no [natConnect], and
    [EngineError] is raised with the message that names the grammar and
    the error.  When it fails with that error, [natConnect(True)] is the
    next call; any further [load] is the same call again, made after the
    connection, and exactly one is made when no call other than a [load]
    raises; when this retry fails with a [NatError], [EngineError] is
    raised with the message that names the grammar and the new error. *)
Theorem load_grammar_connects_and_retries_once
    (grammar : Grammar) (self : NatlinkEngine) (w : world) :
  let run := _load_grammar grammar self w in
  let evs := new_events w (world_of run) in
  (length (loads evs) <= 2)%nat
  /\ (forall c m rest,
        loads evs = (c, Some (NatError m)) :: rest ->
        m <> not_connected_message ->
        rest = []
        /\ (forall ev, ev ∈ evs -> is_natConnect ev.1 = false)
        /\ result_of run =
             Raise (EngineError (load_failure_message grammar (NatError m))))
  /\ (forall c rest,
        loads evs = (c, Some (NatError not_connected_message)) :: rest ->
        (exists before o after,
           evs = (before
                  ++ (c, Some (NatError not_connected_message))
                     :: (natConnect true, o) :: after)%list
           /\ loads before = [] /\ loads after = rest)
        /\ (rest = [] \/ exists o2, rest = [(c, o2)])
        /\ ((forall ev, ev ∈ evs -> is_load ev.1 = false -> accepted ev = true) ->
            exists o2, rest = [(c, o2)])
        /\ (forall m2,
              rest = [(c, Some (NatError m2))] ->
              result_of run =
                Raise (EngineError
                         (load_failure_message grammar (NatError m2))))).
Proof.
  cbv zeta.
  pose proof (load_grammar_run grammar self w) as Hrun. cbv zeta in Hrun.
  remember (new_events w (world_of (_load_grammar grammar self w))) as evs.
  remember (result_of (_load_grammar grammar self w)) as r.
  clear Heqevs Heqr.
  inversion Hrun as
    [ evs0 e Hq Hn
    | e Hc
    | compiled Hc
    | compiled rule_names q r0 Hc Hne Hq Hr
    | compiled rule_names m Hc Hne Hm
    | compiled rule_names e Hc Hne He
    | compiled rule_names o q e Hc Hne Hq Hn
    | compiled rule_names q1 q2 r0 Hc Hne Hq1 Hq2 Hr
    | compiled rule_names q1 e Hc Hne Hq1 ]; subst; clear Hrun;
    rewrite ?loads_registration, ?loads_registration_only, ?loads_cons_load,
      ?loads_cons_connect, ?loads_app, ?loads_cons_load, ?loads_quiet
      by assumption;
    cbn [app length loads List.filter fst is_load].
  - (* a registration call raises *)
    split; [lia|]. split; intros; discriminate.
  - split; [lia|]. split; intros; discriminate.
  - split; [lia|]. split; intros; discriminate.
  - (* the first load is accepted *)
    split; [lia|]. split; intros; discriminate.
  - (* refused for another reason *)
    split; [lia|]. split.
    + intros c m' rest [= <- <- <-] _.
      split; [reflexivity|]. split; [|reflexivity].
      intros ev Hin. apply elem_of_app in Hin as [Hin|Hin].
      * now apply (registration_no_connect (next_object w)).
      * apply list_elem_of_singleton in Hin as ->. reflexivity.
    + intros c rest [= <- Hm' <-]. now contradiction Hm.
  - (* the first load raises another exception *)
    split; [lia|]. split.
    + intros c m rest [= <- -> <-]. discriminate He.
    + intros c rest [= <- -> <-]. discriminate He.
  - (* connect raises *)
    split; [lia|]. split.
    + intros c m rest [= <- <- <-] Hm. now contradiction Hm.
    + intros c rest [= <- <-]. split.
      { exists (registration (next_object w)), o, q.
        split; [reflexivity|]. split; [reflexivity | now apply loads_quiet]. }
      split; [now left|]. split; [|intros m2; discriminate].
      intros Hacc. exfalso. apply Hn. constructor.
      * apply Hacc; [|reflexivity].
        apply elem_of_app. right. apply in_tail, in_head.
      * apply quiet_accepted; [exact Hq|]. intros ev Hin. apply Hacc.
        apply elem_of_app. right. now apply in_tail, in_tail.
  - (* the retry is accepted *)
    split; [lia|]. split.
    + intros c m rest [= <- <- <-] Hm. now contradiction Hm.
    + intros c rest [= <- <-]. split.
      { eexists (registration (next_object w)), None, _.
        split; [reflexivity|]. split; [reflexivity|].
        rewrite loads_app, loads_cons_load, !loads_quiet by assumption.
        reflexivity. }
      split; [right; eauto|]. split; [eauto|]. intros m2. discriminate.
  - (* the retry is refused *)
    split; [lia|]. split.
    + intros c m rest [= <- <- <-] Hm. now contradiction Hm.
    + intros c rest [= <- <-]. split.
      { eexists (registration (next_object w)), None, _.
        split; [reflexivity|]. split; [reflexivity|].
        rewrite loads_app, loads_cons_load, !loads_quiet by assumption.
        reflexivity. }
      split; [right; eauto|]. split; [eauto|].
      intros m2 [= ->]. reflexivity.
Qed.

(** ** [str.split] *)

Lemma split_from_whitespace (isspace : ascii -> bool) (cur s : string) :
  whitespace_only isspace s = true ->
  split_from isspace cur s = if String.eqb cur "" then [] else [cur].
Proof.
  unfold whitespace_only. revert cur.
  induction s as [|c s IH]; intros cur H; [reflexivity|].
  cbn in H. apply andb_true_iff in H as [Hc Hs]. cbn. rewrite Hc.
  rewrite (IH "" Hs). cbn. now destruct (String.eqb cur "").
Qed.

Lemma split_whitespace (isspace : ascii -> bool) (s : string) :
  whitespace_only isspace s = true -> split isspace s = [].
Proof. intros H. unfold split. now rewrite split_from_whitespace. Qed.

Lemma whitespace_only_snoc (p : ascii -> bool) (cur : string) (c : ascii) :
  whitespace_only p (cur +:+ String c "") = whitespace_only p cur && p c.
Proof.
  unfold whitespace_only. induction cur as [|d cur IH].
  - change ("" +:+ String c "") with (String c ""). cbn. now destruct (p c).
  - change (String d cur +:+ String c "") with (String d (cur +:+ String c "")).
    cbn. rewrite IH.
    now destruct (p d), (forallb p (list_ascii_of_string cur)).
Qed.

(** The tokens of [split] are not empty and hold no whitespace. *)
Lemma split_from_tokens (isspace : ascii -> bool) (cur s t : string) :
  whitespace_only (fun c => negb (isspace c)) cur = true ->
  t ∈ split_from isspace cur s ->
  t <> "" /\ whitespace_only (fun c => negb (isspace c)) t = true.
Proof.
  revert cur. induction s as [|c s IH]; intros cur Hcur Hin; cbn in Hin.
  - destruct (String.eqb cur "") eqn:E; [now apply elem_of_nil in Hin|].
    apply list_elem_of_singleton in Hin as ->.
    split; [|exact Hcur]. intros ->. discriminate E.
  - destruct (isspace c) eqn:Hc.
    + destruct (String.eqb cur "") eqn:E.
      * now apply (IH "").
      * apply elem_of_cons in Hin as [->|Hin]; [|now apply (IH "")].
        split; [|exact Hcur]. intros ->. discriminate E.
    + apply (IH (cur +:+ String c "")); [|exact Hin].
      now rewrite whitespace_only_snoc, Hcur, Hc.
Qed.

Lemma split_tokens (isspace : ascii -> bool) (s t : string) :
  t ∈ split isspace s ->
  t <> "" /\ whitespace_only (fun c => negb (isspace c)) t = true.
Proof. now apply split_from_tokens. Qed.

(** ** [mimic] *)

Lemma mimic_run (words : words_arg) (self : NatlinkEngine) (w : world) :
  let words' := if is_string words then split_words words else words in
  mimic words self w =
    match prepared_words_of words' with
    | Raise e =>
        (Raise (MimicFailure (invalid_input_message words' e)), self, w)
    | Return prepared_words =>
        let c := recognitionMimic prepared_words in
        (match env (trace w) c with
         | None => Return tt
         | Some e =>
             if is_MimicFailed e
             then Raise (MimicFailure (no_match_message prepared_words))
             else Raise e
         end,
         self, set_trace (trace w ++ [(c, env (trace w) c)])%list w)
    end.
Proof.
  cbv zeta. unfold mimic, prepared_words_of.
  set (words' := if is_string words then split_words words else words).
  rewrite bind_run, try_except_run, bind_run.
  destruct (iterate words') as [ws|e]; cbn [lift_result];
    [|rewrite raise_run; reflexivity].
  rewrite ret_run, bind_run.
  destruct (prepare ws) as [p|e]; cbn [lift_result];
    [|rewrite raise_run; reflexivity].
  rewrite ret_run.
  destruct (length p =? 0)%nat; [rewrite raise_run; reflexivity|].
  rewrite ret_run, try_except_run, native_run.
  destruct (env (trace w) (recognitionMimic p)) as [e|]; [|reflexivity].
  now destruct (is_MimicFailed e).
Qed.

Lemma prepare_py3 (ws : list pyval) : PY2 = false -> prepare ws = Return ws.
Proof.
  intros H. induction ws as [|word ws IH]; [reflexivity|].
  cbn. now rewrite H, IH.
Qed.

Lemma split_from_nothing (isspace : ascii -> bool) (cur s : string) :
  split_from isspace cur s = [] ->
  cur = "" /\ whitespace_only isspace s = true.
Proof.
  unfold whitespace_only. revert cur.
  induction s as [|c s IH]; intros cur H; cbn in H.
  - destruct (String.eqb_spec cur ""); [now split | discriminate].
  - cbn. destruct (isspace c) eqn:Hc.
    + destruct (String.eqb_spec cur ""); [|discriminate].
      split; [assumption|]. now apply (IH "").
    + destruct (IH _ H) as [Hcur _]. now destruct cur.
Qed.

Lemma split_nothing (isspace : ascii -> bool) (s : string) :
  split isspace s = [] <-> whitespace_only isspace s = true.
Proof.
  split; [|apply split_whitespace].
  intros H. now apply (split_from_nothing isspace "" s).
Qed.

Lemma prepare_bytes (bs : list string) :
  prepare (PBytes <$> bs) = Return (PBytes <$> bs).
Proof.
  induction bs as [|b bs IH]; [reflexivity|].
  cbn. rewrite IH. now destruct PY2.
Qed.

Lemma prepare_text_py2 (ts bs : list string) :
  PY2 = true ->
  Forall2 (fun t b => encode t = Return b) ts bs ->
  prepare (PText <$> ts) = Return (PBytes <$> bs).
Proof.
  intros Hpy H. induction H as [|t b ts bs Ht _ IH]; [reflexivity|].
  cbn. now rewrite Hpy, Ht, IH.
Qed.

Lemma prepare_text_fails (ts : list string) (t : string) (e : exn) :
  PY2 = true -> t ∈ ts -> encode t = Raise e ->
  exists e', prepare (PText <$> ts) = Raise e'.
Proof.
  intros Hpy Hin Ht. induction ts as [|t' ts IH];
    [now apply elem_of_nil in Hin|].
  cbn. rewrite Hpy. destruct (encode t') as [b|e'] eqn:Ht'; [|eauto].
  apply elem_of_cons in Hin as [->|Hin]; [congruence|].
  destruct (IH Hin) as [e' ->]. eauto.
Qed.

(** C4.  [mimic] raises [MimicFailure], without calling natlink, for a
    string made of whitespace only (the empty string among them), text or
    Python 2 byte string, for the empty sequence and for any input that
    yields no words or cannot be prepared; otherwise it makes one call,
    [recognitionMimic] on the prepared words, and raises [MimicFailure]
    when natlink answers [MimicFailed].  A string with a character that is
    not whitespace is split into its words, which are not empty and hold
    no whitespace, and the one call of [mimic] is [recognitionMimic] on
    these words in their order: as they are on Python 3, the words of a
    byte string as they are on Python 2, and the words of a text encoded
    one by one on Python 2, where a word that cannot be encoded gives
    [MimicFailure]. *)
Theorem mimic_fails_without_words_or_match
    (self : NatlinkEngine) (w : world) :
  let empty :=
    MimicFailure (invalid_input_message (words_seq [])
                    (TypeError "empty list or string")) in
  let calls := fun words => new_events w (world_of (mimic words self w)) in
  let asked := fun prepared_words =>
    [(recognitionMimic prepared_words,
      env (trace w) (recognitionMimic prepared_words))] in
  (forall s, whitespace_only text_isspace s = true ->
     mimic (words_value (PText s)) self w = (Raise empty, self, w))
  /\ mimic (words_value (PText "")) self w = (Raise empty, self, w)
  /\ mimic (words_seq []) self w = (Raise empty, self, w)
  /\ (forall words e,
        prepared_words_of (if is_string words then split_words words
                           else words) = Raise e ->
        exists msg, mimic words self w = (Raise (MimicFailure msg), self, w))
  /\ (forall words prepared_words,
        prepared_words_of (if is_string words then split_words words
                           else words) = Return prepared_words ->
        let run := mimic words self w in
        let c := recognitionMimic prepared_words in
        prepared_words <> []
        /\ new_events w (world_of run) = [(c, env (trace w) c)]
        /\ (forall m, env (trace w) c = Some (MimicFailed m) ->
              result_of run =
                Raise (MimicFailure (no_match_message prepared_words)))
        /\ (env (trace w) c = None -> result_of run = Return tt))
  /\ (forall s,
        PY2 = false ->
        split text_isspace s <> [] ->
        prepared_words_of (split_words (words_value (PText s))) =
          Return (PText <$> split text_isspace s))
  /\ (forall s, PY2 = true -> whitespace_only bytes_isspace s = true ->
        mimic (words_value (PBytes s)) self w = (Raise empty, self, w))
  /\ (forall isspace s,
        (whitespace_only isspace s = false -> split isspace s <> [])
        /\ forall t, t ∈ split isspace s ->
             t <> "" /\ whitespace_only (fun c => negb (isspace c)) t = true)
  /\ (forall s, PY2 = false -> whitespace_only text_isspace s = false ->
        calls (words_value (PText s)) = asked (PText <$> split text_isspace s))
  /\ (forall s, PY2 = true -> whitespace_only bytes_isspace s = false ->
        calls (words_value (PBytes s)) =
          asked (PBytes <$> split bytes_isspace s))
  /\ (forall s bs, PY2 = true -> whitespace_only text_isspace s = false ->
        Forall2 (fun t b => encode t = Return b) (split text_isspace s) bs ->
        calls (words_value (PText s)) = asked (PBytes <$> bs))
  /\ (forall s t e, PY2 = true -> t ∈ split text_isspace s ->
        encode t = Raise e ->
        exists msg,
          mimic (words_value (PText s)) self w =
            (Raise (MimicFailure msg), self, w)).
Proof.
  cbv zeta.
  assert (Hspace : forall s, whitespace_only text_isspace s = true ->
            mimic (words_value (PText s)) self w =
              (Raise (MimicFailure (invalid_input_message (words_seq [])
                                      (TypeError "empty list or string"))),
               self, w)).
  { intros s Hs. rewrite mimic_run. cbn [is_string split_words].
    now rewrite (split_whitespace _ _ Hs). }
  assert (Hsome : forall isspace s,
            whitespace_only isspace s = false -> split isspace s <> []).
  { intros isspace s Hs Hnil. apply split_nothing in Hnil. congruence. }
  assert (Hcall : forall words prepared_words,
            prepared_words_of (if is_string words then split_words words
                               else words) = Return prepared_words ->
            new_events w (world_of (mimic words self w)) =
              [(recognitionMimic prepared_words,
                env (trace w) (recognitionMimic prepared_words))]).
  { intros words p Hp. rewrite mimic_run. cbv zeta. rewrite Hp.
    now apply new_events_app. }
  split; [exact Hspace|]. split; [now apply Hspace|].
  split; [now rewrite mimic_run|].
  split; [|split; [|split; [|split; [|split; [|split; [|split; [|split]]]]]]].
  - intros words e He. rewrite mimic_run. cbv zeta. rewrite He. eauto.
  - intros words p Hp. cbv zeta. split.
    { intros ->. unfold prepared_words_of in Hp.
      destruct (iterate _) as [ws|]; [|discriminate].
      destruct (prepare ws) as [[|x p]|]; discriminate. }
    split; [now apply Hcall|]. rewrite mimic_run. cbv zeta. rewrite Hp.
    unfold result_of. cbn. split; [intros m ->; reflexivity | now intros ->].
  - intros s Hpy Hne. cbn [split_words]. unfold prepared_words_of.
    cbn [iterate]. rewrite (prepare_py3 _ Hpy).
    destruct (split text_isspace s) as [|t ts]; [now contradiction Hne|].
    reflexivity.
  - intros s Hpy Hs. rewrite mimic_run. cbn [is_string split_words].
    rewrite Hpy. now rewrite (split_whitespace _ _ Hs).
  - intros isspace s. split; [apply Hsome | apply split_tokens].
  - intros s Hpy Hs. apply Hcall. cbn [is_string split_words].
    unfold prepared_words_of. cbn [iterate]. rewrite (prepare_py3 _ Hpy).
    pose proof (Hsome _ _ Hs) as Hne.
    destruct (split text_isspace s) as [|t ts]; [now contradiction Hne|].
    reflexivity.
  - intros s Hpy Hs. apply Hcall. cbn [is_string split_words]. rewrite Hpy.
    unfold prepared_words_of. cbn [iterate]. rewrite prepare_bytes.
    pose proof (Hsome _ _ Hs) as Hne.
    destruct (split bytes_isspace s) as [|t ts]; [now contradiction Hne|].
    reflexivity.
  - intros s bs Hpy Hs Henc. apply Hcall. cbn [is_string split_words].
    unfold prepared_words_of. cbn [iterate].
    rewrite (prepare_text_py2 _ _ Hpy Henc).
    pose proof (Hsome _ _ Hs) as Hne.
    destruct Henc as [|t b ts bs' _ _]; [now contradiction Hne|].
    reflexivity.
  - intros s t e Hpy Hin Ht. rewrite mimic_run. cbn [is_string split_words].
    unfold prepared_words_of. cbn [iterate].
    destruct (prepare_text_fails _ t e Hpy Hin Ht) as [e' ->]. eauto.
Qed.

(** ** [update_list] *)

Lemma append_loop (go : nat) (n : string) (items acc : list string)
    (self : NatlinkEngine) (w : world) :
  native_lists w !! (go, n) = Some acc ->
  let run := for_each items
               (fun word => extern (appendList go n word)
                              (append_word go n word)) self w in
  state_of run = self
  /\ (exists evs,
        trace (world_of run) = (trace w ++ evs)%list
        /\ evs.*1 `prefix_of` (appendList go n <$> items)
        /\ (all_accepted evs -> result_of run = Return tt)
        /\ (result_of run = Return tt ->
            evs = (fun word => (appendList go n word, None)) <$> items))
  /\ (result_of run = Return tt ->
      native_lists (world_of run) =
        <[(go, n) := (acc ++ items)%list]> (native_lists w)).
Proof.
  revert acc w. induction items as [|word items IH]; intros acc w Hacc; cbv zeta.
  { unfold state_of, world_of, result_of. cbn.
    split; [reflexivity|]. split.
    - exists []. rewrite app_nil_r. split; [reflexivity|].
      split; [apply prefix_nil|]. split; reflexivity.
    - intros _. rewrite app_nil_r. symmetry. now apply insert_id. }
  rewrite for_each_cons, extern_run.
  destruct (env (trace w) (appendList go n word)) as [e|].
  { unfold state_of, world_of, result_of. cbn. split; [reflexivity|].
    split; [|discriminate].
    eexists [_]. split; [reflexivity|].
    split; [cbn; apply prefix_cons, prefix_nil|].
    split; [|discriminate].
    intros H. inversion H as [|? ? Hev _]. discriminate Hev. }
  set (w1 := append_word go n word
               (set_trace (trace w ++ [(appendList go n word, None)]) w)).
  assert (Hacc1 : native_lists w1 !! (go, n) = Some (acc ++ [word])%list).
  { unfold w1, append_word. cbn [native_lists set_native_lists set_trace].
    rewrite Hacc. cbn. apply lookup_insert_eq. }
  destruct (IH (acc ++ [word])%list w1 Hacc1)
    as (Hs & (evs & Ht & Hpre & Hall & Hevs) & Hlists).
  split; [exact Hs|]. split.
  - exists ((appendList go n word, None) :: evs). split.
    + rewrite Ht. unfold w1, append_word.
      cbn [trace set_native_lists set_trace]. now rewrite <- app_assoc.
    + split; [cbn; now apply prefix_cons|]. split.
      * intros H. inversion H. now apply Hall.
      * intros Hr. cbn. now rewrite (Hevs Hr).
  - intros Hr. rewrite (Hlists Hr). unfold w1, append_word.
    cbn [native_lists set_native_lists set_trace]. rewrite Hacc. cbn.
    rewrite insert_insert_eq. now rewrite <- app_assoc.
Qed.

(** C5.  For a loaded grammar, the calls of [update_list] are, in order
    and as far as natlink accepts them, [emptyList] on the named list and
    one [appendList] per item of the current list; when [update_list]
    returns all of them have been made and accepted, and the native list
    holds exactly the items of the current list, whatever it held before. *)
Theorem update_list_replaces_native_list
    (lst : ListBase) (grammar : Grammar) (wrapper : GrammarWrapper)
    (self : NatlinkEngine) (w : world) :
  _grammar_wrappers self !! grammar_id grammar = Some wrapper ->
  let run := update_list lst grammar self w in
  let go := grammar_object wrapper in
  let n := list_name lst in
  let items := get_list_items lst in
  let evs := new_events w (world_of run) in
  evs.*1 `prefix_of` list_calls go n items
  /\ (all_accepted evs -> result_of run = Return tt)
  /\ (result_of run = Return tt ->
      evs = (fun c => (c, None)) <$> list_calls go n items
      /\ native_lists (world_of run) !! (go, n) = Some items
      /\ (forall key, key <> (go, n) ->
            native_lists (world_of run) !! key = native_lists w !! key)
      /\ state_of run = self).
Proof.
  intros Hw. cbv zeta. unfold update_list, _get_grammar_wrapper.
  rewrite bind_bind, bind_get, bind_ret, Hw, bind_extern.
  set (go := grammar_object wrapper). set (n := list_name lst).
  destruct (env (trace w) (emptyList go n)) as [e|].
  { unfold new_events, world_of, result_of. cbn [fst snd trace set_trace].
    rewrite drop_app_length. split; [cbn; apply prefix_cons, prefix_nil|].
    split; [|discriminate].
    intros H. inversion H as [|? ? Hev _]. discriminate Hev. }
  set (w1 := empty_list go n _).
  assert (Hempty : native_lists w1 !! (go, n) = Some []).
  { unfold w1, empty_list. cbn [native_lists set_native_lists].
    apply lookup_insert_eq. }
  destruct (append_loop go n (get_list_items lst) [] self w1 Hempty)
    as (Hs & (evs & Ht & Hpre & Hall & Hevs) & Hlists).
  cbv zeta in Hs, Ht, Hpre, Hall, Hevs, Hlists.
  assert (Hnew : new_events w
                   (world_of (for_each (get_list_items lst)
                      (fun word => extern (appendList go n word)
                                     (append_word go n word)) self w1)) =
                 (emptyList go n, None) :: evs).
  { apply new_events_app. rewrite Ht. unfold w1, empty_list.
    cbn [trace set_native_lists set_trace]. now rewrite <- app_assoc. }
  rewrite Hnew. split.
  { cbn. now apply prefix_cons. }
  split.
  { intros H. inversion H. now apply Hall. }
  intros Hr. split.
  { rewrite (Hevs Hr). unfold list_calls. rewrite fmap_cons. f_equal.
    now rewrite <- list_fmap_compose. }
  rewrite (Hlists Hr). cbn [app]. unfold w1, empty_list.
  cbn [native_lists set_native_lists]. rewrite insert_insert_eq.
  split; [apply lookup_insert_eq|]. split; [|exact Hs].
  intros key Hkey. now apply lookup_insert_ne.
Qed.

(** ** [_retain_audio] *)

Lemma new_logs_app (w w' : world) (l : list (level * string)) :
  logs w' = (logs w ++ l)%list -> new_logs w w' = l.
Proof. intros H. unfold new_logs. rewrite H. apply drop_app_length. Qed.

Lemma new_events_set_logs (w : world) (l : list (level * string)) :
  new_events w (set_logs l w) = [].
Proof. apply new_events_app. cbn. symmetry. apply app_nil_r. Qed.

Local Ltac retain_simpl :=
  unfold new_events, new_logs, world_of, result_of, state_of;
  cbn [fst snd trace logs files set_trace set_logs set_files];
  rewrite <- ?app_assoc; rewrite ?drop_app_length, ?drop_all;
  cbn [app forallb accepted snd fst andb].

(** The run of [_retain_audio] for a retain directory that exists: it
    returns, the wrapper is unchanged, and it logs one record, the
    exception record, exactly when one of its calls raised. *)
Lemma retain_audio_in_directory (engine : NatlinkEngine) (words : list string)
    (results : Results) (rule_name : string) (self : GrammarWrapper)
    (w : world) :
  truthy (_retain_dir engine) = true ->
  retain_dir_of engine ∈ dirs w ->
  let run := _retain_audio engine words results rule_name self w in
  let evs := new_events w (world_of run) in
  result_of run = Return tt
  /\ state_of run = self
  /\ new_logs w (world_of run) =
       (if forallb accepted evs then [] else [retain_exception])
  /\ (wave results = [] ->
      files (world_of run) = files w
      /\ evs = [(getWave, env (trace w) getWave)]).
Proof.
  intros Htruthy Hdir. cbv zeta. unfold _retain_audio.
  fold (retain_dir_of engine). rewrite bind_get_world, Htruthy.
  rewrite (bool_decide_eq_true_2 _ Hdir). cbn [negb andb].
  rewrite try_except_run. unfold results_getWave.
  rewrite bind_bind, bind_native.
  destruct (env (trace w) getWave) as [e|].
  { unfold log. retain_simpl. repeat split; reflexivity. }
  rewrite bind_ret.
  destruct (wave results) as [|b audio] eqn:Hwave.
  { cbn [length Nat.ltb Nat.leb]. rewrite ret_run. retain_simpl.
    repeat split; reflexivity. }
  cbn [length Nat.ltb Nat.leb]. rewrite bind_get_world.
  unfold open_file, write_file. rewrite bind_extern.
  match goal with |- context [env ?h (file_open ?p mode_wb)] =>
    destruct (env h (file_open p mode_wb)) as [e|] end.
  { unfold log. retain_simpl. repeat split; try reflexivity; discriminate. }
  rewrite bind_extern.
  match goal with |- context [env ?h (file_write ?p ?d)] =>
    destruct (env h (file_write p d)) as [e|] end.
  { unfold log. retain_simpl. repeat split; try reflexivity; discriminate. }
  rewrite bind_get, bind_extern.
  match goal with |- context [env ?h (file_open ?p mode_a)] =>
    destruct (env h (file_open p mode_a)) as [e|] end.
  { unfold log. retain_simpl. repeat split; try reflexivity; discriminate. }
  rewrite extern_run.
  match goal with |- context [env ?h (file_write ?p ?d)] =>
    destruct (env h (file_write p d)) as [e|] end.
  { unfold log. retain_simpl. repeat split; try reflexivity; discriminate. }
  retain_simpl. repeat split; try reflexivity; discriminate.
Qed.

Lemma retain_audio_no_directory (engine : NatlinkEngine) (words : list string)
    (results : Results) (rule_name : string) (self : GrammarWrapper)
    (w : world) :
  truthy (_retain_dir engine) = true ->
  retain_dir_of engine ∉ dirs w ->
  _retain_audio engine words results rule_name self w =
    (Return tt, self,
     set_logs (logs w ++ [not_a_directory_warning (retain_dir_of engine)])%list w).
Proof.
  intros Htruthy Hdir. unfold _retain_audio. fold (retain_dir_of engine).
  rewrite bind_get_world, Htruthy, (bool_decide_eq_false_2 _ Hdir).
  reflexivity.
Qed.

Lemma retain_audio_disabled (engine : NatlinkEngine) (words : list string)
    (results : Results) (rule_name : string) (self : GrammarWrapper)
    (w : world) :
  truthy (_retain_dir engine) = false ->
  _retain_audio engine words results rule_name self w = (Return tt, self, w).
Proof.
  intros Htruthy. unfold _retain_audio.
  rewrite bind_get_world, Htruthy. reflexivity.
Qed.

Lemma retain_audio_returns (engine : NatlinkEngine) (words : list string)
    (results : Results) (rule_name : string) (self : GrammarWrapper)
    (w : world) :
  let run := _retain_audio engine words results rule_name self w in
  result_of run = Return tt /\ state_of run = self.
Proof.
  cbv zeta. destruct (truthy (_retain_dir engine)) eqn:Htruthy.
  - destruct (decide (retain_dir_of engine ∈ dirs w)) as [Hdir|Hdir].
    + destruct (retain_audio_in_directory engine words results rule_name
                  self w Htruthy Hdir) as (Hr & Hs & _).
      now split.
    + now rewrite retain_audio_no_directory.
  - now rewrite retain_audio_disabled.
Qed.

(** C6.  [_retain_audio] never raises and leaves the wrapper as it is.
    For a retain directory that does not exist it logs one warning and
    does nothing else: no call, no file written.  For a directory that
    exists, an exception raised by one of its calls ([getWave], opening or
    writing a file) is caught and logged.  [_process_final_rule] always
    goes on with the method of the base class. *)
Theorem retain_audio_never_raises
    (engine : NatlinkEngine) (state : pyval) (words : list string)
    (results : Results) (dispatch_other : bool) (rule_name : string)
    (self : GrammarWrapper) (w : world) :
  let run := _retain_audio engine words results rule_name self w in
  result_of run = Return tt
  /\ state_of run = self
  /\ (truthy (_retain_dir engine) = true ->
      retain_dir_of engine ∉ dirs w ->
      new_logs w (world_of run) =
        [not_a_directory_warning (retain_dir_of engine)]
      /\ new_events w (world_of run) = []
      /\ files (world_of run) = files w)
  /\ (truthy (_retain_dir engine) = true ->
      retain_dir_of engine ∈ dirs w ->
      forall ev, ev ∈ new_events w (world_of run) -> accepted ev = false ->
        new_logs w (world_of run) = [retain_exception])
  /\ _process_final_rule engine state words results dispatch_other rule_name
       self w =
     base_process_final_rule state words results dispatch_other rule_name
       self (world_of run).
Proof.
  cbv zeta.
  destruct (retain_audio_returns engine words results rule_name self w)
    as [Hr Hs]. cbv zeta in Hr, Hs.
  split; [exact Hr|]. split; [exact Hs|]. split; [|split].
  - intros Htruthy Hdir. rewrite retain_audio_no_directory by assumption.
    unfold world_of. cbn [snd].
    split; [now apply new_logs_app|].
    split; [apply new_events_set_logs | reflexivity].
  - intros Htruthy Hdir ev Hin Hev.
    destruct (retain_audio_in_directory engine words results rule_name
                self w Htruthy Hdir) as (_ & _ & Hlogs & _).
    cbv zeta in Hlogs. rewrite Hlogs.
    destruct (forallb accepted _) eqn:Hall; [|reflexivity].
    rewrite forallb_forall in Hall.
    apply list_elem_of_In in Hin. rewrite (Hall ev Hin) in Hev. discriminate.
  - unfold _process_final_rule. rewrite bind_run.
    destruct (_retain_audio engine words results rule_name self w)
      as [[r s] w1].
    unfold result_of, state_of, world_of in *. cbn in *. now subst.
Qed.

(** C10.  When the wave data of the result is empty, [_retain_audio]
    writes no file and makes no file call at all, whatever the retain
    directory is; when the directory exists and [getWave] returns, this
    one call is all that happens: nothing is logged. *)
Theorem retain_audio_empty_wave_is_silent
    (engine : NatlinkEngine) (words : list string) (results : Results)
    (rule_name : string) (self : GrammarWrapper) (w : world) :
  wave results = [] ->
  let run := _retain_audio engine words results rule_name self w in
  files (world_of run) = files w
  /\ (forall ev, ev ∈ new_events w (world_of run) -> is_file_call ev.1 = false)
  /\ (truthy (_retain_dir engine) = true ->
      retain_dir_of engine ∈ dirs w ->
      env (trace w) getWave = None ->
      run = (Return tt, self, set_trace (trace w ++ [(getWave, None)])%list w)
      /\ new_logs w (world_of run) = []).
Proof.
  intros Hwave. cbv zeta.
  destruct (truthy (_retain_dir engine)) eqn:Htruthy.
  2:{ rewrite retain_audio_disabled by assumption. unfold world_of. cbn [snd].
      rewrite new_events_same. split; [reflexivity|].
      split; [|discriminate]. intros ev Hin. now apply elem_of_nil in Hin. }
  destruct (decide (retain_dir_of engine ∈ dirs w)) as [Hdir|Hdir].
  2:{ rewrite retain_audio_no_directory by assumption. unfold world_of.
      cbn [snd]. rewrite new_events_set_logs. split; [reflexivity|].
      split; [|intros _ Hin; contradiction].
      intros ev Hin. now apply elem_of_nil in Hin. }
  destruct (retain_audio_in_directory engine words results rule_name
              self w Htruthy Hdir) as (Hr & Hs & Hlogs & Hempty).
  cbv zeta in Hr, Hs, Hlogs, Hempty.
  destruct (Hempty Hwave) as [Hfiles Hevs].
  split; [exact Hfiles|]. split.
  { intros ev Hin. rewrite Hevs in Hin.
    apply list_elem_of_singleton in Hin as ->. reflexivity. }
  intros _ _ Hget. rewrite Hevs, Hget in Hlogs. cbn in Hlogs.
  split; [|exact Hlogs].
  unfold _retain_audio. fold (retain_dir_of engine).
  rewrite bind_get_world, Htruthy, (bool_decide_eq_true_2 _ Hdir).
  cbn [negb andb]. rewrite try_except_run. unfold results_getWave.
  rewrite bind_bind, bind_native, Hget, bind_ret, Hwave. reflexivity.
Qed.

(** ** [disconnect] *)

Lemma unload_grammar_events (grammar : Grammar) (wrapper : GrammarWrapper)
    (self : NatlinkEngine) (w : world) :
  let run := _unload_grammar grammar wrapper self w in
  state_of run = self
  /\ exists evs,
       trace (world_of run) = (trace w ++ evs)%list
       /\ in_step unload_grammars evs
       /\ (forallb tolerated evs = true -> result_of run = Return tt).
Proof.
  cbv zeta. unfold _unload_grammar. rewrite try_except_run, bind_native.
  destruct (env (trace w) _) as [e|].
  { destruct (is_NatError e) eqn:He;
      unfold state_of, world_of, result_of; cbn; (split; [reflexivity|]);
      eexists [_]; (split; [reflexivity|]); (split; [repeat constructor|]);
      cbn; rewrite He; [reflexivity | discriminate]. }
  rewrite bind_native.
  destruct (env _ (setResultsCallback _ _)) as [e|].
  { destruct (is_NatError e) eqn:He;
      unfold state_of, world_of, result_of; cbn; (split; [reflexivity|]);
      eexists [_; _]; (split; [rewrite <- app_assoc; reflexivity|]);
      (split; [repeat constructor|]);
      cbn; rewrite He; [reflexivity | discriminate]. }
  rewrite native_run.
  destruct (env _ (setHypothesisCallback _ _)) as [e|].
  { destruct (is_NatError e) eqn:He;
      unfold state_of, world_of, result_of; cbn; (split; [reflexivity|]);
      eexists [_; _; _]; (split; [rewrite <- !app_assoc; reflexivity|]);
      (split; [repeat constructor|]);
      cbn; rewrite He; [reflexivity | discriminate]. }
  unfold state_of, world_of, result_of; cbn. split; [reflexivity|].
  eexists [_; _; _]. split; [rewrite <- !app_assoc; reflexivity|].
  split; [repeat constructor | reflexivity].
Qed.

Lemma in_step_app (s : step) (a b : list event) :
  in_step s a -> in_step s b -> in_step s (a ++ b).
Proof. intros Ha Hb. apply Forall_app. now split. Qed.

Lemma Grammar_unload_events (grammar : Grammar) (self : NatlinkEngine)
    (w : world) :
  let run := Grammar_unload grammar self w in
  _timer_thread (state_of run) = _timer_thread self
  /\ (result_of run = Return tt ->
      _grammar_wrappers (state_of run) =
        delete (grammar_id grammar) (_grammar_wrappers self))
  /\ exists evs,
       trace (world_of run) = (trace w ++ evs)%list
       /\ in_step unload_grammars evs
       /\ (forallb tolerated evs = true -> result_of run = Return tt).
Proof.
  cbv zeta. unfold Grammar_unload. rewrite bind_get.
  destruct (_grammar_wrappers self !! grammar_id grammar) as [wrapper|] eqn:Hw.
  2:{ unfold state_of, world_of, result_of. cbn. split; [reflexivity|].
      split; [intros _; symmetry; now apply delete_id|].
      exists []. rewrite app_nil_r. split; [reflexivity|].
      split; [constructor | reflexivity]. }
  rewrite bind_run.
  destruct (unload_grammar_events grammar wrapper self w)
    as (Hs & evs & Ht & Hstep & Hret).
  destruct (_unload_grammar grammar wrapper self w) as [[r s1] w1].
  unfold state_of, world_of, result_of in Hs, Ht, Hret. cbn in Hs, Ht, Hret.
  subst s1.
  destruct r as [[]|e]; unfold state_of, world_of, result_of; cbn.
  - split; [reflexivity|]. split; [reflexivity|]. now exists evs.
  - split; [reflexivity|]. split; [discriminate|]. now exists evs.
Qed.

Lemma unload_loop_events (gs : list Grammar) (self : NatlinkEngine)
    (w : world) :
  let run := for_each gs Grammar_unload self w in
  _timer_thread (state_of run) = _timer_thread self
  /\ (result_of run = Return tt ->
      _grammar_wrappers (state_of run) =
        foldl (fun m g => delete (grammar_id g) m) (_grammar_wrappers self) gs)
  /\ exists evs,
       trace (world_of run) = (trace w ++ evs)%list
       /\ in_step unload_grammars evs
       /\ (forallb tolerated evs = true -> result_of run = Return tt).
Proof.
  revert self w. induction gs as [|g gs IH]; intros self w; cbv zeta.
  { unfold state_of, world_of, result_of. cbn. split; [reflexivity|].
    split; [reflexivity|]. exists []. rewrite app_nil_r.
    split; [reflexivity|]. split; [constructor | reflexivity]. }
  rewrite for_each_cons.
  destruct (Grammar_unload_events g self w)
    as (Ht1 & Hm1 & evs1 & Htr1 & Hstep1 & Hret1).
  destruct (Grammar_unload g self w) as [[r1 s1] w1].
  unfold state_of, world_of, result_of in Ht1, Hm1, Htr1, Hret1.
  cbn in Ht1, Hm1, Htr1, Hret1.
  destruct r1 as [[]|e].
  2:{ unfold state_of, world_of, result_of. cbn. split; [exact Ht1|].
      split; [discriminate|]. now exists evs1. }
  destruct (IH s1 w1) as (Ht2 & Hm2 & evs2 & Htr2 & Hstep2 & Hret2).
  split; [congruence|]. split.
  { intros Hr. rewrite (Hm2 Hr), (Hm1 eq_refl). reflexivity. }
  exists (evs1 ++ evs2)%list. split; [rewrite Htr2, Htr1; now rewrite app_assoc|].
  split; [now apply in_step_app|].
  rewrite forallb_app. intros H. apply andb_true_iff in H as [_ H2].
  now apply Hret2.
Qed.

Lemma close_dialog_events (windows : list Window) (self : NatlinkEngine)
    (w : world) :
  let run := close_dialog windows self w in
  state_of run = self
  /\ exists evs,
       trace (world_of run) = (trace w ++ evs)%list
       /\ in_step close_window evs
       /\ (length evs <= 1)%nat
       /\ (forallb tolerated evs = true -> result_of run = Return tt).
Proof.
  cbv zeta. induction windows as [|window rest IH]; cbn [close_dialog].
  { unfold state_of, world_of, result_of. cbn. split; [reflexivity|].
    exists []. rewrite app_nil_r. split; [reflexivity|].
    split; [constructor|]. split; [cbn; lia | reflexivity]. }
  rewrite bind_get_world.
  destruct (is_visible window && (win_pid window =? getpid w)%Z); [|exact IH].
  rewrite try_except_run, native_run.
  destruct (env (trace w) (Window_close window)) as [e|].
  - destruct (is_PyWinError e) eqn:He;
      unfold state_of, world_of, result_of; cbn; (split; [reflexivity|]);
      eexists [_]; (split; [reflexivity|]); (split; [repeat constructor|]);
      (split; [cbn; lia|]); cbn; rewrite He; [reflexivity | discriminate].
  - unfold state_of, world_of, result_of; cbn. split; [reflexivity|].
    eexists [_]. split; [reflexivity|]. split; [repeat constructor|].
    split; [cbn; lia | reflexivity].
Qed.

(** The third step of [disconnect]. *)
Lemma stop_thread_events (self : NatlinkEngine) (w : world) :
  let run :=
    match _timer_thread self with
    | Some thread =>
        bind (zoom (fun _ => thread) (fun t => set_timer_thread (Some t))
                TimerThread_stop)
             (fun _ => modify (set_timer_thread None))
    | None => ret tt
    end self w in
  _grammar_wrappers (state_of run) = _grammar_wrappers self
  /\ (result_of run = Return tt -> _timer_thread (state_of run) = None)
  /\ (_timer_thread self = None -> run = (Return tt, self, w))
  /\ exists evs,
       trace (world_of run) = (trace w ++ evs)%list
       /\ in_step stop_thread evs
       /\ (length evs <= 1)%nat
       /\ (forallb tolerated evs = true -> result_of run = Return tt).
Proof.
  cbv zeta. destruct (_timer_thread self) as [thread|] eqn:Hthread.
  2:{ unfold state_of, world_of, result_of. cbn. split; [reflexivity|].
      split; [intros _; exact Hthread|]. split; [reflexivity|].
      exists []. rewrite app_nil_r. split; [reflexivity|].
      split; [constructor|]. split; [cbn; lia | reflexivity]. }
  rewrite bind_run. unfold zoom, TimerThread_stop, _stop_timer.
  rewrite bind_modify, bind_get. cbn [_timer set_stop_event].
  destruct (_timer thread) as [t|].
  2:{ unfold state_of, world_of, result_of. cbn. split; [reflexivity|].
      split; [reflexivity|]. split; [discriminate|].
      exists []. rewrite app_nil_r. split; [reflexivity|].
      split; [constructor|]. split; [cbn; lia | reflexivity]. }
  rewrite bind_native.
  destruct (env (trace w) Timer_stop) as [e|];
    unfold state_of, world_of, result_of; cbn; (split; [reflexivity|]);
    (split; [first [reflexivity | discriminate]|]);
    (split; [discriminate|]);
    eexists [_]; (split; [reflexivity|]); (split; [repeat constructor|]);
    (split; [cbn; lia|]); first [reflexivity | discriminate].
Qed.





Lemma unload_grammar_desktop (grammar : Grammar) (wrapper : GrammarWrapper)
    (self : NatlinkEngine) (w : world) :
  let run := _unload_grammar grammar wrapper self w in
  desktop (world_of run) = desktop w /\ getpid (world_of run) = getpid w.
Proof.
  cbv zeta. unfold _unload_grammar. rewrite try_except_run, bind_native.
  destruct (env (trace w) _) as [e|].
  { destruct (is_NatError e); now unfold world_of. }
  rewrite bind_native.
  destruct (env _ (setResultsCallback _ _)) as [e|].
  { destruct (is_NatError e); now unfold world_of. }
  rewrite native_run.
  destruct (env _ (setHypothesisCallback _ _)) as [e|]; [|now unfold world_of].
  destruct (is_NatError e); now unfold world_of.
Qed.

Lemma Grammar_unload_desktop (grammar : Grammar) (self : NatlinkEngine)
    (w : world) :
  let run := Grammar_unload grammar self w in
  desktop (world_of run) = desktop w /\ getpid (world_of run) = getpid w.
Proof.
  cbv zeta. unfold Grammar_unload. rewrite bind_get.
  destruct (_grammar_wrappers self !! grammar_id grammar) as [wrapper|];
    [|now unfold world_of].
  rewrite bind_run.
  pose proof (unload_grammar_desktop grammar wrapper self w) as H.
  cbv zeta in H.
  destruct (_unload_grammar grammar wrapper self w) as [[r s1] w1].
  now destruct r.
Qed.

Lemma unload_loop_desktop (gs : list Grammar) (self : NatlinkEngine)
    (w : world) :
  let run := for_each gs Grammar_unload self w in
  desktop (world_of run) = desktop w /\ getpid (world_of run) = getpid w.
Proof.
  cbv zeta. revert self w. induction gs as [|g gs IH]; intros self w.
  { now unfold world_of. }
  rewrite for_each_cons.
  pose proof (Grammar_unload_desktop g self w) as H. cbv zeta in H.
  destruct (Grammar_unload g self w) as [[r s1] w1].
  unfold world_of in H. cbn [fst snd] in H. destruct H as [Hd Hp].
  destruct r as [[]|e]; [|now unfold world_of].
  rewrite <- Hd, <- Hp. apply IH.
Qed.








(** * More of the adapter *)

(** ** Sets, lists and records of calls *)

Lemma remove_added (x : string) (S : gset string) :
  ({[x]} ∪ S) ∖ {[x]} = S ∖ {[x]}.
Proof.
  rewrite difference_union_distr_l_L, difference_diag_L.
  apply union_empty_l_L.
Qed.

Lemma remove_missing (x : string) (S : gset string) :
  x ∉ S -> S ∖ {[x]} = S.
Proof. intros H. apply difference_disjoint_L. now apply disjoint_singleton_r. Qed.

Lemma new_logs_same (w : world) : new_logs w w = [].
Proof. unfold new_logs. apply drop_all. Qed.

Lemma new_logs_set_trace (w : world) (t : list event) :
  new_logs w (set_trace t w) = [].
Proof. unfold new_logs. cbn. apply drop_all. Qed.

(** ** [map_word] *)

Lemma map_word_decoded {St} (word : pyval) (s : St) (w : world) :
  map_word word s w = (decoded word, s, w).
Proof.
  destruct word as [t|b|z|]; try reflexivity.
  unfold map_word, decoded, bind, lift_result.
  now destruct (decode b).
Qed.

(** X1.  [map_word] changes nothing and makes no call.  When it returns,
    its result is never a byte string: a byte string comes back decoded,
    every other value comes back as it is, and [map_word] of the result
    returns the result again.  It raises only for a byte string that
    [decode] refuses. *)
Theorem map_word_yields_text {St} (word : pyval) (s : St) (w : world) :
  let run := map_word word s w in
  state_of run = s
  /\ world_of run = w
  /\ (forall v, result_of run = Return v ->
        is_bytes v = false
        /\ (is_bytes word = false -> v = word)
        /\ (forall b, word = PBytes b -> decode b = Return (path_of v)
                                         /\ is_text v = true)
        /\ map_word v s w = (Return v, s, w))
  /\ (forall e, result_of run = Raise e ->
        exists b, word = PBytes b /\ decode b = Raise e).
Proof.
  cbv zeta. rewrite map_word_decoded. unfold state_of, world_of, result_of.
  cbn [fst snd]. split; [reflexivity|]. split; [reflexivity|]. split.
  - intros v Hv. destruct word as [t|b|z|]; cbn in Hv.
    2:{ destruct (decode b) as [t|e] eqn:Hb; [|discriminate].
        injection Hv as <-. cbn. split; [reflexivity|].
        split; [discriminate|]. split; [|reflexivity].
        intros b' [= <-]. split; [exact Hb | reflexivity]. }
    all: injection Hv as <-; cbn; split; [reflexivity|];
      split; [now intros|]; split; [intros b'; discriminate | reflexivity].
  - intros e He. destruct word as [t|b|z|]; cbn in He; try discriminate.
    exists b. split; [reflexivity|].
    destruct (decode b); [discriminate | now injection He as ->].
Qed.

(** ** [activate_rule] and [deactivate_rule] *)

(** X2.  Outside the begin phase [activate_rule] asks natlink once, with
    one [activate] call for the window of the wrapper, and never makes a
    second call: there is no [deactivate] and no second [activate].  It
    returns when natlink accepts the call.  When the call raises, whatever
    the exception, [NatError] included, the clause
    [except self.natlink.NatError] looks up [natlink] on the wrapper, which
    has no such attribute, and the method ends with [AttributeError] in
    place of the exception of natlink.  The name is in the active set in
    every case. *)
Theorem activate_rule_asks_once
    (rule_name : string) (self : GrammarWrapper) (w : world) :
  beginning self = false ->
  let act := activate (grammar_object self) rule_name (hwnd self) in
  let o := env (trace w) act in
  let run := activate_rule rule_name self w in
  new_events w (world_of run) = [(act, o)]
  /\ (o = None -> result_of run = Return tt)
  /\ (forall e, o = Some e -> result_of run = Raise no_natlink_attribute)
  /\ (forall e, result_of run = Raise e ->
        e = no_natlink_attribute /\ o <> None)
  /\ active_rules_set (state_of run) = {[rule_name]} ∪ active_rules_set self.
Proof.
  intros Hb. cbv zeta. rewrite (activate_rule_run rule_name self w Hb).
  cbv zeta. unfold result_of, world_of, state_of. cbn [fst snd].
  split; [now apply new_events_app|].
  split; [now intros ->|]. split; [now intros e ->|].
  split; [|reflexivity].
  intros e. destruct (env (trace w) _); [|discriminate].
  intros [= <-]. now split.
Qed.

(** X3.  [deactivate_rule] right after [activate_rule] of the same name
    always finds the name, however the activation ended: it makes its one
    [deactivate] call, ends as that call ends, and leaves the active set
    as it was before the two calls, without the name. *)
Theorem deactivate_rule_after_activate_rule
    (rule_name : string) (self : GrammarWrapper) (w : world) :
  let first := activate_rule rule_name self w in
  let second := deactivate_rule rule_name (state_of first) (world_of first) in
  let c := deactivate (grammar_object self) rule_name in
  let o := env (trace (world_of first)) c in
  new_events (world_of first) (world_of second) = [(c, o)]
  /\ result_of second = match o with None => Return tt | Some e => Raise e end
  /\ active_rules_set (state_of second) = active_rules_set self ∖ {[rule_name]}
  /\ (rule_name ∉ active_rules_set self ->
      active_rules_set (state_of second) = active_rules_set self).
Proof.
  cbv zeta. rewrite deactivate_rule_run, activate_rule_state.
  cbn [active_rules_set set_active_rules_set grammar_object].
  rewrite (bool_decide_eq_true_2 _ (add_member rule_name _)).
  unfold state_of, result_of. cbn [fst snd active_rules_set set_active_rules_set].
  split; [now apply new_events_app|]. split; [reflexivity|].
  rewrite remove_added. split; [reflexivity|]. apply remove_missing.
Qed.

(** ** [begin_callback] *)

Lemma process_begin_run (executable title : pyval) (handle : Z)
    (self : GrammarWrapper) (w : world) :
  beginning self = true ->
  let run := grammar_process_begin executable title handle self w in
  hwnd (state_of run) = hwnd self
  /\ exists evs, world_of run = set_trace (trace w ++ evs)%list w.
Proof.
  intros Hb. cbv zeta. unfold grammar_process_begin. rewrite bind_get.
  destruct (requests_beginning
              (process_begin (grammar self) executable title handle) self w Hb)
    as (_ & Hh & _ & _ & evs & Hw & _).
  split; [exact Hh | now exists evs].
Qed.

(** X4.  Once the executable and the title are decoded, the begin phase
    of [begin_callback] always completes: whatever [process_begin] raises
    (the [KeyError] of a rule that was not active, an error of natlink) is
    logged once and dropped, the beginning flag is cleared and the window
    handle is the new one.  A byte string that cannot be decoded ends
    [begin_callback] at once, with the beginning flag still set: until the
    next [begin_callback], [activate_rule] only records names. *)
Theorem begin_callback_logs_handler_errors
    (module_info : pyval * pyval * Z) (self : GrammarWrapper) (w : world) :
  let handle := module_info.2 in
  let phase := begin_phase module_info self w in
  let stuck := set_beginning true self in
  (forall executable title,
     decoded module_info.1.1 = Return executable ->
     decoded module_info.1.2 = Return title ->
     let handler :=
       grammar_process_begin executable title handle
         (set_hwnd handle stuck) w in
     result_of phase = Return tt
     /\ beginning (state_of phase) = false
     /\ hwnd (state_of phase) = handle
     /\ active_rules_set (state_of phase) = active_rules_set (state_of handler)
     /\ new_events w (world_of phase) = new_events w (world_of handler)
     /\ new_logs w (world_of phase) =
          (if is_Return (result_of handler) then []
           else [process_begin_exception]))
  /\ (forall e,
        decoded module_info.1.1 = Raise e
        \/ is_Return (decoded module_info.1.1) = true
           /\ decoded module_info.1.2 = Raise e ->
        begin_callback module_info self w = (Raise e, stuck, w)
        /\ forall rule_name w',
             activate_rule rule_name stuck w' =
               (Return tt,
                set_active_rules_set
                  ({[rule_name]} ∪ active_rules_set self) stuck, w')).
Proof. 
  destruct module_info as [[word0 word1] handle]. cbv zeta. cbn [fst snd].
  split.
  - intros executable title H0 H1. unfold begin_phase.
    rewrite bind_modify, bind_run, map_word_decoded, H0.
    rewrite bind_run, map_word_decoded, H1.
    rewrite bind_modify, bind_run, try_except_run.
    destruct (process_begin_run executable title handle
                (set_hwnd handle (set_beginning true self)) w eq_refl)
      as (Hh & evs & Hw).
    destruct (grammar_process_begin executable title handle _ w)
      as [[r s1] w1].
    unfold state_of, world_of, result_of in *. cbn [fst snd] in *. subst w1.
    destruct r as [[]|e]; cbn.
    + repeat split; try reflexivity; [exact Hh | apply new_logs_set_trace].
    + repeat split; try reflexivity; [exact Hh|].
      unfold new_logs. cbn. now rewrite drop_app_length.
  - intros e He. split;
      [|intros rule_name w'; now rewrite activate_rule_beginning by reflexivity].
    unfold begin_callback. rewrite bind_modify, bind_run, map_word_decoded.
    destruct He as [H0|[H0 H1]].
    + now rewrite H0.
    + destruct (decoded word0) as [executable|]; [|discriminate].
      now rewrite bind_run, map_word_decoded, H1.
Qed.

(** ** The engine's [activate_rule] and [deactivate_rule] *)

Lemma activate_rule_calls (rule_name : string) (self : GrammarWrapper)
    (w : world) :
  let run := activate_rule rule_name self w in
  exists evs,
    world_of run = set_trace (trace w ++ evs)%list w
    /\ Forall (fun ev : event =>
                 ev.1 = activate (grammar_object self) rule_name (hwnd self)
                 \/ ev.1 = deactivate (grammar_object self) rule_name) evs
    /\ (beginning self = true -> evs = [] /\ result_of run = Return tt).
Proof.
  cbv zeta. destruct (beginning self) eqn:Hb.
  { rewrite activate_rule_beginning by exact Hb. exists []. unfold world_of.
    cbn. rewrite app_nil_r. destruct w; now repeat split. }
  rewrite (activate_rule_run rule_name self w Hb). cbv zeta.
  eexists [_]. split; [reflexivity|].
  split; [constructor; [now left | constructor] | discriminate].
Qed.

Lemma set_grammar_wrappers_same (self : NatlinkEngine) (key : nat)
    (wrapper : GrammarWrapper) :
  _grammar_wrappers self !! key = Some wrapper ->
  set_grammar_wrappers (<[key := wrapper]> (_grammar_wrappers self)) self = self.
Proof.
  intros H. rewrite (insert_id _ _ _ H). now destruct self.
Qed.

Lemma new_events_logged (w : world) (l : list (level * string))
    (evs : list event) :
  new_events w (set_trace (trace w ++ evs)%list (set_logs l w)) = evs.
Proof. apply new_events_app. reflexivity. Qed.

(** X5.  [NatlinkEngine.activate_rule] leaves a grammar that is not loaded
    alone: it returns without a call.  For a loaded grammar the name of the
    rule is recorded in the session of that grammar, every call it makes is
    an [activate] or a [deactivate] of this rule on the grammar object of
    the session, and there is no call at all while the session is in its
    begin phase.  The sessions of other grammars, the keep-alive thread and
    the retain directory are never touched. *)
Theorem engine_activate_rule_reaches_session
    (rule : Rule) (grammar : Grammar) (self : NatlinkEngine) (w : world) :
  let key := grammar_id grammar in
  let name := Rule_name rule in
  let run := NatlinkEngine_activate_rule rule grammar self w in
  let evs := new_events w (world_of run) in
  _timer_thread (state_of run) = _timer_thread self
  /\ _retain_dir (state_of run) = _retain_dir self
  /\ (forall other, other <> key ->
        _grammar_wrappers (state_of run) !! other =
          _grammar_wrappers self !! other)
  /\ (_grammar_wrappers self !! key = None ->
      state_of run = self /\ evs = [] /\ result_of run = Return tt)
  /\ (forall wrapper, _grammar_wrappers self !! key = Some wrapper ->
        _grammar_wrappers (state_of run) !! key =
          Some (set_active_rules_set ({[name]} ∪ active_rules_set wrapper)
                  wrapper)
        /\ Forall (fun ev : event =>
                     ev.1 = activate (grammar_object wrapper) name
                              (hwnd wrapper)
                     \/ ev.1 = deactivate (grammar_object wrapper) name) evs
        /\ (beginning wrapper = true ->
            evs = [] /\ result_of run = Return tt)).
Proof.
  cbv zeta. unfold NatlinkEngine_activate_rule, _get_grammar_wrapper.
  rewrite bind_log, bind_bind, bind_get, bind_ret.
  destruct (_grammar_wrappers self !! grammar_id grammar) as [wrapper|] eqn:Hl.
  2:{ unfold state_of, world_of, result_of, ret. cbn [fst snd].
      repeat split; try reflexivity; try discriminate.
      apply new_events_set_logs. }
  unfold on_wrapper, zoom.
  match goal with
  | |- context [activate_rule ?r ?s ?w1] =>
      pose proof (activate_rule_state r s w1) as Hs;
      destruct (activate_rule_calls r s w1) as (evs & Hw & Hev & Hbeg);
      destruct (activate_rule r s w1) as [[res s1] w2]
  end.
  unfold state_of, world_of, result_of in *. cbn [fst snd] in *.
  subst s1 w2. cbn [_timer_thread _retain_dir _grammar_wrappers
                     set_grammar_wrappers].
  split; [reflexivity|]. split; [reflexivity|].
  split; [intros other Ho; now rewrite lookup_insert_ne|].
  split; [discriminate|]. intros wrapper' [= <-].
  split; [apply lookup_insert_eq|].
  cbn [trace set_logs]. rewrite new_events_logged. now split.
Qed.

(** X6.  [NatlinkEngine.deactivate_rule] leaves a grammar that is not
    loaded alone.  For a loaded grammar whose session does not have the
    rule in its active set it raises [KeyError], makes no call and leaves
    the engine as it was; otherwise the name leaves the active set of the
    session and one [deactivate] call is made, whose outcome is the outcome
    of the method. *)
Theorem engine_deactivate_rule_reaches_session
    (rule : Rule) (grammar : Grammar) (self : NatlinkEngine) (w : world) :
  let key := grammar_id grammar in
  let name := Rule_name rule in
  let run := NatlinkEngine_deactivate_rule rule grammar self w in
  let evs := new_events w (world_of run) in
  (_grammar_wrappers self !! key = None ->
   state_of run = self /\ evs = [] /\ result_of run = Return tt)
  /\ (forall wrapper, _grammar_wrappers self !! key = Some wrapper ->
        name ∉ active_rules_set wrapper ->
        state_of run = self /\ evs = []
        /\ result_of run = Raise (KeyError name))
  /\ (forall wrapper, _grammar_wrappers self !! key = Some wrapper ->
        name ∈ active_rules_set wrapper ->
        state_of run =
          set_grammar_wrappers
            (<[key := set_active_rules_set
                        (active_rules_set wrapper ∖ {[name]}) wrapper]>
               (_grammar_wrappers self)) self
        /\ exists o,
             evs = [(deactivate (grammar_object wrapper) name, o)]
             /\ result_of run =
                  match o with None => Return tt | Some e => Raise e end).
Proof.
  cbv zeta. unfold NatlinkEngine_deactivate_rule, _get_grammar_wrapper.
  rewrite bind_log, bind_bind, bind_get, bind_ret.
  destruct (_grammar_wrappers self !! grammar_id grammar) as [wrapper|] eqn:Hl.
  2:{ unfold state_of, world_of, result_of, ret. cbn [fst snd].
      split; [intros _|split; discriminate].
      repeat split. apply new_events_set_logs. }
  unfold on_wrapper, zoom. rewrite deactivate_rule_run. cbv zeta.
  split; [discriminate|]. split; intros wrapper' [= <-] Hin.
  - rewrite (bool_decide_eq_false_2 _ Hin).
    unfold state_of, world_of, result_of. cbn [fst snd].
    split; [now apply set_grammar_wrappers_same|].
    split; [apply new_events_set_logs | reflexivity].
  - rewrite (bool_decide_eq_true_2 _ Hin).
    unfold state_of, world_of, result_of. cbn [fst snd].
    split; [reflexivity|]. eexists. split; [|reflexivity].
    cbn [trace set_logs]. apply new_events_logged.
Qed.

(** ** The keep-alive thread *)

Lemma TimerThread_start_run (self : TimerThread) (w : world) :
  TimerThread_start self w =
    match _timer self with
    | Some _ =>
        (match env (trace w) Thread_start with
         | None => Return tt
         | Some e => Raise e
         end, self,
         set_trace (trace w ++ [(Thread_start, env (trace w) Thread_start)])%list w)
    | None =>
        match env (trace w) create_timer with
        | Some e =>
            (Raise e, self,
             set_trace (trace w ++ [(create_timer, Some e)])%list w)
        | None =>
            let w1 := set_next_object (S (next_object w))
                        (set_trace (trace w ++ [(create_timer, None)])%list w) in
            (match env (trace w1) Thread_start with
             | None => Return tt
             | Some e => Raise e
             end, set_timer (Some (next_object w)) self,
             set_trace (trace w1 ++ [(Thread_start, env (trace w1) Thread_start)])%list
               w1)
        end
    end.
Proof.
  unfold TimerThread_start. rewrite bind_get.
  destruct (_timer self) as [t|].
  { now rewrite bind_ret, native_run. }
  unfold engine_create_timer.
  rewrite !bind_bind, bind_get_world, bind_bind, bind_extern.
  destruct (env (trace w) create_timer) as [e|]; [reflexivity|].
  now rewrite bind_ret, bind_modify, native_run.
Qed.

(** X7.  [TimerThread.start] creates the engine timer only when the thread
    has none: with a timer it only starts the thread; without one it
    creates the timer first, and when that fails the thread is not
    started and keeps having no timer. *)
Theorem TimerThread_start_creates_timer_once
    (self : TimerThread) (w : world) :
  let run := TimerThread_start self w in
  let evs := new_events w (world_of run) in
  _stop_event (state_of run) = _stop_event self
  /\ (forall t, _timer self = Some t ->
        state_of run = self
        /\ evs = [(Thread_start, env (trace w) Thread_start)])
  /\ (forall e, _timer self = None ->
        env (trace w) create_timer = Some e ->
        run = (Raise e, self,
               set_trace (trace w ++ [(create_timer, Some e)])%list w))
  /\ (_timer self = None ->
      env (trace w) create_timer = None ->
      _timer (state_of run) = Some (next_object w)
      /\ exists o,
           evs = [(create_timer, None); (Thread_start, o)]
           /\ result_of run =
                match o with None => Return tt | Some e => Raise e end).
Proof.
  cbv zeta. rewrite TimerThread_start_run.
  destruct (_timer self) as [t|] eqn:Ht.
  { unfold state_of, world_of. cbn [fst snd].
    split; [reflexivity|]. split; [|split; discriminate].
    intros t' _. split; [reflexivity | now apply new_events_app]. }
  destruct (env (trace w) create_timer) as [e|] eqn:Ec.
  { unfold state_of. cbn [fst snd]. split; [reflexivity|].
    split; [discriminate|]. split; [|discriminate].
    now intros e' _ [= <-]. }
  cbv zeta. unfold state_of, world_of, result_of. cbn [fst snd].
  split; [reflexivity|]. split; [discriminate|]. split; [discriminate|].
  intros _ _. split; [reflexivity|]. eexists. split; [|reflexivity].
  apply new_events_app. cbn. now rewrite <- app_assoc.
Qed.

Lemma TimerThread_stop_run (self : TimerThread) (w : world) :
  TimerThread_stop self w =
    match _timer self with
    | None => (Return tt, set_stop_event true self, w)
    | Some t =>
        match env (trace w) Timer_stop with
        | None =>
            (Return tt, set_timer None (set_stop_event true self),
             set_trace (trace w ++ [(Timer_stop, None)])%list w)
        | Some e =>
            (Raise e, set_stop_event true self,
             set_trace (trace w ++ [(Timer_stop, Some e)])%list w)
        end
    end.
Proof.
  unfold TimerThread_stop, _stop_timer.
  rewrite bind_modify, bind_get. cbn [_timer set_stop_event].
  destruct (_timer self) as [t|]; [|reflexivity].
  rewrite bind_native. now destruct (env (trace w) Timer_stop).
Qed.

(** X8.  [TimerThread.stop] sets the stop event and stops the engine timer
    at most once: a thread without a timer makes no call; after a stop
    that returned the thread has no timer, so that stopping again makes no
    call; and when the timer refuses to stop, the thread keeps it. *)
Theorem TimerThread_stop_stops_timer_once (self : TimerThread) (w : world) :
  let run := TimerThread_stop self w in
  let evs := new_events w (world_of run) in
  _stop_event (state_of run) = true
  /\ (_timer self = None -> run = (Return tt, set_stop_event true self, w))
  /\ (forall t, _timer self = Some t ->
        evs = [(Timer_stop, env (trace w) Timer_stop)])
  /\ (result_of run = Return tt ->
      _timer (state_of run) = None
      /\ TimerThread_stop (state_of run) (world_of run) =
           (Return tt, state_of run, world_of run))
  /\ (forall e, result_of run = Raise e ->
        _timer (state_of run) = _timer self
        /\ env (trace w) Timer_stop = Some e).
Proof.
  cbv zeta. rewrite TimerThread_stop_run.
  destruct (_timer self) as [t|] eqn:Ht.
  2:{ unfold state_of, world_of, result_of. cbn [fst snd].
      split; [reflexivity|]. split; [reflexivity|]. split; [discriminate|].
      split; [|discriminate]. intros _. split; [exact Ht|].
      rewrite TimerThread_stop_run. cbn [_timer set_stop_event]. rewrite Ht.
      reflexivity. }
  destruct (env (trace w) Timer_stop) as [e|] eqn:Es;
    unfold state_of, world_of, result_of; cbn [fst snd].
  - split; [reflexivity|]. split; [discriminate|].
    split; [intros t' _; now apply new_events_app|].
    split; [discriminate|]. intros e' [= <-]. now split.
  - split; [reflexivity|]. split; [discriminate|].
    split; [intros t' _; now apply new_events_app|].
    split; [|discriminate]. intros _. split; [reflexivity|].
    now rewrite TimerThread_stop_run.
Qed.

Lemma apply_threading_fix_again (self : NatlinkEngine) (w : world) :
  _timer_thread self <> None ->
  apply_threading_fix self w = (Return tt, self, w).
Proof.
  intros H. unfold apply_threading_fix. rewrite bind_get.
  now destruct (_timer_thread self).
Qed.

Lemma apply_threading_fix_run (self : NatlinkEngine) (w : world) :
  _timer_thread self = None ->
  let start := TimerThread_start TimerThread_init w in
  apply_threading_fix self w =
    (result_of start, set_timer_thread (Some (state_of start)) self,
     world_of start).
Proof.
  intros H. cbv zeta. unfold apply_threading_fix. rewrite bind_get, H.
  unfold zoom. now destruct (TimerThread_start TimerThread_init w) as [[r t] w1].
Qed.

(** X9.  [apply_threading_fix] is applied once.  An engine that has a
    thread object is left alone.  Otherwise the engine gets one before the
    thread is started, so that after any call, also one in which creating
    the timer or starting the thread failed, a further call does nothing.
    A first call that returns has created one timer and started one
    thread.  Sessions and retain directory are never touched. *)
Theorem apply_threading_fix_applies_once (self : NatlinkEngine) (w : world) :
  let run := apply_threading_fix self w in
  let evs := new_events w (world_of run) in
  _timer_thread (state_of run) <> None
  /\ (forall w', apply_threading_fix (state_of run) w' =
                   (Return tt, state_of run, w'))
  /\ _grammar_wrappers (state_of run) = _grammar_wrappers self
  /\ _retain_dir (state_of run) = _retain_dir self
  /\ (_timer_thread self <> None -> run = (Return tt, self, w))
  /\ (_timer_thread self = None ->
      evs.*1 `prefix_of` [create_timer; Thread_start]
      /\ (result_of run = Return tt ->
          evs = [(create_timer, None); (Thread_start, None)]
          /\ _timer_thread (state_of run) =
               Some (mkTimerThread false (Some (next_object w))))).
Proof.
  cbv zeta. destruct (_timer_thread self) as [t|] eqn:Ht.
  { assert (Hsome : _timer_thread self <> None) by now rewrite Ht.
    rewrite (apply_threading_fix_again self w Hsome).
    unfold state_of. cbn [fst snd]. split; [exact Hsome|].
    split; [intros w'; now apply apply_threading_fix_again|].
    split; [reflexivity|]. split; [reflexivity|]. split; [reflexivity|].
    discriminate. }
  rewrite (apply_threading_fix_run self w Ht). cbv zeta.
  unfold state_of at 1 2 3 4. cbn [fst snd _timer_thread set_timer_thread
                                     _grammar_wrappers _retain_dir].
  split; [discriminate|].
  split; [intros w'; now apply apply_threading_fix_again|].
  split; [reflexivity|]. split; [reflexivity|]. split; [congruence|].
  intros _. rewrite TimerThread_start_run. cbn [_timer TimerThread_init].
  destruct (env (trace w) create_timer) as [e|] eqn:Ec.
  { unfold world_of, result_of. cbn [fst snd].
    rewrite (new_events_app w _ [(create_timer, Some e)]) by reflexivity.
    split; [|discriminate]. now exists [Thread_start]. }
  cbv zeta. unfold world_of, result_of, state_of. cbn [fst snd].
  match goal with
  | |- context [new_events w ?w2] =>
      rewrite (new_events_app w w2
                 [(create_timer, None);
                  (Thread_start,
                   env (trace w ++ [(create_timer, None)])%list Thread_start)])
        by (cbn; now rewrite <- app_assoc)
  end.
  split; [now exists []|].
  cbn [trace set_next_object set_trace].
  destruct (env _ Thread_start); [discriminate|]. now intros _.
Qed.

Lemma connect_run (self : NatlinkEngine) (w : world) :
  connect self w =
    match env (trace w) (natConnect true) with
    | Some e =>
        (Raise e, self,
         set_trace (trace w ++ [(natConnect true, Some e)])%list w)
    | None =>
        apply_threading_fix self
          (set_trace (trace w ++ [(natConnect true, None)])%list w)
    end.
Proof. unfold connect. now rewrite bind_native. Qed.

(** X10.  [connect] asks natlink first and only then applies the threading
    fix: when [natConnect] fails the engine is left as it was and no
    thread is started.  It is not guarded: a second [connect] calls
    [natConnect] again, but, the thread being there, makes no other
    call. *)
Theorem connect_starts_one_thread (self : NatlinkEngine) (w : world) :
  let run := connect self w in
  let again := connect (state_of run) (world_of run) in
  (forall e, env (trace w) (natConnect true) = Some e ->
     run = (Raise e, self,
            set_trace (trace w ++ [(natConnect true, Some e)])%list w))
  /\ (exists o rest,
        new_events w (world_of run) = (natConnect true, o) :: rest
        /\ rest.*1 `prefix_of` [create_timer; Thread_start])
  /\ (result_of run = Return tt ->
      _timer_thread (state_of run) <> None
      /\ state_of again = state_of run
      /\ new_events (world_of run) (world_of again) =
           [(natConnect true,
             env (trace (world_of run)) (natConnect true))]).
Proof.
  cbv zeta. rewrite (connect_run self w).
  destruct (env (trace w) (natConnect true)) as [e|] eqn:Ec.
  { split; [now intros e' [= <-]|]. split; [|discriminate].
    exists (Some e), []. split; [now apply new_events_app|].
    now exists [create_timer; Thread_start]. }
  split; [discriminate|].
  set (w1 := set_trace (trace w ++ [(natConnect true, None)])%list w).
  assert (Hfix : _timer_thread (state_of (apply_threading_fix self w1)) <> None
                 /\ exists rest,
                      trace (world_of (apply_threading_fix self w1)) =
                        (trace w1 ++ rest)%list
                      /\ rest.*1 `prefix_of` [create_timer; Thread_start]).
  { destruct (_timer_thread self) as [t|] eqn:Ht.
    - rewrite apply_threading_fix_again by now rewrite Ht.
      unfold state_of, world_of. cbn [fst snd]. split; [now rewrite Ht|].
      exists []. split; [now rewrite app_nil_r|].
      now exists [create_timer; Thread_start].
    - rewrite (apply_threading_fix_run self w1 Ht). cbv zeta.
      unfold state_of at 1, world_of at 1. cbn [fst snd _timer_thread
                                                 set_timer_thread].
      split; [discriminate|]. rewrite TimerThread_start_run.
      cbn [_timer TimerThread_init].
      destruct (env (trace w1) create_timer) as [e|].
      + unfold world_of. cbn [fst snd]. eexists [_]. split; [reflexivity|].
        now exists [Thread_start].
      + cbv zeta. unfold world_of. cbn [fst snd]. eexists [_; _].
        split; [cbn; rewrite <- app_assoc; reflexivity|]. now exists []. }
  destruct Hfix as (Hsome & rest & Hrest & Hpre).
  destruct (apply_threading_fix self w1) as [[r s1] w2].
  unfold state_of, world_of, result_of in *. cbn [fst snd] in *.
  split.
  { exists None, rest. split; [|exact Hpre]. apply new_events_app.
    rewrite Hrest. unfold w1. cbn. now rewrite <- app_assoc. }
  intros _. split; [exact Hsome|].
  rewrite (connect_run s1 w2).
  destruct (env (trace w2) (natConnect true)) as [e|] eqn:E2.
  { cbn [fst snd]. split; [reflexivity | now apply new_events_app]. }
  rewrite apply_threading_fix_again by exact Hsome. cbn [fst snd].
  split; [reflexivity | now apply new_events_app].
Qed.

(** ** [_unload_grammar] *)

(** X11.  [_unload_grammar] clears the three callbacks of the grammar
    object in order and stops at the first call that fails.  A [NatError]
    is logged and dropped, any other error leaves the method; the engine
    is never changed. *)
Theorem unload_grammar_logs_NatError
    (grammar : Grammar) (wrapper : GrammarWrapper) (self : NatlinkEngine)
    (w : world) :
  let go := grammar_object wrapper in
  let run := _unload_grammar grammar wrapper self w in
  let evs := new_events w (world_of run) in
  state_of run = self
  /\ evs.*1 `prefix_of` unregistration go
  /\ ((evs = (fun c => (c, None)) <$> unregistration go
       /\ result_of run = Return tt
       /\ new_logs w (world_of run) = [])
      \/ (exists before c e,
            evs = (before ++ [(c, Some e)])%list
            /\ all_accepted before
            /\ result_of run = (if is_NatError e then Return tt else Raise e)
            /\ new_logs w (world_of run) =
                 (if is_NatError e then [unload_failure grammar e] else []))).
Proof.
  cbv zeta. unfold _unload_grammar. rewrite try_except_run, bind_native.
  destruct (env (trace w) (setBeginCallback _ false)) as [e|] eqn:E1.
  { destruct (is_NatError e) eqn:Hn; unfold log, new_logs; events_simpl.
    all: split; [reflexivity|]; split; [eexists; reflexivity|].
    all: right; eexists [], _, e; rewrite Hn; cbn [app].
    all: repeat split; try constructor.
    all: now rewrite ?drop_app_length, ?drop_all. }
  rewrite bind_native. cbn [trace set_trace].
  destruct (env _ (setResultsCallback _ false)) as [e|] eqn:E2.
  { destruct (is_NatError e) eqn:Hn; unfold log, new_logs; events_simpl.
    all: split; [reflexivity|]; split; [eexists; reflexivity|].
    all: right; eexists [_], _, e; rewrite Hn; cbn [app].
    all: repeat split; try (repeat constructor).
    all: now rewrite ?drop_app_length, ?drop_all. }
  rewrite native_run. cbn [trace set_trace].
  destruct (env _ (setHypothesisCallback _ false)) as [e|] eqn:E3.
  { destruct (is_NatError e) eqn:Hn; unfold log, new_logs; events_simpl.
    all: split; [reflexivity|]; split; [exists []; reflexivity|].
    all: right; eexists [_; _], _, e; rewrite Hn; cbn [app].
    all: repeat split; try (repeat constructor).
    all: now rewrite ?drop_app_length, ?drop_all. }
  unfold new_logs; events_simpl.
  split; [reflexivity|]. split; [exists []; reflexivity|]. left.
  repeat split. now rewrite drop_all.
Qed.

(** ** [_load_grammar] *)

Lemma apply_threading_fix_state (self : NatlinkEngine) (w : world) :
  let run := apply_threading_fix self w in
  _timer_thread (state_of run) <> None
  /\ _grammar_wrappers (state_of run) = _grammar_wrappers self
  /\ _retain_dir (state_of run) = _retain_dir self.
Proof.
  cbv zeta. destruct (_timer_thread self) as [t|] eqn:Ht.
  - rewrite apply_threading_fix_again by now rewrite Ht.
    unfold state_of. cbn [fst snd]. now rewrite Ht.
  - rewrite (apply_threading_fix_run self w Ht). now unfold state_of.
Qed.

Lemma connect_state (self : NatlinkEngine) (w : world) :
  let run := connect self w in
  _grammar_wrappers (state_of run) = _grammar_wrappers self
  /\ _retain_dir (state_of run) = _retain_dir self.
Proof.
  cbv zeta. rewrite connect_run.
  destruct (env (trace w) (natConnect true)); [now unfold state_of|].
  apply apply_threading_fix_state.
Qed.

Local Ltac load_raised :=
  unfold state_of, result_of, raise; cbn [fst snd];
  split; [reflexivity|]; split; [reflexivity|]; intros ? ?; discriminate.

Lemma load_grammar_state (grammar : Grammar) (self : NatlinkEngine)
    (w : world) :
  let run := _load_grammar grammar self w in
  _grammar_wrappers (state_of run) = _grammar_wrappers self
  /\ _retain_dir (state_of run) = _retain_dir self
  /\ (forall wrapper, result_of run = Return wrapper ->
        exists compiled rule_names,
          compile_grammar grammar = Return (compiled, rule_names)
          /\ wrapper = loaded_wrapper grammar (next_object w) rule_names
          /\ (rule_names = ∅ -> state_of run = self)
          /\ (rule_names <> ∅ -> _timer_thread (state_of run) <> None)).
Proof.
  cbv zeta. unfold _load_grammar. rewrite bind_log.
  unfold natlink_GramObj.
  rewrite bind_bind, bind_get_world, bind_bind, bind_extern.
  cbn [next_object set_logs].
  set (go := next_object w).
  destruct (env _ (GramObj go)) as [e|]; [load_raised|].
  rewrite bind_ret, bind_native.
  destruct (env _ (setBeginCallback go true)) as [e|]; [load_raised|].
  rewrite bind_native.
  destruct (env _ (setResultsCallback go true)) as [e|]; [load_raised|].
  rewrite bind_native.
  destruct (env _ (setHypothesisCallback go false)) as [e|]; [load_raised|].
  destruct (compile_grammar grammar) as [[compiled rule_names]|e] eqn:Hc;
    cbn [lift_result].
  2:{ rewrite bind_raise. load_raised. }
  rewrite bind_ret.
  case_bool_decide as Hempty.
  { unfold ret, state_of, result_of. cbn [fst snd].
    split; [reflexivity|]. split; [reflexivity|].
    intros wrapper [= <-]. exists compiled, rule_names.
    repeat split. intros H. now destruct H. }
  rewrite bind_run, try_except_run, bind_native.
  match goal with
  | |- context [env ?h (load go compiled ?a ?b)] =>
      destruct (env h (load go compiled a b)) as [e|]
  end.
  2:{ rewrite ret_run. cbv beta iota. rewrite bind_ret, bind_run.
      match goal with
      | |- context [apply_threading_fix ?s ?w1] =>
          destruct (apply_threading_fix_state s w1) as (Ht & Hg & Hr);
          destruct (apply_threading_fix s w1) as [[r1 s1] w1']
      end.
      unfold state_of in Ht, Hg, Hr. cbn [fst snd] in Ht, Hg, Hr.
      destruct r1 as [[]|e]; unfold ret, state_of, result_of; cbn [fst snd].
      - split; [exact Hg|]. split; [exact Hr|].
        intros wrapper [= <-]. exists compiled, rule_names.
        repeat split. now intros H. now intros _.
      - split; [exact Hg|]. split; [exact Hr|]. intros ? ?; discriminate. }
  destruct (is_NatError e) eqn:Hnat; [|load_raised].
  destruct (String.eqb (str_exn e) not_connected_message) eqn:Hm.
  2:{ rewrite bind_log. load_raised. }
  rewrite ret_run. cbv beta iota. rewrite bind_bind, bind_run.
  match goal with
  | |- context [connect ?s ?w1] =>
      destruct (connect_state s w1) as (Hg1 & Hr1);
      destruct (connect s w1) as [[r1 s1] w1']
  end.
  unfold state_of in Hg1, Hr1. cbn [fst snd] in Hg1, Hr1.
  destruct r1 as [[]|e1].
  2:{ unfold state_of, result_of. cbn [fst snd].
      split; [exact Hg1|]. split; [exact Hr1|]. intros ? ?; discriminate. }
  rewrite bind_run, try_except_run, native_run.
  match goal with
  | |- context [env ?h (load go compiled ?a ?b)] =>
      destruct (env h (load go compiled a b)) as [e2|]
  end.
  { destruct (is_NatError e2); [rewrite bind_log|];
      unfold state_of, result_of, raise; cbn [fst snd];
      (split; [exact Hg1|]; split; [exact Hr1|]; intros ? ?; discriminate). }
  rewrite bind_run.
  match goal with
  | |- context [apply_threading_fix ?s ?w2] =>
      destruct (apply_threading_fix_state s w2) as (Ht2 & Hg2 & Hr2);
      destruct (apply_threading_fix s w2) as [[r2 s2] w2']
  end.
  unfold state_of in Ht2, Hg2, Hr2. cbn [fst snd] in Ht2, Hg2, Hr2.
  destruct r2 as [[]|e2]; unfold ret, state_of, result_of; cbn [fst snd].
  - split; [congruence|]. split; [congruence|].
    intros wrapper [= <-]. exists compiled, rule_names.
    repeat split. now intros H. now intros _.
  - split; [congruence|]. split; [congruence|]. intros ? ?; discriminate.
Qed.

Lemma load_run_returned (grammar : Grammar) (go : nat) (evs : list event)
    (wrapper : GrammarWrapper) (compiled : string)
    (rule_names : gmap string nat) :
  load_run grammar go evs (Return wrapper) ->
  compile_grammar grammar = Return (compiled, rule_names) ->
  rule_names <> ∅ ->
  (load go compiled (all_results_of grammar) false, None) ∈ evs.
Proof.
  intros H Hc Hne. revert Hc.
  inversion H; subst;
    match goal with
    | Hx : compile_grammar grammar = _ |- _ => rewrite Hx
    end;
    intros Heq; injection Heq as Hx1 Hx2; subst.
  - now destruct Hne.
  - apply elem_of_app. right. apply in_head.
  - apply elem_of_app. right. do 2 apply in_tail.
    apply elem_of_app. right. apply in_head.
Qed.

(** X12.  A [_load_grammar] that returns hands back a new session for the
    grammar, with the grammar object it created, the rule names of the
    compiler, an empty active set, window 0 and no begin phase.  The engine
    does not keep the session itself: its sessions and its retain
    directory are as before.  For a grammar with rules natlink has
    accepted a [load] call and the engine has its keep-alive thread; for a
    grammar without rules the engine is left as it was. *)
Theorem load_grammar_returns_new_session
    (grammar : Grammar) (self : NatlinkEngine) (w : world)
    (wrapper : GrammarWrapper) :
  let run := _load_grammar grammar self w in
  let go := next_object w in
  let evs := new_events w (world_of run) in
  result_of run = Return wrapper ->
  exists compiled rule_names,
    compile_grammar grammar = Return (compiled, rule_names)
    /\ wrapper = mkGrammarWrapper grammar go (Some rule_names) ∅ 0 false
    /\ _grammar_wrappers (state_of run) = _grammar_wrappers self
    /\ _retain_dir (state_of run) = _retain_dir self
    /\ (rule_names = ∅ -> state_of run = self)
    /\ (rule_names <> ∅ ->
        _timer_thread (state_of run) <> None
        /\ (load go compiled (all_results_of grammar) false, None) ∈ evs).
Proof.
  cbv zeta. intros Hret.
  destruct (load_grammar_state grammar self w) as (Hg & Hr & Hw).
  destruct (Hw wrapper Hret) as (compiled & rule_names & Hc & -> & He & Ht).
  exists compiled, rule_names.
  split; [exact Hc|]. split; [reflexivity|]. split; [exact Hg|].
  split; [exact Hr|]. split; [exact He|]. intros Hne.
  split; [now apply Ht|].
  pose proof (load_grammar_run grammar self w) as Hrun. cbv zeta in Hrun.
  rewrite Hret in Hrun.
  exact (load_run_returned _ _ _ _ _ _ Hrun Hc Hne).
Qed.

(** ** [update_list] *)

Lemma appended_cons (go : nat) (n word : string) (evs : list event) :
  appended ((appendList go n word, None) :: evs) = word :: appended evs.
Proof. reflexivity. Qed.

Lemma append_loop_partial (go : nat) (n : string) (items acc : list string)
    (self : NatlinkEngine) (w : world) :
  native_lists w !! (go, n) = Some acc ->
  let run := for_each items
               (fun word => extern (appendList go n word)
                              (append_word go n word)) self w in
  state_of run = self
  /\ exists evs,
       trace (world_of run) = (trace w ++ evs)%list
       /\ native_lists (world_of run) !! (go, n) =
            Some (acc ++ appended evs)%list
       /\ appended evs `prefix_of` items
       /\ (result_of run = Return tt -> appended evs = items)
       /\ (forall e, result_of run = Raise e ->
             (length (appended evs) < length items)%nat).
Proof.
  cbv zeta. revert acc w. induction items as [|word items IH]; intros acc w Hacc.
  { cbn [for_each]. unfold ret, state_of, world_of, result_of. cbn [fst snd].
    split; [reflexivity|]. exists []. rewrite !app_nil_r.
    split; [reflexivity|]. split; [exact Hacc|].
    split; [now exists []|]. split; [reflexivity | discriminate]. }
  rewrite for_each_cons, extern_run.
  destruct (env (trace w) (appendList go n word)) as [e|].
  { unfold state_of, world_of, result_of. cbn [fst snd].
    split; [reflexivity|]. eexists [_]. split; [reflexivity|].
    cbn [appended omap list_omap native_lists set_trace]. rewrite app_nil_r.
    split; [exact Hacc|]. split; [now eexists|].
    split; [discriminate|]. intros _ _. cbn. lia. }
  set (w1 := append_word go n word _).
  assert (Hacc1 : native_lists w1 !! (go, n) = Some (acc ++ [word])%list).
  { unfold w1, append_word. cbn [native_lists set_native_lists set_trace].
    rewrite Hacc. apply lookup_insert_eq. }
  destruct (IH (acc ++ [word])%list w1 Hacc1)
    as (Hs & evs & Ht & Hl & Hp & Hr & Hf).
  split; [exact Hs|]. exists ((appendList go n word, None) :: evs).
  rewrite appended_cons. split.
  { rewrite Ht. unfold w1, append_word. cbn [trace set_native_lists set_trace].
    now rewrite <- app_assoc. }
  split; [rewrite Hl; now rewrite <- app_assoc|].
  split; [now apply prefix_cons|].
  split; [intros H; now rewrite (Hr H)|].
  intros e He. specialize (Hf e He). cbn. lia.
Qed.

(** X13.  [update_list] for a grammar that is not loaded does nothing.
    For a loaded grammar, when natlink refuses to empty the list nothing
    else is asked and the native list is left alone.  Once the list has
    been emptied the native list holds the words natlink has accepted so
    far, a prefix of the new items and never an old word, also when a
    later [appendList] fails; the method returns exactly when all items
    are in. *)
Theorem update_list_never_keeps_old_words
    (lst : ListBase) (grammar : Grammar) (self : NatlinkEngine) (w : world) :
  let run := update_list lst grammar self w in
  let n := list_name lst in
  let items := get_list_items lst in
  let evs := new_events w (world_of run) in
  (_grammar_wrappers self !! grammar_id grammar = None ->
   run = (Return tt, self, w))
  /\ (forall wrapper,
        _grammar_wrappers self !! grammar_id grammar = Some wrapper ->
        let go := grammar_object wrapper in
        (forall e, env (trace w) (emptyList go n) = Some e ->
           run = (Raise e, self,
                  set_trace (trace w ++ [(emptyList go n, Some e)])%list w))
        /\ (env (trace w) (emptyList go n) = None ->
            native_lists (world_of run) !! (go, n) = Some (appended evs)
            /\ appended evs `prefix_of` items
            /\ (result_of run = Return tt <-> appended evs = items))).
Proof.
  cbv zeta. unfold update_list, _get_grammar_wrapper.
  rewrite bind_bind, bind_get, bind_ret.
  destruct (_grammar_wrappers self !! grammar_id grammar) as [wrapper|].
  2:{ split; [reflexivity | discriminate]. }
  split; [discriminate|]. intros wrapper' [= <-].
  rewrite bind_extern.
  destruct (env (trace w) (emptyList _ _)) as [e|].
  { split; [now intros e' [= <-] | discriminate]. }
  split; [discriminate|]. intros _.
  set (go := grammar_object wrapper). set (n := list_name lst).
  set (w1 := empty_list go n _).
  assert (H1 : native_lists w1 !! (go, n) = Some []).
  { unfold w1, empty_list. cbn [native_lists set_native_lists].
    apply lookup_insert_eq. }
  destruct (append_loop_partial go n (get_list_items lst) [] self w1 H1)
    as (_ & evs & Ht & Hl & Hp & Hr & Hf).
  cbv zeta in Ht, Hl, Hr, Hf.
  rewrite (new_events_app w _ ((emptyList go n, None) :: evs)).
  2:{ rewrite Ht. unfold w1, empty_list. cbn [trace set_native_lists set_trace].
      now rewrite <- app_assoc. }
  change (appended ((emptyList go n, None) :: evs)) with (appended evs).
  split; [exact Hl|]. split; [exact Hp|]. split; [exact Hr|].
  intros Hall.
  destruct (result_of (for_each _ _ self w1)) as [[]|e] eqn:Hres;
    [reflexivity|].
  specialize (Hf e eq_refl). rewrite Hall in Hf. lia.
Qed.

(** ** [mimic] *)

Lemma append_empty (s : string) : s +:+ "" = s.
Proof.
  induction s as [|c s IH]; [reflexivity|].
  change (String c s +:+ "") with (String c (s +:+ "")). now rewrite IH.
Qed.

Lemma append_assoc (a b c : string) : (a +:+ b) +:+ c = a +:+ (b +:+ c).
Proof.
  induction a as [|x a IH]; [reflexivity|].
  change (String x ((a +:+ b) +:+ c) = String x (a +:+ (b +:+ c))).
  now rewrite IH.
Qed.

Lemma split_from_token (isspace : ascii -> bool) (t cur s : string) :
  whitespace_only (fun c => negb (isspace c)) t = true ->
  split_from isspace cur (t +:+ s) = split_from isspace (cur +:+ t) s.
Proof.
  revert cur. induction t as [|c t IH]; intros cur Ht.
  { now rewrite append_empty. }
  unfold whitespace_only in Ht. cbn in Ht.
  apply andb_true_iff in Ht as [Hc Ht].
  change (String c t +:+ s) with (String c (t +:+ s)). cbn [split_from].
  apply negb_true_iff in Hc. rewrite Hc, (IH _ Ht), append_assoc.
  reflexivity.
Qed.

Lemma split_from_end (isspace : ascii -> bool) (cur : string) :
  cur <> "" -> split_from isspace cur "" = [cur].
Proof.
  intros H. cbn. now destruct (String.eqb_spec cur "").
Qed.

Lemma split_from_space (isspace : ascii -> bool) (cur s : string) (c : ascii) :
  cur <> "" -> isspace c = true ->
  split_from isspace cur (String c s) = cur :: split_from isspace "" s.
Proof.
  intros H Hc. cbn. rewrite Hc. now destruct (String.eqb_spec cur "").
Qed.

Lemma split_join (tokens : list string) :
  Forall is_token tokens -> split text_isspace (join " " tokens) = tokens.
Proof.
  unfold split, join. induction 1 as [|t rest [Hne Ht] Hrest IH];
    [reflexivity|].
  destruct rest as [|t2 rest].
  { cbn [String.concat]. rewrite <- (append_empty t) at 1.
    rewrite split_from_token by exact Ht. now apply split_from_end. }
  change (String.concat " " (t :: t2 :: rest))
    with (t +:+ String " " (String.concat " " (t2 :: rest))).
  rewrite split_from_token by exact Ht.
  change ("" +:+ t) with t.
  rewrite split_from_space by (exact Hne || reflexivity).
  now rewrite IH.
Qed.

(** X14.  [mimic] of a sentence is [mimic] of its words: for words that are
    not empty and hold no whitespace, the string of the words joined by
    single spaces and the list of the words end in the same way, with the
    same call and the same message. *)
Theorem mimic_sentence_is_its_words
    (tokens : list string) (self : NatlinkEngine) (w : world) :
  Forall is_token tokens ->
  mimic (words_value (PText (join " " tokens))) self w =
    mimic (words_seq (PText <$> tokens)) self w.
Proof.
  intros H. rewrite !mimic_run. cbv zeta.
  cbn [is_string split_words]. now rewrite (split_join tokens H).
Qed.

Lemma prepare_py2 (ws prepared_words : list pyval) :
  PY2 = true ->
  prepare ws = Return prepared_words ->
  Forall (fun v => is_text v = false) prepared_words.
Proof.
  intros Hpy. revert prepared_words.
  induction ws as [|word ws IH]; intros prepared_words Hp; cbn in Hp.
  { injection Hp as <-. constructor. }
  rewrite Hpy in Hp.
  destruct (prepare ws) as [rest|e].
  2:{ destruct word as [s| | |]; try discriminate.
      now destruct (encode s). }
  specialize (IH rest eq_refl).
  destruct word as [s|b|z|].
  - destruct (encode s) as [b|e]; [|discriminate].
    injection Hp as <-. now constructor.
  - injection Hp as <-. now constructor.
  - injection Hp as <-. now constructor.
  - injection Hp as <-. now constructor.
Qed.

(** X15.  What [mimic] hands to natlink: it never changes the engine and
    makes at most one call, [recognitionMimic], whose word list is never
    empty; on Python 2 the list holds no text word (each one has been
    encoded), on Python 3 it is the items of [words] as they are. *)
Theorem mimic_hands_over_prepared_words
    (words : words_arg) (self : NatlinkEngine) (w : world) :
  let run := mimic words self w in
  let evs := new_events w (world_of run) in
  state_of run = self
  /\ (length evs <= 1)%nat
  /\ forall c o, (c, o) ∈ evs ->
       exists prepared_words,
         c = recognitionMimic prepared_words
         /\ prepared_words <> []
         /\ (PY2 = true ->
             Forall (fun v => is_text v = false) prepared_words)
         /\ (PY2 = false ->
             iterate (if is_string words then split_words words else words) =
               Return prepared_words).
Proof.
  cbv zeta. rewrite mimic_run. cbv zeta.
  set (words' := if is_string words then split_words words else words).
  destruct (prepared_words_of words') as [prepared_words|e] eqn:Hp.
  2:{ unfold state_of, world_of. cbn [fst snd]. rewrite new_events_same.
      split; [reflexivity|]. split; [cbn; lia|].
      intros c o Hin. now apply elem_of_nil in Hin. }
  unfold state_of, world_of. cbn [fst snd].
  rewrite (new_events_app w _ [(recognitionMimic prepared_words,
                                env (trace w)
                                  (recognitionMimic prepared_words))])
    by reflexivity.
  split; [reflexivity|]. split; [cbn; lia|].
  intros c o Hin. apply list_elem_of_singleton in Hin. injection Hin as -> ->.
  exists prepared_words. split; [reflexivity|].
  unfold prepared_words_of in Hp.
  destruct (iterate words') as [ws|e] eqn:Hi; [|discriminate].
  destruct (prepare ws) as [pw|e] eqn:Hpw; [|discriminate].
  destruct (length pw =? 0)%nat eqn:Hlen; [discriminate|].
  injection Hp as <-. split.
  { intros ->. discriminate Hlen. }
  split.
  - intros Hpy. exact (prepare_py2 ws pw Hpy Hpw).
  - intros Hpy. rewrite (prepare_py3 ws Hpy) in Hpw. now injection Hpw as <-.
Qed.

(** ** [disconnect] and the dialog of natlink *)

Lemma close_dialog_closes (windows : list Window) (self : NatlinkEngine)
    (w : world) (win : Window) (o : option exn) :
  (Window_close win, o) ∈ new_events w (world_of (close_dialog windows self w)) ->
  win ∈ windows /\ is_visible win = true /\ win_pid win = getpid w.
Proof.
  induction windows as [|window rest IH]; cbn [close_dialog].
  { unfold world_of, ret. cbn [fst snd]. rewrite new_events_same.
    intros H. now apply elem_of_nil in H. }
  rewrite bind_get_world.
  destruct (is_visible window && (win_pid window =? getpid w)%Z) eqn:Hown.
  2:{ intros H. destruct (IH H) as (Hin & Hv & Hp).
      split; [now apply in_tail | now split]. }
  apply andb_true_iff in Hown as [Hv Hp]. apply Z.eqb_eq in Hp.
  rewrite try_except_run, native_run.
  destruct (env (trace w) (Window_close window)) as [e|] eqn:E;
    [destruct (is_PyWinError e)|]; unfold ret, world_of; cbn [fst snd];
    (erewrite new_events_app by reflexivity);
    intros H; apply list_elem_of_singleton in H; injection H as -> _;
    (split; [apply in_head | now split]).
Qed.

Lemma not_closing (s : step) (evs : list event) (win : Window)
    (o : option exn) :
  in_step s evs -> s <> close_window -> (Window_close win, o) ∉ evs.
Proof.
  intros Hstep Hs Hin. unfold in_step in Hstep.
  rewrite Forall_forall in Hstep. specialize (Hstep _ Hin).
  cbn in Hstep. congruence.
Qed.

(** X16.  The only window [disconnect] ever closes is a window of the
    desktop that carries the title of natlink's dialog, is visible and
    belongs to this process; windows of other processes and hidden windows
    are never closed. *)
Theorem disconnect_closes_only_own_dialog
    (self : NatlinkEngine) (w : world) (win : Window) (o : option exn) :
  (Window_close win, o) ∈ new_events w (world_of (disconnect self w)) ->
  win ∈ desktop w
  /\ title_matches dialog_title win = true
  /\ is_visible win = true
  /\ win_pid win = getpid w.
Proof.
  unfold disconnect. rewrite bind_get, bind_run.
  destruct (unload_loop_events (grammars self) self w)
    as (_ & _ & evs1 & Ht1 & Hstep1 & _).
  destruct (unload_loop_desktop (grammars self) self w) as [Hd Hp].
  destruct (for_each (grammars self) Grammar_unload self w) as [[r1 s1] w1].
  unfold world_of in Ht1, Hd, Hp. cbn [fst snd] in Ht1, Hd, Hp.
  assert (Hno1 : (Window_close win, o) ∉ evs1)
    by now apply (not_closing unload_grammars).
  destruct r1 as [[]|e].
  2:{ unfold world_of. cbn [fst snd].
      now rewrite (new_events_app w w1 evs1 Ht1). }
  rewrite bind_get_world, bind_run.
  pose proof (close_dialog_closes
                (get_matching_windows "Natlink / Python Subsystem" w1)
                s1 w1 win o) as Hclose.
  destruct (close_dialog_events
              (get_matching_windows "Natlink / Python Subsystem" w1) s1 w1)
    as (_ & evs2 & Ht2 & _).
  rewrite (new_events_app w1 _ evs2 Ht2) in Hclose.
  assert (Hown : (Window_close win, o) ∈ evs2 ->
                 win ∈ desktop w
                 /\ title_matches dialog_title win = true
                 /\ is_visible win = true
                 /\ win_pid win = getpid w).
  { intros H. destruct (Hclose H) as (Hin & Hv & Hpid).
    unfold get_matching_windows in Hin.
    apply list_elem_of_filter in Hin as [Htitle Hin].
    rewrite Hd in Hin. rewrite Hp in Hpid. now repeat split. }
  clear Hclose.
  destruct (close_dialog _ s1 w1) as [[r2 s2] w2].
  unfold world_of in Ht2. cbn [fst snd] in Ht2.
  destruct r2 as [[]|e].
  2:{ unfold world_of. cbn [fst snd].
      rewrite (new_events_app w w2 (evs1 ++ evs2))
        by (rewrite Ht2, Ht1; now rewrite <- app_assoc).
      intros H. apply elem_of_app in H as [H|H]; [now destruct Hno1|].
      now apply Hown. }
  rewrite bind_get, bind_run.
  destruct (stop_thread_events s2 w2)
    as (_ & _ & _ & evs3 & Ht3 & Hstep3 & _).
  cbv zeta in Ht3.
  assert (Hno3 : (Window_close win, o) ∉ evs3)
    by now apply (not_closing stop_thread).
  destruct (match _timer_thread s2 with
            | Some thread => _
            | None => ret tt
            end s2 w2) as [[r3 s3] w3].
  unfold world_of in Ht3. cbn [fst snd] in Ht3.
  destruct r3 as [[]|e].
  2:{ unfold world_of. cbn [fst snd].
      rewrite (new_events_app w w3 (evs1 ++ evs2 ++ evs3))
        by (rewrite Ht3, Ht2, Ht1; now rewrite <- !app_assoc).
      intros H. apply elem_of_app in H as [H|H]; [now destruct Hno1|].
      apply elem_of_app in H as [H|H]; [now apply Hown | now destruct Hno3]. }
  rewrite native_run. unfold world_of. cbn [fst snd].
  rewrite (new_events_app w _
             (evs1 ++ evs2 ++ evs3
              ++ [(natDisconnect, env (trace w3) natDisconnect)]))
    by (cbn [trace set_trace]; rewrite Ht3, Ht2, Ht1;
        now rewrite <- !app_assoc).
  intros H. apply elem_of_app in H as [H|H]; [now destruct Hno1|].
  apply elem_of_app in H as [H|H]; [now apply Hown|].
  apply elem_of_app in H as [H|H]; [now destruct Hno3|].
  apply list_elem_of_singleton in H. discriminate H.
Qed.

(** ** [_retain_audio] with audio *)

Local Ltac files_simpl :=
  cbn [files set_files set_trace set_logs];
  repeat first [ rewrite lookup_insert_eq
               | rewrite lookup_insert_ne by congruence ];
  cbn [default from_option app].

Local Ltac not_among :=
  let H := fresh "H" in
  intros H;
  repeat (apply elem_of_cons in H as [H|H]; [discriminate H|]);
  now apply elem_of_nil in H.

Lemma retain_audio_written
    (engine : NatlinkEngine) (words : list string) (results : Results)
    (rule_name : string) (self : GrammarWrapper) (w : world) :
  truthy (_retain_dir engine) = true ->
  retain_dir_of engine ∈ dirs w ->
  wave results <> [] ->
  let run := _retain_audio engine words results rule_name self w in
  let evs := new_events w (world_of run) in
  let wav_path := wav_path_of engine w in
  let tsv_path := tsv_path_of engine in
  let record := retain_record self words results rule_name w in
  wav_path <> tsv_path ->
  forallb accepted evs = true ->
  evs.*1 = [getWave; file_open wav_path mode_wb;
            file_write wav_path (wave results);
            file_open tsv_path mode_a; file_write tsv_path record]
  /\ files (world_of run) !! wav_path = Some (wave results)
  /\ files (world_of run) !! tsv_path =
       Some (default [] (files w !! tsv_path) ++ record)%list
  /\ (forall path, path <> wav_path -> path <> tsv_path ->
        files (world_of run) !! path = files w !! path)
  /\ new_logs w (world_of run) = [].
Proof.
  intros Htruthy Hdir Haudio. cbv zeta. intros Hpaths.
  unfold wav_path_of, tsv_path_of, retain_record, wav_name in *.
  unfold _retain_audio.
  fold (retain_dir_of engine). rewrite bind_get_world, Htruthy.
  rewrite (bool_decide_eq_true_2 _ Hdir). cbn [negb andb].
  rewrite try_except_run. unfold results_getWave.
  rewrite bind_bind, bind_native.
  destruct (env (trace w) getWave) as [e|].
  { unfold log. retain_simpl. discriminate. }
  rewrite bind_ret.
  destruct (wave results) as [|b audio] eqn:Hwave; [now destruct Haudio|].
  cbn [length Nat.ltb Nat.leb]. rewrite bind_get_world.
  unfold open_file, write_file. rewrite bind_extern.
  cbn [now set_trace].
  match goal with |- context [env ?h (file_open ?p mode_wb)] =>
    destruct (env h (file_open p mode_wb)) as [e|] end.
  { unfold log. retain_simpl. discriminate. }
  rewrite bind_extern.
  match goal with |- context [env ?h (file_write ?p ?d)] =>
    destruct (env h (file_write p d)) as [e|] end.
  { unfold log. retain_simpl. discriminate. }
  rewrite bind_get, bind_extern.
  match goal with |- context [env ?h (file_open ?p mode_a)] =>
    destruct (env h (file_open p mode_a)) as [e|] end.
  { unfold log. retain_simpl. discriminate. }
  rewrite extern_run.
  match goal with |- context [env ?h (file_write ?p ?d)] =>
    destruct (env h (file_write p d)) as [e|] end.
  { unfold log. retain_simpl. discriminate. }
  retain_simpl. intros _. split; [reflexivity|].
  split; [now files_simpl|]. split; [now files_simpl|].
  split; [|reflexivity]. intros path H1 H2. now files_simpl.
Qed.

(** X17.  With a retain directory that exists, audio in the result and
    every call accepted, [_retain_audio] writes the wave into a new
    [retain_<time>.wav] of the directory and appends one record to
    [retain.tsv], keeping what the file held; no other file changes and
    nothing is logged. *)
Theorem retain_audio_writes_wave_and_record
    (engine : NatlinkEngine) (words : list string) (results : Results)
    (rule_name : string) (self : GrammarWrapper) (w : world) :
  truthy (_retain_dir engine) = true ->
  retain_dir_of engine ∈ dirs w ->
  wave results <> [] ->
  let run := _retain_audio engine words results rule_name self w in
  let evs := new_events w (world_of run) in
  let wav_path := wav_path_of engine w in
  let tsv_path := tsv_path_of engine in
  let record := retain_record self words results rule_name w in
  wav_path <> tsv_path ->
  forallb accepted evs = true ->
  evs.*1 = [getWave; file_open wav_path mode_wb;
            file_write wav_path (wave results);
            file_open tsv_path mode_a; file_write tsv_path record]
  /\ files (world_of run) !! wav_path = Some (wave results)
  /\ files (world_of run) !! tsv_path =
       Some (default [] (files w !! tsv_path) ++ record)%list
  /\ (forall path, path <> wav_path -> path <> tsv_path ->
        files (world_of run) !! path = files w !! path)
  /\ new_logs w (world_of run) = [].
Proof.
  exact (retain_audio_written engine words results rule_name self w).
Qed.

(** X18.  [retain.tsv] is opened only after the wave has been written:
    whenever [_retain_audio] opens it, also when opening or appending then
    fails, the wave file of the utterance holds the audio of the result. *)
Theorem retain_audio_record_follows_wave
    (engine : NatlinkEngine) (words : list string) (results : Results)
    (rule_name : string) (self : GrammarWrapper) (w : world)
    (o : option exn) :
  let run := _retain_audio engine words results rule_name self w in
  let wav_path := wav_path_of engine w in
  let tsv_path := tsv_path_of engine in
  wav_path <> tsv_path ->
  (file_open tsv_path mode_a, o) ∈ new_events w (world_of run) ->
  wave results <> []
  /\ files (world_of run) !! wav_path = Some (wave results)
  /\ (file_write wav_path (wave results), None) ∈ new_events w (world_of run).
Proof.
  cbv zeta. intros Hpaths.
  destruct (truthy (_retain_dir engine)) eqn:Htruthy.
  2:{ rewrite retain_audio_disabled by exact Htruthy.
      unfold world_of. cbn [fst snd]. rewrite new_events_same. not_among. }
  destruct (decide (retain_dir_of engine ∈ dirs w)) as [Hdir|Hdir].
  2:{ rewrite retain_audio_no_directory by assumption.
      unfold world_of. cbn [fst snd]. rewrite new_events_set_logs.
      not_among. }
  unfold wav_path_of, tsv_path_of, wav_name in *.
  unfold _retain_audio.
  fold (retain_dir_of engine). rewrite bind_get_world, Htruthy.
  rewrite (bool_decide_eq_true_2 _ Hdir). cbn [negb andb].
  rewrite try_except_run. unfold results_getWave.
  rewrite bind_bind, bind_native.
  destruct (env (trace w) getWave) as [e|].
  { unfold log. retain_simpl. not_among. }
  rewrite bind_ret.
  destruct (wave results) as [|b audio] eqn:Hwave.
  { cbn [length Nat.ltb Nat.leb]. rewrite ret_run. retain_simpl. not_among. }
  cbn [length Nat.ltb Nat.leb]. rewrite bind_get_world.
  unfold open_file, write_file. rewrite bind_extern.
  cbn [now set_trace].
  match goal with |- context [env ?h (file_open ?p mode_wb)] =>
    destruct (env h (file_open p mode_wb)) as [e|] end.
  { unfold log. retain_simpl. not_among. }
  rewrite bind_extern.
  match goal with |- context [env ?h (file_write ?p ?d)] =>
    destruct (env h (file_write p d)) as [e|] end.
  { unfold log. retain_simpl. not_among. }
  rewrite bind_get, bind_extern.
  match goal with |- context [env ?h (file_open ?p mode_a)] =>
    destruct (env h (file_open p mode_a)) as [e|] end.
  { unfold log. retain_simpl. intros _. split; [discriminate|].
    split; [now files_simpl|]. do 2 apply in_tail. apply in_head. }
  rewrite extern_run.
  match goal with |- context [env ?h (file_write ?p ?d)] =>
    destruct (env h (file_write p d)) as [e|] end.
  { unfold log. retain_simpl. intros _. split; [discriminate|].
    split; [now files_simpl|]. do 2 apply in_tail. apply in_head. }
  retain_simpl. intros _. split; [discriminate|].
  split; [now files_simpl|]. do 2 apply in_tail. apply in_head.
Qed.

(** ** [set_retain_directory] and [__init__] *)

Lemma set_retain_directory_run (retain_dir : pyval) (self : NatlinkEngine)
    (w : world) :
  set_retain_directory retain_dir self w =
    match resolved_retain_dir retain_dir with
    | Return d => (Return tt, set_retain_dir d self, w)
    | Raise e => (Raise e, self, w)
    end.
Proof.
  unfold set_retain_directory, resolved_retain_dir, invalid_retain_dir.
  fold running_via_natspeak.
  destruct retain_dir as [s|b|z|]; cbn [is_string negb orb path_of];
    try reflexivity.
  - destruct (negb (isabs s) && running_via_natspeak); [|reflexivity].
    unfold bind at 1 2. unfold lift_result.
    destruct getUserDirectory as [user_dir|e]; [|reflexivity].
    unfold ret at 1. destruct (truthy user_dir); [reflexivity|].
    unfold bind at 1. now destruct BaseDirectory.
  - destruct PY2; cbn [negb]; [|reflexivity].
    destruct (negb (isabs b) && running_via_natspeak); [|reflexivity].
    unfold bind at 1 2. unfold lift_result.
    destruct getUserDirectory as [user_dir|e]; [|reflexivity].
    unfold ret at 1. destruct (truthy user_dir); [reflexivity|].
    unfold bind at 1. now destruct BaseDirectory.
Qed.


(** X20.  [set_retain_directory(None)] switches retention off, whatever
    the directory was before: the next [_retain_audio] makes no call,
    writes no file and logs nothing.  An absolute path that is not a
    directory gives one warning that names the path and nothing else. *)
Theorem set_retain_directory_switches_retention
    (old : NatlinkEngine) (w0 : world) (words : list string)
    (results : Results) (rule_name : string) (self : GrammarWrapper)
    (w : world) :
  let off := state_of (set_retain_directory PNone old w0) in
  _retain_audio off words results rule_name self w = (Return tt, self, w)
  /\ (forall path,
        isabs path = true -> path <> "" -> path ∉ dirs w ->
        let on := state_of (set_retain_directory (PText path) old w0) in
        _retain_audio on words results rule_name self w =
          (Return tt, self,
           set_logs (logs w ++ [not_a_directory_warning path])%list w)).
Proof.
  cbv zeta. rewrite !set_retain_directory_run. cbn [resolved_retain_dir].
  unfold state_of. cbn [fst snd]. split.
  { now apply retain_audio_disabled. }
  intros path Habs Hne Hdir. rewrite set_retain_directory_run.
  unfold resolved_retain_dir. cbn [is_string path_of]. rewrite Habs.
  cbn [negb andb fst snd].
  rewrite retain_audio_no_directory; [reflexivity | | exact Hdir].
  cbn [_retain_dir set_retain_dir truthy].
  now destruct (String.eqb_spec path "").
Qed.

(** X21.  The audio of an utterance goes to the directory that was given to
    [set_retain_directory]: for an absolute path that is a directory, a
    result with audio and calls that are all accepted, the wave is in
    [retain_<time>.wav] of that directory and [retain.tsv] of that
    directory has one more record. *)
Theorem retained_audio_goes_to_set_directory
    (path : string) (old : NatlinkEngine) (w0 : world) (words : list string)
    (results : Results) (rule_name : string) (self : GrammarWrapper)
    (w : world) :
  isabs path = true -> path <> "" -> path ∈ dirs w -> wave results <> [] ->
  let engine := state_of (set_retain_directory (PText path) old w0) in
  let run := _retain_audio engine words results rule_name self w in
  let wav_path := path_join path (wav_name w) in
  let tsv_path := path_join path "retain.tsv" in
  wav_path <> tsv_path ->
  forallb accepted (new_events w (world_of run)) = true ->
  _retain_dir engine = Some path
  /\ files (world_of run) !! wav_path = Some (wave results)
  /\ files (world_of run) !! tsv_path =
       Some (default [] (files w !! tsv_path)
             ++ retain_record self words results rule_name w)%list.
Proof.
  intros Habs Hne Hdir Haudio. cbv zeta.
  rewrite set_retain_directory_run.
  unfold resolved_retain_dir. cbn [is_string path_of]. rewrite Habs.
  cbn [negb andb]. unfold state_of. cbn [fst snd].
  set (engine := set_retain_dir (Some path) old).
  intros Hpaths Hall.
  assert (Htruthy : truthy (_retain_dir engine) = true).
  { cbn. now destruct (String.eqb_spec path ""). }
  destruct (retain_audio_written engine words results rule_name self w
              Htruthy Hdir Haudio Hpaths Hall) as (_ & Hwav & Htsv & _).
  split; [reflexivity|]. split; [exact Hwav | exact Htsv].
Qed.


End Adapter.

(** * The properties at concrete inputs *)

Local Ltac in_set := apply (bool_decide_unpack _); vm_compute; exact I.
Local Ltac not_in_set :=
  apply (bool_decide_unpack _); vm_compute; exact I.

Lemma deactivate_rule_removes_then_deactivates_witness :
  let run_a := deactivate_rule env_accept "a" (wrapper_a grammar_quiet) world0 in
  let run_b := deactivate_rule env_accept "b" (wrapper_a grammar_quiet) world0 in
  ("a" ∈ active_rules_set (wrapper_a grammar_quiet)
   /\ new_events world0 (world_of run_a) = [(deactivate 7 "a", None)]
   /\ result_of run_a = Return tt)
  /\ (("b" ∉ active_rules_set (wrapper_a grammar_quiet))
      /\ run_b = (Raise (KeyError "b"), wrapper_a grammar_quiet, world0)).
Proof.
  cbv zeta.
  assert (Ha : "a" ∈ active_rules_set (wrapper_a grammar_quiet)) by in_set.
  assert (Hb : "b" ∉ active_rules_set (wrapper_a grammar_quiet)) by not_in_set.
  split.
  - split; [exact Ha|].
    destruct (proj1 (deactivate_rule_removes_then_deactivates env_accept "a"
                       (wrapper_a grammar_quiet) world0) Ha)
      as (_ & _ & Hev & _ & Hres).
    split; [exact Hev | exact Hres].
  - split; [exact Hb|].
    exact (proj2 (deactivate_rule_removes_then_deactivates env_accept "b"
                    (wrapper_a grammar_quiet) world0) Hb).
Defined.

(** The handler asks for rule "b" and drops rule "a" during the begin
    phase; afterwards "b", and only "b", is activated for window 1234.
    With a handler that keeps "a" and adds "b" while "a" is active in
    natlink, going through the set from its end: "b" is activated, the
    activation of "a" is refused and [begin_callback] ends with
    [AttributeError]. *)
Lemma begin_callback_defers_then_replays_witness :
  let phase := begin_phase env_natlink decode_latin1 module_info0
                 (wrapper_a grammar_ab) world0 in
  let run := begin_callback env_natlink decode_latin1 iter_sorted module_info0
               (wrapper_a grammar_ab) world0 in
  let replay := new_events (world_of phase) (world_of run) in
  let phase' := begin_phase env_natlink decode_latin1 module_info0
                  (wrapper_a grammar_adds_b) world_a_active in
  let run' := begin_callback env_natlink decode_latin1 iter_reversed
                module_info0 (wrapper_a grammar_adds_b) world_a_active in
  let replay' := new_events (world_of phase') (world_of run') in
  (iterates_elements iter_sorted
   /\ result_of phase = Return tt
   /\ result_of run = Return tt
   /\ "b" ∈ active_rules_set (state_of phase)
   /\ replay = [(activate 7 "b" 1234, None)]
   /\ accepted_activations 7 "b" 1234 replay = 1%nat)
  /\ (iterates_elements iter_reversed
      /\ result_of phase' = Return tt
      /\ result_of run' = Raise no_natlink_attribute
      /\ exists asked rule refusal rest,
           iter_reversed (active_rules_set (state_of phase')) =
             (asked ++ rule :: rest)%list
           /\ replay' =
                (((fun rule => (activate 7 rule 1234, None)) <$> asked)
                 ++ [(activate 7 rule 1234, Some refusal)])%list
           /\ accepted_activations 7 rule 1234 replay' = 0%nat).
Proof.
  cbv zeta.
  assert (iter_sorted_iterates : iterates_elements iter_sorted)
    by (intros S; reflexivity).
  assert (iter_reversed_iterates : iterates_elements iter_reversed)
    by (intros S; apply reverse_Permutation).
  split.
  - assert (Hphase : result_of (begin_phase env_natlink decode_latin1
                                  module_info0 (wrapper_a grammar_ab) world0)
                     = Return tt) by (vm_compute; reflexivity).
    assert (Hrun : result_of (begin_callback env_natlink decode_latin1
                                iter_sorted module_info0 (wrapper_a grammar_ab)
                                world0) = Return tt)
      by (vm_compute; reflexivity).
    assert (Hin : "b" ∈ active_rules_set
                    (state_of (begin_phase env_natlink decode_latin1
                                 module_info0 (wrapper_a grammar_ab) world0)))
      by in_set.
    split; [exact iter_sorted_iterates|].
    split; [exact Hphase|]. split; [exact Hrun|]. split; [exact Hin|].
    destruct (begin_callback_defers_then_replays env_natlink decode_latin1
                iter_sorted module_info0 (wrapper_a grammar_ab) world0
                iter_sorted_iterates) as (_ & _ & H).
    destruct (H Hphase) as (_ & _ & _ & _ & Hreturned & _).
    destruct (Hreturned Hrun) as [Hreplay Hone].
    split; [|exact (Hone "b" Hin)].
    rewrite Hreplay. vm_compute. reflexivity.
  - assert (Hphase : result_of (begin_phase env_natlink decode_latin1
                                  module_info0 (wrapper_a grammar_adds_b)
                                  world_a_active) = Return tt)
      by (vm_compute; reflexivity).
    assert (Hrun : result_of (begin_callback env_natlink decode_latin1
                                iter_reversed module_info0
                                (wrapper_a grammar_adds_b) world_a_active)
                   = Raise no_natlink_attribute)
      by (vm_compute; reflexivity).
    split; [exact iter_reversed_iterates|].
    split; [exact Hphase|]. split; [exact Hrun|].
    destruct (begin_callback_defers_then_replays env_natlink decode_latin1
                iter_reversed module_info0 (wrapper_a grammar_adds_b)
                world_a_active iter_reversed_iterates) as (_ & _ & H).
    destruct (H Hphase) as (_ & _ & _ & _ & _ & Hraised & _).
    destruct (Hraised _ Hrun)
      as (_ & asked & rule & refusal & rest & Horder & Hreplay & _ & Hnone & _).
    exists asked, rule, refusal, rest.
    split; [exact Horder|]. split; [exact Hreplay | exact Hnone].
Defined.

(** C1 fails of the code when natlink refuses an activation, as it does
    for a rule that is active already: rules "a" and "b" are in the active
    set when the flag is cleared and "a" is active in natlink for the
    previous window.  The replay asks once for "a"; the refusal is not
    followed by the deactivation and the second activation, but by
    [AttributeError]; "a" has no accepted activation for window 1234, "b"
    is not asked for at all, and [begin_callback] raises. *)
Lemma begin_callback_activation_refused :
  let phase := begin_phase env_natlink decode_latin1 module_info0
                 (wrapper_a grammar_adds_b) world_a_active in
  let run := begin_callback env_natlink decode_latin1 iter_sorted module_info0
               (wrapper_a grammar_adds_b) world_a_active in
  let replay := new_events (world_of phase) (world_of run) in
  result_of phase = Return tt
  /\ beginning (state_of phase) = false
  /\ iter_sorted (active_rules_set (state_of phase)) = ["a"; "b"]
  /\ replay = [(activate 7 "a" 1234, Some (NatError "rule is already active"))]
  /\ accepted_activations 7 "a" 1234 replay <> 1%nat
  /\ accepted_activations 7 "b" 1234 replay <> 1%nat
  /\ activation_calls 7 "b" 1234 replay = 0%nat
  /\ result_of run = Raise no_natlink_attribute.
Proof.
  cbv zeta. split; [vm_compute; reflexivity|].
  split; [vm_compute; reflexivity|].
  split; [vm_compute; reflexivity|].
  split; [vm_compute; reflexivity|].
  split; [vm_compute; discriminate|].
  split; [vm_compute; discriminate|].
  split; vm_compute; reflexivity.
Qed.

(** A grammar without rules is loaded without any [load] call. *)
Lemma load_grammar_without_rules_witness :
  let run := _load_grammar env_accept compile_nothing str_grammar_demo "natlink"
               grammar_quiet engine_new world0 in
  compile_nothing grammar_quiet = Return ("", ∅)
  /\ all_accepted (new_events world0 (world_of run))
  /\ loads (new_events world0 (world_of run)) = []
  /\ result_of run = Return (loaded_wrapper grammar_quiet 0 ∅).
Proof.
  cbv zeta.
  assert (Hc : compile_nothing grammar_quiet = Return ("", ∅)) by reflexivity.
  assert (Hall : all_accepted
                   (new_events world0
                      (world_of (_load_grammar env_accept compile_nothing
                                   str_grammar_demo "natlink" grammar_quiet
                                   engine_new world0)))).
  { vm_compute. repeat constructor. }
  split; [exact Hc|]. split; [exact Hall|].
  destruct (load_grammar_without_rules env_accept compile_nothing
              str_grammar_demo "natlink" grammar_quiet "" engine_new world0 Hc)
    as (Hloads & _ & _ & Hret).
  split; [exact Hloads | exact (Hret Hall)].
Defined.

(** natlink refuses the grammar: one [load], then [EngineError]; natlink
    cannot be connected: [load], [natConnect], [load] again, then
    [EngineError]. *)
Lemma load_grammar_connects_and_retries_once_witness :
  let refused := _load_grammar env_bad_grammar compile_hello str_grammar_demo
                   "natlink" grammar_quiet engine_new world0 in
  let retried := _load_grammar env_never_connected compile_hello
                   str_grammar_demo "natlink" grammar_quiet engine_new world0 in
  let c := load 0 "hello-grammar" false false in
  (loads (new_events world0 (world_of refused)) =
     [(c, Some (NatError "bad grammar format"))]
   /\ result_of refused =
        Raise (EngineError
                 "Failed to load grammar Grammar(quiet): bad grammar format."))
  /\ (loads (new_events world0 (world_of retried)) =
        [(c, Some (NatError not_connected_message));
         (c, Some (NatError not_connected_message))]
      /\ result_of retried =
           Raise (EngineError
                    (load_failure_message str_grammar_demo grammar_quiet
                       (NatError not_connected_message)))).
Proof.
  cbv zeta. split.
  - assert (Hl : loads (new_events world0
                          (world_of (_load_grammar env_bad_grammar compile_hello
                                       str_grammar_demo "natlink" grammar_quiet
                                       engine_new world0))) =
                 [(load 0 "hello-grammar" false false,
                   Some (NatError "bad grammar format"))])
      by (vm_compute; reflexivity).
    split; [exact Hl|].
    destruct (load_grammar_connects_and_retries_once env_bad_grammar
                compile_hello str_grammar_demo "natlink" grammar_quiet
                engine_new world0) as (_ & Hother & _).
    destruct (Hother _ _ _ Hl) as (_ & _ & Hr).
    + vm_compute. discriminate.
    + exact Hr.
  - assert (Hl : loads (new_events world0
                          (world_of (_load_grammar env_never_connected
                                       compile_hello str_grammar_demo "natlink"
                                       grammar_quiet engine_new world0))) =
                 [(load 0 "hello-grammar" false false,
                   Some (NatError not_connected_message));
                  (load 0 "hello-grammar" false false,
                   Some (NatError not_connected_message))])
      by (vm_compute; reflexivity).
    split; [exact Hl|].
    destruct (load_grammar_connects_and_retries_once env_never_connected
                compile_hello str_grammar_demo "natlink" grammar_quiet
                engine_new world0) as (_ & _ & Hretry).
    destruct (Hretry _ _ Hl) as (_ & _ & Honce & Hr).
    assert (Hothers : forall ev,
              ev ∈ new_events world0
                     (world_of (_load_grammar env_never_connected compile_hello
                                  str_grammar_demo "natlink" grammar_quiet
                                  engine_new world0)) ->
              is_load ev.1 = false -> accepted ev = true).
    { vm_compute. intros ev Hin.
      repeat (apply elem_of_cons in Hin as [->|Hin];
              [first [reflexivity | discriminate]|]).
      now apply elem_of_nil in Hin. }
    destruct (Honce Hothers) as [o2 _].
    exact (Hr not_connected_message eq_refl).
Defined.

(** A string of blanks fails, and so do words natlink has no rule for; a
    Python 2 byte string is split like a text, and a text is split and its
    words are encoded. *)
Lemma mimic_fails_without_words_or_match_witness :
  let run := mimic env_no_match encode_latin1 false repr_arg_demo
               repr_words_demo (words_value (PText "  hello   world "))
               engine_new world0 in
  let calls2 := fun words =>
    new_events world0
      (world_of (mimic env_accept encode_latin1 true repr_arg_demo
                   repr_words_demo words engine_new world0)) in
  (whitespace_only text_isspace "   " = true
   /\ (exists msg,
         mimic env_no_match encode_latin1 false repr_arg_demo repr_words_demo
           (words_value (PText "   ")) engine_new world0 =
           (Raise (MimicFailure msg), engine_new, world0))
   /\ new_events world0 (world_of run) =
        [(recognitionMimic [PText "hello"; PText "world"],
          Some (MimicFailed "mimic failed"))]
   /\ result_of run =
        Raise (MimicFailure "No matching rule found for words <words>."))
  /\ (whitespace_only bytes_isspace " hello  world" = false
      /\ calls2 (words_value (PBytes " hello  world")) =
           [(recognitionMimic [PBytes "hello"; PBytes "world"], None)]
      /\ Forall2 (fun t b => encode_latin1 t = Return b)
           (split text_isspace " hello  world") ["hello"; "world"]
      /\ calls2 (words_value (PText " hello  world")) =
           [(recognitionMimic [PBytes "hello"; PBytes "world"], None)]
      /\ whitespace_only bytes_isspace "  " = true
      /\ exists msg,
           mimic env_accept encode_latin1 true repr_arg_demo repr_words_demo
             (words_value (PBytes "  ")) engine_new world0 =
             (Raise (MimicFailure msg), engine_new, world0)).
Proof.
  cbv zeta. split.
  - destruct (mimic_fails_without_words_or_match env_no_match encode_latin1
                false repr_arg_demo repr_words_demo engine_new world0)
      as (Hspace & _ & _ & _ & Hwords & _).
    assert (Hs : whitespace_only text_isspace "   " = true) by reflexivity.
    split; [exact Hs|]. split; [eexists; exact (Hspace "   " Hs)|].
    assert (Hp : prepared_words_of encode_latin1 false
                   (if is_string false (words_value (PText "  hello   world "))
                    then split_words (words_value (PText "  hello   world "))
                    else words_value (PText "  hello   world ")) =
                 Return [PText "hello"; PText "world"])
      by (vm_compute; reflexivity).
    destruct (Hwords (words_value (PText "  hello   world "))
                [PText "hello"; PText "world"] Hp) as (_ & Hev & Hfail & _).
    split; [exact Hev|]. exact (Hfail "mimic failed" eq_refl).
  - destruct (mimic_fails_without_words_or_match env_accept encode_latin1
                true repr_arg_demo repr_words_demo engine_new world0)
      as (_ & _ & _ & _ & _ & _ & Hblank & _ & _ & Hbytes & Htext & _).
    assert (Hs : whitespace_only bytes_isspace " hello  world" = false)
      by reflexivity.
    assert (Ht : whitespace_only text_isspace " hello  world" = false)
      by reflexivity.
    assert (Henc : Forall2 (fun t b => encode_latin1 t = Return b)
                     (split text_isspace " hello  world") ["hello"; "world"])
      by (vm_compute; repeat constructor).
    assert (Hb : whitespace_only bytes_isspace "  " = true) by reflexivity.
    split; [exact Hs|].
    split; [exact (Hbytes " hello  world" eq_refl Hs)|].
    split; [exact Henc|].
    split; [exact (Htext " hello  world" ["hello"; "world"] eq_refl Ht Henc)|].
    split; [exact Hb|]. eexists. exact (Hblank "  " eq_refl Hb).
Defined.

(** The native list "colours" held "mauve"; it holds the two current items
    after the update. *)
Lemma update_list_replaces_native_list_witness :
  let run := update_list env_accept colours grammar_quiet engine_loaded world1 in
  _grammar_wrappers engine_loaded !! grammar_id grammar_quiet =
    Some (wrapper_a grammar_quiet)
  /\ native_lists world1 !! (7%nat, "colours") = Some ["mauve"]
  /\ result_of run = Return tt
  /\ native_lists (world_of run) !! (7%nat, "colours") = Some ["red"; "green"].
Proof.
  cbv zeta.
  assert (Hw : _grammar_wrappers engine_loaded !! grammar_id grammar_quiet =
               Some (wrapper_a grammar_quiet)) by (vm_compute; reflexivity).
  destruct (update_list_replaces_native_list env_accept colours grammar_quiet
              (wrapper_a grammar_quiet) engine_loaded world1 Hw)
    as (_ & Haccepted & Hdone).
  assert (Hr : result_of (update_list env_accept colours grammar_quiet
                            engine_loaded world1) = Return tt).
  { apply Haccepted. vm_compute. repeat constructor. }
  split; [exact Hw|]. split; [vm_compute; reflexivity|]. split; [exact Hr|].
  destruct (Hdone Hr) as (_ & Hlist & _). exact Hlist.
Defined.

(** The retain directory "retained" does not exist in [world0]: one
    warning and nothing else.  It exists in [world1] and the disk is full:
    the exception is logged and [_retain_audio] returns. *)
Lemma retain_audio_never_raises_witness :
  let missing := _retain_audio env_accept path_join_demo audio_length_demo
                   engine_loaded ["hello"] results_audio "greet"
                   (wrapper_a grammar_quiet) world0 in
  let full := _retain_audio env_disk_full path_join_demo audio_length_demo
                engine_loaded ["hello"] results_audio "greet"
                (wrapper_a grammar_quiet) world1 in
  (truthy (_retain_dir engine_loaded) = true
   /\ (retain_dir_of engine_loaded ∉ dirs world0)
   /\ new_logs world0 (world_of missing) =
        [not_a_directory_warning "retained"]
   /\ new_events world0 (world_of missing) = [])
  /\ (retain_dir_of engine_loaded ∈ dirs world1
      /\ result_of full = Return tt
      /\ new_logs world1 (world_of full) = [retain_exception]).
Proof.
  cbv zeta.
  assert (Ht : truthy (_retain_dir engine_loaded) = true) by reflexivity.
  assert (Hno : retain_dir_of engine_loaded ∉ dirs world0) by not_in_set.
  assert (Hyes : retain_dir_of engine_loaded ∈ dirs world1) by in_set.
  split.
  - destruct (retain_audio_never_raises env_accept path_join_demo
                audio_length_demo base_returns engine_loaded PNone ["hello"]
                results_audio false "greet" (wrapper_a grammar_quiet) world0)
      as (_ & _ & Hmissing & _).
    destruct (Hmissing Ht Hno) as (Hlog & Hev & _).
    split; [exact Ht|]. split; [exact Hno|]. split; [exact Hlog | exact Hev].
  - destruct (retain_audio_never_raises env_disk_full path_join_demo
                audio_length_demo base_returns engine_loaded PNone ["hello"]
                results_audio false "greet" (wrapper_a grammar_quiet) world1)
      as (Hr & _ & _ & Hcaught & _).
    split; [exact Hyes|]. split; [exact Hr|].
    apply (Hcaught Ht Hyes
             (file_write "retained/retain_2024-01-01_12-00-00_000000.wav"
                [Byte.x01; Byte.x02],
              Some (OtherError "No space left on device"))).
    + vm_compute. apply in_tail, in_tail, in_head.
    + reflexivity.
Defined.

(** No wave data, a retain directory that exists: [getWave] is the only
    call, and nothing is logged. *)
Lemma retain_audio_empty_wave_is_silent_witness :
  let run := _retain_audio env_accept path_join_demo audio_length_demo
               engine_loaded ["hello"] results_empty "greet"
               (wrapper_a grammar_quiet) world1 in
  wave results_empty = []
  /\ retain_dir_of engine_loaded ∈ dirs world1
  /\ files (world_of run) = files world1
  /\ new_logs world1 (world_of run) = [].
Proof.
  cbv zeta.
  assert (Hw : wave results_empty = []) by reflexivity.
  assert (Hyes : retain_dir_of engine_loaded ∈ dirs world1) by in_set.
  destruct (retain_audio_empty_wave_is_silent env_accept path_join_demo
              audio_length_demo engine_loaded ["hello"] results_empty "greet"
              (wrapper_a grammar_quiet) world1 Hw) as (Hfiles & _ & Hsilent).
  split; [exact Hw|]. split; [exact Hyes|]. split; [exact Hfiles|].
  exact (proj2 (Hsilent eq_refl Hyes eq_refl)).
Defined.


(** natlink refuses the activation: [activate_rule] has made its one
    call and raises [AttributeError], and the name is in the active set
    all the same. *)
Example activate_rule_raises_after_recording :
  let run := activate_rule env_reject_activation "b" (wrapper_a grammar_quiet)
               world0 in
  result_of run = Raise no_natlink_attribute
  /\ elements (active_rules_set (state_of run)) = ["a"; "b"]
  /\ new_events world0 (world_of run) =
       [(activate 7 "b" 0, Some (NatError "invalid window handle"))].
Proof. cbv zeta. repeat split; vm_compute; reflexivity. Qed.

(** * More of the adapter at concrete inputs *)

Lemma map_word_yields_text_witness :
  result_of (map_word decode_ascii (PBytes "notepad.exe") tt world0) =
    Return (PText "notepad.exe")
  /\ is_bytes (PText "notepad.exe") = false
  /\ map_word decode_ascii (PText "notepad.exe") tt world0 =
       (Return (PText "notepad.exe"), tt, world0).
Proof.
  assert (Hr : result_of (map_word decode_ascii (PBytes "notepad.exe") tt world0)
               = Return (PText "notepad.exe")) by reflexivity.
  destruct (map_word_yields_text decode_ascii (PBytes "notepad.exe") tt world0)
    as (_ & _ & H & _).
  destruct (H _ Hr) as (Hb & _ & _ & Hagain).
  split; [exact Hr|]. split; [exact Hb | exact Hagain].
Defined.

(** natlink refuses to activate rule "a", which is active already: one
    call, and [AttributeError] instead of the recovery. *)
Lemma activate_rule_asks_once_witness :
  let self := wrapper_a grammar_quiet in
  let w := set_trace [(activate 7 "a" 0, None)] world0 in
  let run := activate_rule env_natlink "a" self w in
  beginning self = false
  /\ new_events w (world_of run) =
       [(activate 7 "a" 0, Some (NatError "rule is already active"))]
  /\ result_of run = Raise no_natlink_attribute.
Proof.
  cbv zeta. split; [reflexivity|].
  destruct (activate_rule_asks_once env_natlink "a" (wrapper_a grammar_quiet)
              (set_trace [(activate 7 "a" 0, None)] world0) eq_refl)
    as (Hcalls & _ & Hraise & _).
  split; [exact Hcalls|].
  exact (Hraise (NatError "rule is already active") eq_refl).
Defined.

Lemma deactivate_rule_after_activate_rule_witness :
  let first := activate_rule env_reject_activation "b"
                 (wrapper_a grammar_quiet) world0 in
  let second := deactivate_rule env_reject_activation "b"
                  (state_of first) (world_of first) in
  ("b" ∉ active_rules_set (wrapper_a grammar_quiet))
  /\ active_rules_set (state_of second) =
       active_rules_set (wrapper_a grammar_quiet).
Proof.
  cbv zeta.
  assert (Hb : "b" ∉ active_rules_set (wrapper_a grammar_quiet))
    by not_in_set.
  split; [exact Hb|].
  destruct (deactivate_rule_after_activate_rule env_reject_activation "b"
              (wrapper_a grammar_quiet) world0) as (_ & _ & _ & H).
  exact (H Hb).
Defined.

Lemma begin_callback_logs_handler_errors_witness :
  let phase := begin_phase env_accept decode_latin1 module_info0
                 (wrapper_a grammar_drops) world0 in
  let undecodable := (PBytes (String (ascii_of_nat 233) ""),
                      PText "Untitled", 1234) in
  (decoded decode_latin1 (PBytes "notepad.exe") = Return (PText "notepad.exe")
   /\ decoded decode_latin1 (PText "Untitled") = Return (PText "Untitled")
   /\ result_of phase = Return tt
   /\ new_logs world0 (world_of phase) = [process_begin_exception])
  /\ (decoded decode_ascii (PBytes (String (ascii_of_nat 233) "")) =
        Raise (OtherError "'ascii' codec can't decode byte")
      /\ begin_callback env_accept decode_ascii elements undecodable
           (wrapper_a grammar_quiet) world0 =
           (Raise (OtherError "'ascii' codec can't decode byte"),
            set_beginning true (wrapper_a grammar_quiet), world0)).
Proof.
  cbv zeta. split.
  - destruct (begin_callback_logs_handler_errors env_accept decode_latin1
                elements module_info0 (wrapper_a grammar_drops) world0)
      as [H _].
    destruct (H (PText "notepad.exe") (PText "Untitled") eq_refl eq_refl)
      as (Hr & _ & _ & _ & _ & Hlogs).
    split; [reflexivity|]. split; [reflexivity|]. split; [exact Hr|].
    rewrite Hlogs. vm_compute. reflexivity.
  - destruct (begin_callback_logs_handler_errors env_accept decode_ascii elements
                (PBytes (String (ascii_of_nat 233) ""), PText "Untitled", 1234)
                (wrapper_a grammar_quiet) world0) as [_ H].
    assert (Hd : decoded decode_ascii (PBytes (String (ascii_of_nat 233) "")) =
                   Raise (OtherError "'ascii' codec can't decode byte"))
      by reflexivity.
    split; [exact Hd|].
    destruct (H _ (or_introl Hd)) as [Hrun _]. exact Hrun.
Defined.

Lemma engine_activate_rule_reaches_session_witness :
  let run := NatlinkEngine_activate_rule env_accept rule_b grammar_quiet
               engine_loaded world1 in
  _grammar_wrappers engine_loaded !! grammar_id grammar_quiet =
    Some (wrapper_a grammar_quiet)
  /\ _grammar_wrappers (state_of run) !! grammar_id grammar_quiet =
       Some (set_active_rules_set
               ({["b"]} ∪ active_rules_set (wrapper_a grammar_quiet))
               (wrapper_a grammar_quiet)).
Proof.
  cbv zeta.
  assert (Hl : _grammar_wrappers engine_loaded !! grammar_id grammar_quiet =
                 Some (wrapper_a grammar_quiet)) by (vm_compute; reflexivity).
  split; [exact Hl|].
  destruct (engine_activate_rule_reaches_session env_accept rule_b
              grammar_quiet engine_loaded world1) as (_ & _ & _ & _ & H).
  destruct (H _ Hl) as [Hnew _]. exact Hnew.
Defined.

Lemma engine_deactivate_rule_reaches_session_witness :
  let run := NatlinkEngine_deactivate_rule env_accept rule_b grammar_quiet
               engine_loaded world1 in
  _grammar_wrappers engine_loaded !! grammar_id grammar_quiet =
    Some (wrapper_a grammar_quiet)
  /\ (Rule_name rule_b ∉ active_rules_set (wrapper_a grammar_quiet))
  /\ state_of run = engine_loaded
  /\ result_of run = Raise (KeyError "b").
Proof.
  cbv zeta.
  assert (Hl : _grammar_wrappers engine_loaded !! grammar_id grammar_quiet =
                 Some (wrapper_a grammar_quiet)) by (vm_compute; reflexivity).
  assert (Hb : Rule_name rule_b ∉ active_rules_set (wrapper_a grammar_quiet))
    by not_in_set.
  split; [exact Hl|]. split; [exact Hb|].
  destruct (engine_deactivate_rule_reaches_session env_accept rule_b
              grammar_quiet engine_loaded world1) as (_ & H & _).
  destruct (H _ Hl Hb) as (Hs & _ & Hr). split; [exact Hs | exact Hr].
Defined.

Lemma TimerThread_start_creates_timer_once_witness :
  let run := TimerThread_start env_accept TimerThread_init world0 in
  _timer TimerThread_init = None
  /\ env_accept (trace world0) create_timer = None
  /\ _timer (state_of run) = Some (next_object world0).
Proof.
  cbv zeta. split; [reflexivity|]. split; [reflexivity|].
  destruct (TimerThread_start_creates_timer_once env_accept TimerThread_init
              world0) as (_ & _ & _ & H).
  destruct (H eq_refl eq_refl) as [Ht _]. exact Ht.
Defined.

Lemma TimerThread_stop_stops_timer_once_witness :
  let thread := mkTimerThread false (Some 3%nat) in
  let run := TimerThread_stop env_accept thread world0 in
  result_of run = Return tt
  /\ _timer (state_of run) = None
  /\ TimerThread_stop env_accept (state_of run) (world_of run) =
       (Return tt, state_of run, world_of run).
Proof.
  cbv zeta.
  assert (Hr : result_of (TimerThread_stop env_accept
                            (mkTimerThread false (Some 3%nat)) world0) =
               Return tt) by reflexivity.
  split; [exact Hr|].
  destruct (TimerThread_stop_stops_timer_once env_accept
              (mkTimerThread false (Some 3%nat)) world0) as (_ & _ & _ & H & _).
  exact (H Hr).
Defined.

Lemma apply_threading_fix_applies_once_witness :
  let run := apply_threading_fix env_accept engine_new world0 in
  _timer_thread engine_new = None
  /\ result_of run = Return tt
  /\ new_events world0 (world_of run) =
       [(create_timer, None); (Thread_start, None)].
Proof.
  cbv zeta.
  assert (Hr : result_of (apply_threading_fix env_accept engine_new world0) =
               Return tt) by reflexivity.
  split; [reflexivity|]. split; [exact Hr|].
  destruct (apply_threading_fix_applies_once env_accept engine_new world0)
    as (_ & _ & _ & _ & _ & H).
  destruct (H eq_refl) as [_ H']. destruct (H' Hr) as [Hev _]. exact Hev.
Defined.

Lemma connect_starts_one_thread_witness :
  let run := connect env_accept engine_new world0 in
  let again := connect env_accept (state_of run) (world_of run) in
  result_of run = Return tt
  /\ state_of again = state_of run
  /\ new_events (world_of run) (world_of again) =
       [(natConnect true,
         env_accept (trace (world_of run)) (natConnect true))].
Proof.
  cbv zeta.
  assert (Hr : result_of (connect env_accept engine_new world0) = Return tt)
    by reflexivity.
  split; [exact Hr|].
  destruct (connect_starts_one_thread env_accept engine_new world0)
    as (_ & _ & H).
  destruct (H Hr) as (_ & Hs & Hev). split; [exact Hs | exact Hev].
Defined.

Lemma load_grammar_returns_new_session_witness :
  let run := _load_grammar env_accept compile_hello str_grammar_demo "natlink"
               grammar_quiet engine_new world0 in
  let wrapper := mkGrammarWrapper grammar_quiet 0 (Some {["hello" := 1%nat]})
                   ∅ 0 false in
  result_of run = Return wrapper
  /\ _grammar_wrappers (state_of run) = _grammar_wrappers engine_new
  /\ _timer_thread (state_of run) <> None.
Proof.
  cbv zeta.
  assert (Hr : result_of (_load_grammar env_accept compile_hello
                            str_grammar_demo "natlink" grammar_quiet
                            engine_new world0) =
               Return (mkGrammarWrapper grammar_quiet 0
                         (Some {["hello" := 1%nat]}) ∅ 0 false))
    by (vm_compute; reflexivity).
  split; [exact Hr|].
  destruct (load_grammar_returns_new_session env_accept compile_hello
              str_grammar_demo "natlink" grammar_quiet engine_new world0 _ Hr)
    as (compiled & rule_names & Hc & _ & Hg & _ & _ & Hrules).
  split; [exact Hg|].
  injection Hc as _ <-.
  assert (Hne : ({["hello" := 1%nat]} : gmap string nat) <> ∅)
    by apply insert_non_empty.
  destruct (Hrules Hne) as [Ht _]. exact Ht.
Defined.

Lemma update_list_never_keeps_old_words_witness :
  let run := update_list env_no_green colours grammar_quiet engine_loaded
               world1 in
  _grammar_wrappers engine_loaded !! grammar_id grammar_quiet =
    Some (wrapper_a grammar_quiet)
  /\ env_no_green (trace world1) (emptyList 7 "colours") = None
  /\ native_lists world1 !! (7%nat, "colours") = Some ["mauve"]
  /\ native_lists (world_of run) !! (7%nat, "colours") = Some ["red"]
  /\ result_of run = Raise (NatError "unknown word").
Proof.
  cbv zeta.
  assert (Hl : _grammar_wrappers engine_loaded !! grammar_id grammar_quiet =
                 Some (wrapper_a grammar_quiet)) by (vm_compute; reflexivity).
  split; [exact Hl|]. split; [reflexivity|].
  split; [vm_compute; reflexivity|].
  destruct (update_list_never_keeps_old_words env_no_green colours
              grammar_quiet engine_loaded world1) as [_ H].
  destruct (H _ Hl) as [_ H'].
  destruct (H' eq_refl) as (Hlist & _ & _).
  split; [|vm_compute; reflexivity].
  cbv zeta in Hlist. cbn [grammar_object wrapper_a list_name colours] in Hlist.
  rewrite Hlist. vm_compute. reflexivity.
Defined.

Lemma mimic_sentence_is_its_words_witness :
  Forall is_token ["hello"; "world"]
  /\ mimic env_no_match encode_latin1 false repr_arg_demo repr_words_demo
       (words_value (PText "hello world")) engine_new world0 =
     mimic env_no_match encode_latin1 false repr_arg_demo repr_words_demo
       (words_seq [PText "hello"; PText "world"]) engine_new world0.
Proof.
  assert (Htok : Forall is_token ["hello"; "world"]).
  { repeat constructor; discriminate. }
  split; [exact Htok|].
  exact (mimic_sentence_is_its_words env_no_match encode_latin1 false
           repr_arg_demo repr_words_demo ["hello"; "world"] engine_new world0
           Htok).
Defined.

Lemma mimic_hands_over_prepared_words_witness :
  let run := mimic env_no_match encode_latin1 false repr_arg_demo
               repr_words_demo (words_value (PText "  hello   world "))
               engine_new world0 in
  let c := recognitionMimic [PText "hello"; PText "world"] in
  (c, Some (MimicFailed "mimic failed")) ∈ new_events world0 (world_of run)
  /\ exists prepared_words,
       c = recognitionMimic prepared_words /\ prepared_words <> [].
Proof.
  cbv zeta.
  assert (Hin : (recognitionMimic [PText "hello"; PText "world"],
                 Some (MimicFailed "mimic failed"))
                ∈ new_events world0
                    (world_of (mimic env_no_match encode_latin1 false
                                 repr_arg_demo repr_words_demo
                                 (words_value (PText "  hello   world "))
                                 engine_new world0))).
  { apply list_elem_of_singleton. reflexivity. }
  split; [exact Hin|].
  destruct (mimic_hands_over_prepared_words env_no_match encode_latin1 false
              repr_arg_demo repr_words_demo
              (words_value (PText "  hello   world ")) engine_new world0)
    as (_ & _ & H).
  destruct (H _ _ Hin) as (prepared_words & Hc & Hne & _).
  exists prepared_words. split; [exact Hc | exact Hne].
Defined.

Lemma disconnect_closes_only_own_dialog_witness :
  let win := mkWindow 99 "Natlink / Python Subsystem" true 4242 in
  let run := disconnect env_accept str_grammar_demo title_is engine_loaded
               world1 in
  (Window_close win, None) ∈ new_events world1 (world_of run)
  /\ win ∈ desktop world1
  /\ is_visible win = true
  /\ win_pid win = getpid world1.
Proof.
  cbv zeta.
  assert (Hin : (Window_close (mkWindow 99 "Natlink / Python Subsystem" true 4242),
                 None)
                ∈ new_events world1
                    (world_of (disconnect env_accept str_grammar_demo title_is
                                 engine_loaded world1))).
  { do 3 apply in_tail. apply in_head. }
  split; [exact Hin|].
  destruct (disconnect_closes_only_own_dialog env_accept str_grammar_demo
              title_is engine_loaded world1 _ _ Hin) as (Hd & _ & Hv & Hp).
  split; [exact Hd|]. split; [exact Hv | exact Hp].
Defined.

Lemma retain_audio_writes_wave_and_record_witness :
  let run := _retain_audio env_accept path_join_demo audio_length_demo
               engine_loaded ["hello"] results_audio "greet"
               (wrapper_a grammar_quiet) world1 in
  let wav_path := wav_path_of path_join_demo engine_loaded world1 in
  let tsv_path := tsv_path_of path_join_demo engine_loaded in
  (truthy (_retain_dir engine_loaded) = true
   /\ retain_dir_of engine_loaded ∈ dirs world1
   /\ wave results_audio <> []
   /\ wav_path <> tsv_path
   /\ forallb accepted (new_events world1 (world_of run)) = true)
  /\ files (world_of run) !! wav_path = Some [Byte.x01; Byte.x02]
  /\ files (world_of run) !! tsv_path =
       Some (retain_record audio_length_demo (wrapper_a grammar_quiet)
               ["hello"] results_audio "greet" world1).
Proof.
  cbv zeta.
  assert (Hdir : retain_dir_of engine_loaded ∈ dirs world1) by in_set.
  assert (Haudio : wave results_audio <> []) by discriminate.
  assert (Hpaths : wav_path_of path_join_demo engine_loaded world1 <>
                   tsv_path_of path_join_demo engine_loaded)
    by (vm_compute; discriminate).
  assert (Hall : forallb accepted
                   (new_events world1
                      (world_of (_retain_audio env_accept path_join_demo
                                   audio_length_demo engine_loaded ["hello"]
                                   results_audio "greet"
                                   (wrapper_a grammar_quiet) world1))) = true)
    by (vm_compute; reflexivity).
  split; [repeat split; assumption|].
  destruct (retain_audio_writes_wave_and_record env_accept path_join_demo
              audio_length_demo engine_loaded ["hello"] results_audio "greet"
              (wrapper_a grammar_quiet) world1 eq_refl Hdir Haudio Hpaths Hall)
    as (_ & Hwav & Htsv & _).
  split; [exact Hwav | exact Htsv].
Defined.

Lemma retain_audio_record_follows_wave_witness :
  let run := _retain_audio env_accept path_join_demo audio_length_demo
               engine_loaded ["hello"] results_audio "greet"
               (wrapper_a grammar_quiet) world1 in
  let wav_path := wav_path_of path_join_demo engine_loaded world1 in
  let tsv_path := tsv_path_of path_join_demo engine_loaded in
  wav_path <> tsv_path
  /\ (file_open tsv_path mode_a, None) ∈ new_events world1 (world_of run)
  /\ files (world_of run) !! wav_path = Some (wave results_audio).
Proof.
  cbv zeta.
  assert (Hpaths : wav_path_of path_join_demo engine_loaded world1 <>
                   tsv_path_of path_join_demo engine_loaded)
    by (vm_compute; discriminate).
  assert (Hin : (file_open (tsv_path_of path_join_demo engine_loaded) mode_a,
                 None)
                ∈ new_events world1
                    (world_of (_retain_audio env_accept path_join_demo
                                 audio_length_demo engine_loaded ["hello"]
                                 results_audio "greet"
                                 (wrapper_a grammar_quiet) world1))).
  { do 3 apply in_tail. apply in_head. }
  split; [exact Hpaths|]. split; [exact Hin|].
  destruct (retain_audio_record_follows_wave env_accept path_join_demo
              audio_length_demo engine_loaded ["hello"] results_audio "greet"
              (wrapper_a grammar_quiet) world1 None Hpaths Hin)
    as (_ & Hwav & _).
  exact Hwav.
Defined.


Lemma set_retain_directory_switches_retention_witness :
  let on := state_of (set_retain_directory false repr_arg_demo path_join_demo
                        false "python.exe" isabs_posix (Return None)
                        (Return "") (PText "/nowhere") engine_loaded world0) in
  isabs_posix "/nowhere" = true
  /\ "/nowhere" <> ""
  /\ ("/nowhere" ∉ dirs world1)
  /\ _retain_audio env_accept path_join_demo audio_length_demo on ["hello"]
       results_audio "greet" (wrapper_a grammar_quiet) world1 =
       (Return tt, wrapper_a grammar_quiet,
        set_logs (logs world1 ++ [not_a_directory_warning "/nowhere"])%list
          world1).
Proof.
  cbv zeta.
  assert (Hne : "/nowhere" <> "") by discriminate.
  assert (Hdir : "/nowhere" ∉ dirs world1) by not_in_set.
  split; [reflexivity|]. split; [exact Hne|]. split; [exact Hdir|].
  destruct (set_retain_directory_switches_retention env_accept false
              repr_arg_demo path_join_demo audio_length_demo false
              "python.exe" isabs_posix (Return None) (Return "")
              engine_loaded world0 ["hello"] results_audio "greet"
              (wrapper_a grammar_quiet) world1) as [_ H].
  exact (H "/nowhere" eq_refl Hne Hdir).
Defined.

Lemma retained_audio_goes_to_set_directory_witness :
  let engine := state_of (set_retain_directory false repr_arg_demo
                            path_join_demo false "python.exe" isabs_posix
                            (Return None) (Return "") (PText "/audio")
                            engine_new world0) in
  let run := _retain_audio env_accept path_join_demo audio_length_demo engine
               ["hello"] results_audio "greet" (wrapper_a grammar_quiet)
               world2 in
  let wav_path := path_join_demo "/audio" (wav_name world2) in
  let tsv_path := path_join_demo "/audio" "retain.tsv" in
  (isabs_posix "/audio" = true
   /\ "/audio" <> ""
   /\ "/audio" ∈ dirs world2
   /\ wave results_audio <> []
   /\ wav_path <> tsv_path
   /\ forallb accepted (new_events world2 (world_of run)) = true)
  /\ files (world_of run) !! wav_path = Some (wave results_audio)
  /\ files (world_of run) !! tsv_path =
       Some ([Byte.x61]
             ++ retain_record audio_length_demo (wrapper_a grammar_quiet)
                  ["hello"] results_audio "greet" world2)%list.
Proof.
  cbv zeta.
  assert (Hne : "/audio" <> "") by discriminate.
  assert (Hdir : "/audio" ∈ dirs world2) by in_set.
  assert (Haudio : wave results_audio <> []) by discriminate.
  assert (Hpaths : path_join_demo "/audio" (wav_name world2) <>
                   path_join_demo "/audio" "retain.tsv")
    by (vm_compute; discriminate).
  assert (Hall : forallb accepted
                   (new_events world2
                      (world_of
                         (_retain_audio env_accept path_join_demo
                            audio_length_demo
                            (state_of
                               (set_retain_directory false repr_arg_demo
                                  path_join_demo false "python.exe"
                                  isabs_posix (Return None) (Return "")
                                  (PText "/audio") engine_new world0))
                            ["hello"] results_audio "greet"
                            (wrapper_a grammar_quiet) world2))) = true)
    by (vm_compute; reflexivity).
  split; [repeat split; first [assumption | reflexivity]|].
  destruct (retained_audio_goes_to_set_directory env_accept false
              repr_arg_demo path_join_demo audio_length_demo false
              "python.exe" isabs_posix (Return None) (Return "") "/audio"
              engine_new world0 ["hello"] results_audio "greet"
              (wrapper_a grammar_quiet) world2 eq_refl Hne Hdir Haudio
              Hpaths Hall) as (_ & Hwav & Htsv).
  split; [exact Hwav|]. rewrite Htsv. vm_compute. reflexivity.
Defined.

